(** * Nearest-neighbour analysis pipeline of [bin/analyze_brain_data.py]

    A shallow embedding of the analysis core of the script (the ranking of
    database rows per query, the per-query statistics, the coarse
    control/disease aggregation, the contingency comparison and the
    enrichment selection) together with the properties the specification
    states about it.

    Conventions of the embedding.
    - A run starts from the rows of the distance matrix [dist_model]; the
      embedding models, [cdist] and the drawing of the charts are outside
      the embedding.
    - Python exceptions are explicit: a fallible step returns a [result].
    - Labels and identifiers are [string]s, read as their UTF-8 bytes: the
      bytewise order and substring test agree with Python's on [str].
    - A [float64] is an [npfloat]: NaN, +infinity, or the rational number it
      denotes (the values of the script are never negative infinity).  The
      rounding of individual operations is not modelled.
    - [np.argsort], [scipy.stats.binom_test] and [plt.hist] are library
      functions outside the script; they are parameters of the development,
      [np.argsort] constrained by its documented contract only (the order
      it gives to equal values is left open).  What [plt.hist] accepts is
      left open as well; [plt_hist_contract] names the assumption that it
      draws every non-empty list of finite numbers, for the one property
      that uses it. *)

From Stdlib Require Import QArith Qround Qabs OrderedTypeEx.
From stdpp Require Import gmap strings list sorting pretty.

(** ** Exceptions *)

Inductive exn : Set := ValueError | IndexError | OverflowError.

Inductive result (A : Type) : Type :=
| Ok (a : A)
| Raise (e : exn).
Arguments Ok {A} a.
Arguments Raise {A} e.

#[global] Instance result_ret : MRet result := @Ok.
#[global] Instance result_bind : MBind result := λ A B f m,
  match m with Ok a => f a | Raise e => Raise e end.
#[global] Instance result_fmap : FMap result := λ A B f m,
  match m with Ok a => Ok (f a) | Raise e => Raise e end.

Definition is_Ok {A} (m : result A) : Prop := ∃ a, m = Ok a.

(** ** Python strings: order, [sorted], [list.index], [in] *)

Definition str_le (a b : string) : Prop := String.leb a b = true.

(** Insertion sort by a boolean comparison; an element is placed before the
    first element it is below, so equal elements keep their order. *)
Fixpoint insert_by {A} (leb : A → A → bool) (x : A) (l : list A) : list A :=
  match l with
  | [] => [x]
  | y :: l' => if leb x y then x :: l else y :: insert_by leb x l'
  end.

Definition isort_by {A} (leb : A → A → bool) (l : list A) : list A :=
  foldr (insert_by leb) [] l.

(** [sorted(l)] on a list of strings.  Timsort is stable; on strings the
    outcome is the unique ascending arrangement. *)
Definition sorted (l : list string) : list string := isort_by String.leb l.

(** [l.index(x)]: position of the first occurrence, [ValueError] if absent. *)
Fixpoint py_index (x : string) (l : list string) : result nat :=
  match l with
  | [] => Raise ValueError
  | y :: l' => if String.eqb y x then Ok 0 else S <$> py_index x l'
  end.

(** [sub in s] for strings: [sub] occurs in [s] as a contiguous substring. *)
Fixpoint str_contains (sub s : string) : bool :=
  String.prefix sub s ||
  match s with
  | EmptyString => false
  | String _ s' => str_contains sub s'
  end.

(** What the test decides: [sub] occurs in [s] as a contiguous substring. *)
Definition substring_of (sub s : string) : Prop :=
  ∃ pre post, s = (pre +:+ sub +:+ post).

(** Number of occurrences of a label in a list (the value a [Counter] of the
    list holds for it, [0] when absent). *)
Definition occurrences (x : string) (l : list string) : nat :=
  length (filter (λ y, y = x) l).

(** ** [itertools.groupby] and [max(..., key=...)] *)

(** [groupby(l)] with the identity key: maximal runs of equal consecutive
    elements, each paired with its value. *)
Fixpoint groupby (l : list string) : list (string * list string) :=
  match l with
  | [] => []
  | x :: l' =>
      match groupby l' with
      | (k, grp) :: rest =>
          if String.eqb x k then (k, x :: grp) :: rest
          else (x, [x]) :: (k, grp) :: rest
      | [] => [(x, [x])]
      end
  end.

(** Keys of [classify] are tuples [(len, -index)], compared as Python
    compares tuples. *)
Definition key_lt (a b : nat * Z) : bool :=
  (a.1 <? b.1)%nat || ((a.1 =? b.1)%nat && (a.2 <? b.2)%Z).

(** [max] keeps the first item whose key no later key strictly exceeds. *)
Fixpoint max_from {A} (best : (nat * Z) * A) (l : list ((nat * Z) * A))
  : (nat * Z) * A :=
  match l with
  | [] => best
  | x :: l' => max_from (if key_lt best.1 x.1 then x else best) l'
  end.

Definition py_max {A} (l : list ((nat * Z) * A)) : result A :=
  match l with
  | [] => Raise ValueError
  | x :: l' => Ok (max_from x l').2
  end.

Fixpoint mapM_result {A B} (f : A → result B) (l : list A) : result (list B) :=
  match l with
  | [] => Ok []
  | x :: l' => y ← f x; ys ← mapM_result f l'; Ok (y :: ys)
  end.

(** ** [classify] (lines 379-382)

    [max(g(sorted(ns)), key=lambda xv: (len(list(xv[1])), -ns.index(xv[0])))[0]]:
    [max] evaluates the key of every group as soon as [groupby] yields it, so
    each group is measured while it is still live. *)
Definition classify (sorted_neighbors : list string) : result string :=
  keyed ← mapM_result
             (λ xv : string * list string,
                i ← py_index xv.1 sorted_neighbors;
                Ok ((length xv.2, (- Z.of_nat i)%Z), xv))
             (groupby (sorted sorted_neighbors));
  xv ← py_max keyed;
  Ok xv.1.

(** ** [float64] values and the NumPy operations the script applies to them *)

Inductive npfloat : Type :=
| NaN
| Inf
| Fin (q : Q).

(** The order NumPy sorts by: ascending, NaN last. *)
Definition np_leb (x y : npfloat) : bool :=
  match x, y with
  | _, NaN => true
  | NaN, _ => false
  | _, Inf => true
  | Inf, Fin _ => false
  | Fin a, Fin b => Qle_bool a b
  end.

Definition np_le (x y : npfloat) : Prop := np_leb x y = true.

(** Numerical equality of two values (NaN is not a number, hence equal to
    nothing). *)
Definition np_eq (x y : npfloat) : Prop :=
  match x, y with
  | Inf, Inf => True
  | Fin a, Fin b => a == b
  | _, _ => False
  end.

Definition np_add (x y : npfloat) : npfloat :=
  match x, y with
  | NaN, _ | _, NaN => NaN
  | Inf, _ | _, Inf => Inf
  | Fin a, Fin b => Fin (a + b)
  end.

(** [np.sum(a)]; the sum of no element is [0.0]. *)
Definition np_sum (a : list npfloat) : npfloat := foldr np_add (Fin 0) a.

(** [np.mean(a)]: the sum over the number of elements; of an empty array it
    is [0.0 / 0], NaN (NumPy warns and goes on). *)
Definition np_mean (a : list npfloat) : npfloat :=
  match a with
  | [] => NaN
  | _ :: _ =>
      match np_sum a with
      | Fin s => Fin (s / inject_Z (Z.of_nat (length a)))
      | other => other
      end
  end.

(** [c / n] for a count [c] held in a float array and a non-negative integer
    [n]: NumPy divides by zero without raising, [0/0] is NaN and [c/0] is
    +infinity for [c > 0]. *)
Definition np_frac (c n : nat) : npfloat :=
  match n with
  | O => match c with O => NaN | S _ => Inf end
  | S _ => Fin (Z.of_nat c # Pos.of_nat n)
  end.

(** [math.floor(1000 * h)]: [math.floor] raises on NaN and on infinities. *)
Definition floor_1000 (h : npfloat) : result Z :=
  match h with
  | NaN => Raise ValueError
  | Inf => Raise OverflowError
  | Fin q => Ok (Qfloor (1000 * q))
  end.

(** Fancy indexing [a[idx]] with an index array: [IndexError] on an index out
    of bounds. *)
Definition np_take {A} (a : list A) (idx : list nat) : result (list A) :=
  mapM_result (λ i, match a !! i with Some x => Ok x | None => Raise IndexError end) idx.

(** [np.unique(l, return_counts=True)]: the sorted distinct values and how
    often each occurs. *)
Definition np_unique (l : list string) : list string := (groupby (sorted l)).*1.

Definition np_unique_counts (l : list string) : list nat :=
  (λ xv : string * list string, length xv.2) <$> groupby (sorted l).

(** [np.union1d(a, b)] is [np.unique(np.concatenate((a, b)))]. *)
Definition np_union1d (a b : list string) : list string := np_unique (a ++ b).

(** What NumPy documents of [np.argsort(a)] with the default [kind]: the
    result is an arrangement of the indices of [a] along which the values
    ascend.  The default kind is documented as not stable. *)
Definition argsort_contract (argsort : list npfloat → list nat) : Prop :=
  ∀ a, argsort a ≡ₚ seq 0 (length a) ∧
       ∀ (i j ki kj : nat) x y, (i ≤ j)%nat →
         argsort a !! i = Some ki → argsort a !! j = Some kj →
         a !! ki = Some x → a !! kj = Some y → np_le x y.

(** Two argsorts that meet the contract: both sort the (value, index) pairs
    by value and differ on equal values only, which [tie] orders. *)
Definition pair_leb (tie : nat → nat → bool) (p q : npfloat * nat) : bool :=
  if np_leb p.1 q.1 then (if np_leb q.1 p.1 then tie p.2 q.2 else true) else false.

Definition argsort_by (tie : nat → nat → bool) (a : list npfloat) : list nat :=
  (isort_by (pair_leb tie) (zip a (seq 0 (length a)))).*2.

Definition argsort_stable : list npfloat → list nat := argsort_by Nat.leb.
Definition argsort_ties_reversed : list npfloat → list nat :=
  argsort_by (λ i j, Nat.leb j i).

(** ** [nearest_dist_to_each_type] (lines 154-159) *)

Fixpoint nearest_loop (min_distances : gmap string npfloat)
    (pairs : list (npfloat * string)) : gmap string npfloat :=
  match pairs with
  | [] => min_distances
  | (dist, label) :: rest =>
      nearest_loop
        (match min_distances !! label with
         | None => <[label := dist]> min_distances
         | Some _ => min_distances
         end) rest
  end.

Definition nearest_dist_to_each_type (distances : list npfloat)
    (labels : list string) : gmap string npfloat :=
  nearest_loop ∅ (zip distances labels).

(** ** [defaultdict(list)] accumulators, in insertion order *)

Fixpoint dd_extend {V} (k : string) (vs : list V) (d : list (string * list V))
  : list (string * list V) :=
  match d with
  | [] => [(k, vs)]
  | (k', old) :: d' =>
      if String.eqb k' k then (k', old ++ vs) :: d'
      else (k', old) :: dd_extend k vs d'
  end.

(** ** One iteration of the loop of [main] (lines 411-447) *)

Definition brain : string := "UBERON:0000955 brain".
Definition cortex : string := "UBERON:0001851 cortex".
Definition bone_marrow_cell : string := "CL:0002092 bone marrow cell".
Definition osteocyte : string := "CL:0000137 osteocyte".

Record query_row : Type := {
  q_id : string;              (* [rpkm_df.index[index]] *)
  q_label : string;           (* [query_labels[index]] *)
  q_dists : list npfloat      (* [dist_model[index]] *)
}.

Record query_stats : Type := {
  sorted_distances_indices : list nat;
  sorted_distances : list npfloat;
  sorted_labels : list string;
  sorted_cell_ids : list string;
  top_5_cells : list string;
  in_top_1 : bool;            (* brain or cortex is the nearest label *)
  in_top_5 : bool;            (* ... is among the 5 nearest labels *)
  in_top_10 : bool;
  in_top_100 : bool;
  brain_cortex_count : nat;
  bm_osteocyte_count : nat;
  min_distances : gmap string npfloat;
  top_5_types : list string;
  avg_top_5_distances : npfloat;
  classified_label : string
}.

Record accum : Type := {
  brain_cortex_in_top_100 : list string;
  brain_cortex_in_top_10 : list string;
  brain_cortex_in_top_5 : list string;
  brain_cortex_in_top_1 : list string;
  brain_cortex_counts : list (string * nat * nat);
  top_5_nearest_cells : gmap string (list string);
  nearest_dist_per_type_dict : gmap string (gmap string (list npfloat));
  top_5_types_dict : list (string * list string);
  avg_nearest_5_distances_dict : list (string * list npfloat);
  classifications : list (string * list string);
  overall_classifications : list string
}.

Definition accum_init : accum :=
  {| brain_cortex_in_top_100 := []; brain_cortex_in_top_10 := [];
     brain_cortex_in_top_5 := []; brain_cortex_in_top_1 := [];
     brain_cortex_counts := []; top_5_nearest_cells := ∅;
     nearest_dist_per_type_dict := ∅; top_5_types_dict := [];
     avg_nearest_5_distances_dict := []; classifications := [];
     overall_classifications := [] |}.

Section Ranking.
Variable argsort : list npfloat → list nat.
Variables db_labels db_cell_ids : list string.

Definition query_statistics (distances_to_query : list npfloat)
  : result query_stats :=
  let idx := argsort distances_to_query in
  sd ← np_take distances_to_query idx;
  sl ← np_take db_labels idx;
  sc ← np_take db_cell_ids idx;
  (* [sorted_labels[0]]: out of bounds when the database has no row *)
  nearest ← match sl !! 0 with Some l => Ok l | None => Raise IndexError end;
  let top_100 := take 100 sl in
  cl ← classify top_100;
  Ok {| sorted_distances_indices := idx;
        sorted_distances := sd;
        sorted_labels := sl;
        sorted_cell_ids := sc;
        top_5_cells := take 5 sc;
        in_top_1 := bool_decide (nearest = brain ∨ nearest = cortex);
        in_top_5 := bool_decide (brain ∈ take 5 sl ∨ cortex ∈ take 5 sl);
        in_top_10 := bool_decide (brain ∈ take 10 sl ∨ cortex ∈ take 10 sl);
        in_top_100 := bool_decide (brain ∈ top_100 ∨ cortex ∈ top_100);
        brain_cortex_count := occurrences brain top_100 + occurrences cortex top_100;
        bm_osteocyte_count :=
          occurrences bone_marrow_cell top_100 + occurrences osteocyte top_100;
        min_distances := nearest_dist_to_each_type sd sl;
        top_5_types := take 5 sl;
        avg_top_5_distances := np_mean (take 5 sd);
        classified_label := cl |}.

Definition record_query (q : query_row) (st : query_stats) (acc : accum) : accum :=
  {| brain_cortex_in_top_100 :=
       brain_cortex_in_top_100 acc ++ (if in_top_100 st then [q_id q] else []);
     brain_cortex_in_top_10 :=
       brain_cortex_in_top_10 acc ++ (if in_top_10 st then [q_id q] else []);
     brain_cortex_in_top_5 :=
       brain_cortex_in_top_5 acc ++ (if in_top_5 st then [q_id q] else []);
     brain_cortex_in_top_1 :=
       brain_cortex_in_top_1 acc ++ (if in_top_1 st then [q_id q] else []);
     brain_cortex_counts :=
       brain_cortex_counts acc ++
         [(q_id q, brain_cortex_count st, bm_osteocyte_count st)];
     top_5_nearest_cells := <[q_id q := top_5_cells st]> (top_5_nearest_cells acc);
     nearest_dist_per_type_dict :=
       <[q_label q :=
           union_with (λ old new, Some (old ++ new))
             (default ∅ (nearest_dist_per_type_dict acc !! q_label q))
             ((λ d, [d]) <$> min_distances st)]>
         (nearest_dist_per_type_dict acc);
     top_5_types_dict := dd_extend (q_label q) (top_5_types st) (top_5_types_dict acc);
     avg_nearest_5_distances_dict :=
       dd_extend (q_label q) [avg_top_5_distances st] (avg_nearest_5_distances_dict acc);
     classifications :=
       dd_extend (q_label q) [classified_label st] (classifications acc);
     overall_classifications :=
       overall_classifications acc ++ [classified_label st] |}.

Fixpoint query_loop (acc : accum) (queries : list query_row) : result accum :=
  match queries with
  | [] => Ok acc
  | q :: rest =>
      st ← query_statistics (q_dists q);
      query_loop (record_query q st acc) rest
  end.
End Ranking.

(** ** [make_classification_histograms] (lines 215-356)

    What reaches the exported tables, the tick labels and the significance
    tests is kept; the drawing of the bar charts is left out. *)

(** Lines 230-247: the coarse lists, filled group by group in the order the
    groups were first seen. *)
Fixpoint coarse_split (items : list (string * list string))
    (control_clfs disease_clfs : list string) : list string * list string :=
  match items with
  | [] => (control_clfs, disease_clfs)
  | (query_type, clfs) :: rest =>
      if str_contains "control" query_type then
        coarse_split rest (control_clfs ++ clfs) disease_clfs
      else if str_contains "disease" query_type then
        coarse_split rest control_clfs (disease_clfs ++ clfs)
      else coarse_split rest control_clfs disease_clfs
  end.

(** Lines 274-279 and 284-289: one count per merged label. *)
Definition label_counts (merged clfs : list string) : list nat :=
  (λ label, occurrences label clfs) <$> merged.

(** Lines 313-317: the arguments [(x, n)] handed to [binom_test(x, n, p=0.5)]
    for one pair of bars. *)
Definition column_test (height1 height2 : npfloat) : result (Z * Z) :=
  count1 ← floor_1000 height1;
  count2 ← floor_1000 height2;
  Ok (count1, (count1 + count2)%Z).

Definition column_tests (fracs1 fracs2 : list npfloat) : result (list (Z * Z)) :=
  mapM_result (λ hh : npfloat * npfloat, column_test hh.1 hh.2) (zip fracs1 fracs2).

(** Line 329: the columns of the 2-row table that hold no zero. *)
Definition keep_columns (control_counts disease_counts : list nat) : list nat :=
  filter (λ i, control_counts !!! i ≠ 0 ∧ disease_counts !!! i ≠ 0)
         (seq 0 (length control_counts)).

(** Line 302: [' '.join(name.split()[1:])], the label without its first
    word.  [str.split()] cuts at runs of whitespace characters; a label is
    read as its UTF-8 bytes, so the characters are decoded first. *)
Definition bytes (l : list nat) : string :=
  foldr (λ n s, String (Ascii.ascii_of_nat n) s) EmptyString l.

(** The characters for which [str.isspace] holds, in UTF-8. *)
Definition py_whitespace : list string :=
  bytes <$>
    [[9]; [10]; [11]; [12]; [13]; [28]; [29]; [30]; [31]; [32];
     [194; 133]; [194; 160]; [225; 154; 128];
     [226; 128; 128]; [226; 128; 129]; [226; 128; 130]; [226; 128; 131];
     [226; 128; 132]; [226; 128; 133]; [226; 128; 134]; [226; 128; 135];
     [226; 128; 136]; [226; 128; 137]; [226; 128; 138];
     [226; 128; 168]; [226; 128; 169]; [226; 128; 175]; [226; 129; 159];
     [227; 128; 128]].

(** Number of bytes of the character that the byte [b] starts. *)
Definition utf8_len (b : Ascii.ascii) : nat :=
  let n := Ascii.nat_of_ascii b in
  if (n <? 128)%nat then 1 else if (n <? 224)%nat then 2
  else if (n <? 240)%nat then 3 else 4.

(** The characters of a string; [pending] holds the bytes read of a
    character of which [need] bytes are still to come. *)
Fixpoint utf8_chars (pending : string) (need : nat) (s : string) : list string :=
  match s with
  | EmptyString => if decide (pending = EmptyString) then [] else [pending]
  | String b s' =>
      match need with
      | O =>
          match utf8_len b with
          | 1 => String b EmptyString :: utf8_chars EmptyString 0 s'
          | k => utf8_chars (String b EmptyString) (k - 1) s'
          end
      | S n =>
          let p := (pending +:+ String b EmptyString) in
          match n with
          | O => p :: utf8_chars EmptyString 0 s'
          | S _ => utf8_chars p n s'
          end
      end
  end.

Fixpoint split_words (word : string) (chars : list string) : list string :=
  match chars with
  | [] => if decide (word = EmptyString) then [] else [word]
  | c :: rest =>
      if decide (c ∈ py_whitespace) then
        (if decide (word = EmptyString) then split_words EmptyString rest
         else word :: split_words EmptyString rest)
      else split_words (word +:+ c) rest
  end.

(** [s.split()] *)
Definition py_split (s : string) : list string :=
  split_words EmptyString (utf8_chars EmptyString 0 s).

Definition tick_label (name : string) : string :=
  String.concat " " (tail (py_split name)).

Record histograms (pvalue : Type) : Type := {
  control_clfs : list string;
  disease_clfs : list string;
  (* first pass, columns ordered by descending control fraction *)
  merged_db_types : list string;      (* as on lines 297-301, before the renaming *)
  tick_labels : list string;          (* [merged_db_types] from line 303 on *)
  control_counts : list nat;
  disease_counts : list nat;          (* with the above: [contingency_table] *)
  control_fracs : list npfloat;
  disease_fracs : list npfloat;
  tests : list (Z * Z);
  pvals : list pvalue;
  (* second pass, zero columns removed *)
  merged_db_types_nz : list string;   (* the labels of the columns kept, before
                                         the renaming: what identifies them *)
  tick_labels_nz : list string;       (* [merged_db_types] from line 330 on *)
  control_counts_nz : list nat;
  disease_counts_nz : list nat;       (* with the above: [contingency_table2] *)
  control_fracs_nz : list npfloat;
  disease_fracs_nz : list npfloat;
  tests_nz : list (Z * Z);
  pvals_nz : list pvalue
}.
Arguments control_clfs {pvalue} _.
Arguments disease_clfs {pvalue} _.
Arguments merged_db_types {pvalue} _.
Arguments tick_labels {pvalue} _.
Arguments control_counts {pvalue} _.
Arguments disease_counts {pvalue} _.
Arguments control_fracs {pvalue} _.
Arguments disease_fracs {pvalue} _.
Arguments tests {pvalue} _.
Arguments pvals {pvalue} _.
Arguments merged_db_types_nz {pvalue} _.
Arguments tick_labels_nz {pvalue} _.
Arguments control_counts_nz {pvalue} _.
Arguments disease_counts_nz {pvalue} _.
Arguments control_fracs_nz {pvalue} _.
Arguments disease_fracs_nz {pvalue} _.
Arguments tests_nz {pvalue} _.
Arguments pvals_nz {pvalue} _.

Section Histograms.
Variable argsort : list npfloat → list nat.
Context {pvalue : Type}.
Variable binom_test : Z → Z → Q → pvalue.

(** Lines 248-251: [np.unique(clfs, return_counts=True)], the labels then
    reordered by [np.argsort(counts)[::-1]]. *)
Definition types_by_count (clfs : list string) : result (list string) :=
  np_take (np_unique clfs)
    (reverse (argsort ((λ c, Fin (inject_Z (Z.of_nat c))) <$> np_unique_counts clfs))).

Definition make_classification_histograms
    (overall_classifications : list string)
    (classifications : list (string * list string))
  : result (histograms pvalue) :=
  let cd := coarse_split classifications [] [] in
  db_types_control ← types_by_count cd.1;
  db_types_disease ← types_by_count cd.2;
  (* merge the cases *)
  let merged := np_union1d db_types_control db_types_disease in
  let ccounts := label_counts merged cd.1 in
  let cfracs := (λ c, np_frac c (length cd.1)) <$> ccounts in
  let dcounts := label_counts merged cd.2 in
  let dfracs := (λ c, np_frac c (length cd.2)) <$> dcounts in
  let labels_sort_idx := reverse (argsort cfracs) in
  merged ← np_take merged labels_sort_idx;
  dfracs ← np_take dfracs labels_sort_idx;
  dcounts ← np_take dcounts labels_sort_idx;
  cfracs ← np_take cfracs labels_sort_idx;
  ccounts ← np_take ccounts labels_sort_idx;
  let ticks := tick_label <$> merged in
  (* add p-vals *)
  ts ← column_tests cfracs dfracs;
  let keep := keep_columns ccounts dcounts in
  merged2 ← np_take merged keep;
  ticks2 ← np_take ticks keep;
  ccounts2 ← np_take ccounts keep;
  let cfracs2 := (λ c, np_frac c (sum_list ccounts2)) <$> ccounts2 in
  dcounts2 ← np_take dcounts keep;
  let dfracs2 := (λ c, np_frac c (sum_list dcounts2)) <$> dcounts2 in
  ts2 ← column_tests cfracs2 dfracs2;
  Ok {| control_clfs := cd.1; disease_clfs := cd.2;
        merged_db_types := merged; tick_labels := ticks;
        control_counts := ccounts; disease_counts := dcounts;
        control_fracs := cfracs; disease_fracs := dfracs;
        tests := ts;
        pvals := (λ t : Z * Z, binom_test t.1 t.2 (1 # 2)) <$> ts;
        merged_db_types_nz := merged2; tick_labels_nz := ticks2;
        control_counts_nz := ccounts2; disease_counts_nz := dcounts2;
        control_fracs_nz := cfracs2; disease_fracs_nz := dfracs2;
        tests_nz := ts2;
        pvals_nz := (λ t : Z * Z, binom_test t.1 t.2 (1 # 2)) <$> ts2 |}.
End Histograms.

(** ** [enriched_brain_cortex_plot_and_data] (lines 359-377)

    Returns [keep] and the entries written to [brain_cortex_nearest_hits.txt]
    (an identifier with the five cell identifiers listed under it).  The
    dictionary is a [defaultdict(list)]: a missing identifier reads as the
    empty list, and indexing fewer than five cells raises [IndexError]. *)
Fixpoint enriched_loop (count_list : list (string * nat * nat))
    (top_5_nearest_cells_d : gmap string (list string)) (threshold : nat)
    (keep : list string) (hits : list (string * list string))
  : result (list string * list (string * list string)) :=
  match count_list with
  | [] => Ok (keep, hits)
  | item :: rest =>
      if (threshold <? item.1.2)%nat then
        let cells := default [] (top_5_nearest_cells_d !! item.1.1) in
        if (length cells <? 5)%nat then Raise IndexError
        else enriched_loop rest top_5_nearest_cells_d threshold
               (keep ++ [item.1.1]) (hits ++ [(item.1.1, take 5 cells)])
      else enriched_loop rest top_5_nearest_cells_d threshold keep hits
  end.

Definition enriched_brain_cortex_plot_and_data
    (count_list : list (string * nat * nat))
    (top_5_nearest_cells_d : gmap string (list string)) (threshold : nat)
  : result (list string * list (string * list string)) :=
  enriched_loop count_list top_5_nearest_cells_d threshold [] [].

(** ** Chart data

    The charts themselves are drawn by matplotlib; what the script computes
    for them is modelled here. *)

(** Lines 45-63: the query groups the script knows and their colours. *)
Definition classes_ordered : list string :=
  ["control_3m"; "control_3m_1w"; "control_3m_2w"; "control_4m_2w";
   "disease_3m"; "disease_3m_1w"; "disease_3m_2w"; "disease_4m_2w"].

Definition color_map : gmap string string :=
  list_to_map
    [("control_3m", "#66ffff"); ("control_3m_1w", "#6699ff");
     ("control_3m_2w", "#6600ff"); ("control_4m_2w", "#ff00cc");
     ("disease_3m", "#33ff00"); ("disease_3m_1w", "#ffff00");
     ("disease_3m_2w", "#ff9900"); ("disease_4m_2w", "#ff0000")].

(** [plot], line 76: [colors = [color_map[label] for label in labels]].
    A label without a colour raises [KeyError]: [None]. *)
Definition plot_colors (labels : list string) : option (list string) :=
  mapM (λ label, color_map !! label) labels.

(** [plot_consolidated_labels], lines 90-95: one colour per label that holds
    a marker, none for the others. *)
Fixpoint consolidated_colors (labels : list string) : list string :=
  match labels with
  | [] => []
  | l :: rest =>
      if str_contains "control" l then "b" :: consolidated_colors rest
      else if str_contains "disease" l then "r" :: consolidated_colors rest
      else consolidated_colors rest
  end.

Section Charts.
Variable argsort : list npfloat → list nat.

(** Lines 191-194, 219-222 and 233-236: [np.unique(..., return_counts=True)],
    labels and counts then reordered by [np.argsort(counts)[::-1]]. *)
Definition unique_by_count (clfs : list string) : result (list string * list nat) :=
  let db_types := np_unique clfs in
  let counts := np_unique_counts clfs in
  let sort_idx :=
    reverse (argsort ((λ c, Fin (inject_Z (Z.of_nat c))) <$> counts)) in
  db_types ← np_take db_types sort_idx;
  counts ← np_take counts sort_idx;
  Ok (db_types, counts).

(** [make_top_5_labels_plots], lines 190-194: the bars of every query group. *)
Definition make_top_5_labels_plots (d : list (string * list string))
  : result (list (string * (list string * list nat))) :=
  mapM_result (λ item : string * list string,
                 bars ← unique_by_count item.2; Ok (item.1, bars)) d.

(** [make_nearest_dist_per_db_type_plots], lines 166-175, for one query
    group: the items of its dictionary, averaged and sorted by average. *)
Definition nearest_dist_bars (nearest_to_db_types_d : list (string * list npfloat))
  : result (list string * list npfloat) :=
  let avgs_labels := nearest_to_db_types_d.*1 in
  let avgs_values := (λ item : string * list npfloat, np_mean item.2)
                       <$> nearest_to_db_types_d in
  let sort_idx := argsort avgs_values in
  avgs_labels ← np_take avgs_labels sort_idx;
  avgs_values ← np_take avgs_values sort_idx;
  Ok (avgs_labels, avgs_values).

(** [make_nearest_dist_per_db_type_plots], lines 165-175: the bars of every
    query group.  The dictionary of dictionaries is kept as a finite map, so
    groups and labels are met in the order of the map and not in the order
    of insertion; [main] does not use the bars again. *)
Definition make_nearest_dist_per_db_type_plots
    (d : gmap string (gmap string (list npfloat)))
  : result (list (string * (list string * list npfloat))) :=
  mapM_result (λ item : string * gmap string (list npfloat),
                 bars ← nearest_dist_bars (map_to_list item.2); Ok (item.1, bars))
    (map_to_list d).
End Charts.

(** ** [make_5_nearest_distances_plots] (lines 203-213)

    One [plt.hist(avg_nearest_distances, bins='auto')] per query group, in
    the order of the dictionary.  [plt.hist] is matplotlib's and can refuse
    its data (a list whose range is not finite, with [ValueError]); it is a
    parameter, and an exception it raises ends the step. *)
Definition make_5_nearest_distances_plots (plt_hist : list npfloat → result unit)
    (d : list (string * list npfloat)) : result (list unit) :=
  mapM_result (λ item : string * list npfloat, plt_hist item.2) d.

Definition finite (x : npfloat) : Prop := ∃ q, x = Fin q.

(** A finite number of magnitude at most 10^300: five of them add up
    without overflow in float64. *)
Definition moderate (x : npfloat) : Prop :=
  ∃ q, x = Fin q ∧ (Qabs q <= inject_Z (10 ^ 300))%Q.

(** The assumption on [plt.hist] under which every histogram is drawn. *)
Definition plt_hist_contract (plt_hist : list npfloat → result unit) : Prop :=
  ∀ l, l ≠ [] → Forall finite l → plt_hist l = Ok ().

(** ** [main] (lines 385-459), from the distance matrix on

    After the loop come the five reporting steps of lines 449-453, in the
    order of the source; the first three return nothing that the run uses
    again. *)

Record outputs (pvalue : Type) : Type := {
  out_histograms : histograms pvalue;
  out_enriched : list string;
  out_nearest_hits : list (string * list string)
}.
Arguments out_histograms {pvalue} _.
Arguments out_enriched {pvalue} _.
Arguments out_nearest_hits {pvalue} _.

Section Main.
Variable argsort : list npfloat → list nat.
Context {pvalue : Type}.
Variable plt_hist : list npfloat → result unit.
Variable binom_test : Z → Z → Q → pvalue.
Variables db_labels db_cell_ids : list string.

Definition main (queries : list query_row) : result (outputs pvalue) :=
  acc ← query_loop argsort db_labels db_cell_ids accum_init queries;
  _ ← make_nearest_dist_per_db_type_plots argsort (nearest_dist_per_type_dict acc);
  _ ← make_top_5_labels_plots argsort (top_5_types_dict acc);
  _ ← make_5_nearest_distances_plots plt_hist (avg_nearest_5_distances_dict acc);
  h ← make_classification_histograms argsort binom_test
        (overall_classifications acc) (classifications acc);
  e ← enriched_brain_cortex_plot_and_data
        (brain_cortex_counts acc) (top_5_nearest_cells acc) 70;
  Ok {| out_histograms := h; out_enriched := e.1; out_nearest_hits := e.2 |}.
End Main.

(** A stand-in for [binom_test] that returns its arguments, for running the
    pipeline on concrete inputs. *)
Definition binom_test_args (x n : Z) (p : Q) : Z * Z * Q := (x, n, p).

(** A stand-in for [plt.hist] that draws the lists of finite numbers and
    refuses the others with [ValueError], for running the pipeline on
    concrete inputs. *)
Definition plt_hist_finite (l : list npfloat) : result unit :=
  if forallb (λ x, match x with Fin _ => true | _ => false end) l
  then Ok () else Raise ValueError.

(** [d[k]] on a [defaultdict(list)] held in insertion order: the list under
    [k], empty when [k] was never written. *)
Definition dd_get {V} (k : string) (d : list (string * list V)) : list V :=
  default [] (snd <$> head (filter (λ kv, kv.1 = k) d)).

(** The distinct elements of a list in the order of their first occurrence. *)
Definition first_seen (l : list string) : list string :=
  reverse (remove_dups (reverse l)).

(** [d[k][t]] on the dictionary of dictionaries of lists: empty when either
    key was never written. *)
Definition dd2_get (k t : string) (d : gmap string (gmap string (list npfloat)))
  : list npfloat :=
  default [] (d !! k ≫= (.!! t)).

(** No list stored in the dictionary of dictionaries is empty. *)
Definition lists_nonempty (d : gmap string (gmap string (list npfloat))) : Prop :=
  ∀ k m t ds, d !! k = Some m → m !! t = Some ds → ds ≠ [].

(** Two groups of a thousand classified labels each, with the fractions
    0.667 and 0.333 of the specification's example. *)
Definition thousand_cells : list (string * list string) :=
  [("control_3m", replicate 667 "X" ++ replicate 333 "Y");
   ("disease_3m", replicate 333 "X" ++ replicate 667 "Y")].

(** A database of 142 rows, 71 of them brain, and two queries: the first
    nearest to the brain rows, the second farthest from them. *)
Definition brain_db_labels : list string := replicate 71 brain ++ replicate 71 osteocyte.

Definition brain_db_cell_ids : list string := (λ i, "cell" +:+ pretty i) <$> seq 0 142.

Definition brain_queries : list query_row :=
  [ {| q_id := "s1"; q_label := "control_3m";
       q_dists := (λ i, Fin (inject_Z (Z.of_nat i))) <$> seq 0 142 |};
    {| q_id := "s2"; q_label := "disease_3m";
       q_dists := (λ i, Fin (inject_Z (Z.of_nat (142 - i)))) <$> seq 0 142 |} ].

(** Three query rows over a database of three rows, for running the loop on
    concrete inputs. *)
Definition three_queries : list query_row :=
  [ {| q_id := "s1"; q_label := "control_3m"; q_dists := [Fin 1; Fin 2; Fin (1 # 2)] |};
    {| q_id := "s2"; q_label := "disease_3m"; q_dists := [Fin (1 # 2); Fin 1; Fin 2] |};
    {| q_id := "s3"; q_label := "control_3m"; q_dists := [Fin 3; Fin 1; Fin 2] |} ].

(** * Properties *)

(** ** Exceptions *)

Lemma bind_Ok {A B} (m : result A) (f : A → result B) b :
  m ≫= f = Ok b ↔ ∃ a, m = Ok a ∧ f a = Ok b.
Proof.
  destruct m as [a|e]; simpl; split.
  - intros H. eauto.
  - intros (a' & [= <-] & H). done.
  - discriminate.
  - intros (a' & [=] & _).
Qed.

Lemma bind_Ok_l {A B} (a : A) (f : A → result B) : Ok a ≫= f = f a.
Proof. done. Qed.

(** ** The order on strings *)

Lemma str_le_total a b : str_le a b ∨ str_le b a.
Proof. apply String.leb_total. Qed.

Lemma str_le_antisym a b : str_le a b → str_le b a → a = b.
Proof. apply String.leb_antisym. Qed.

Lemma str_le_trans a b c : str_le a b → str_le b c → str_le a c.
Proof.
  unfold str_le, String.leb. intros Hab Hbc.
  destruct (String.compare a b) eqn:E1; try done.
  - apply String.compare_eq_iff in E1. by subst.
  - destruct (String.compare b c) eqn:E2; try done.
    + apply String.compare_eq_iff in E2. subst. by rewrite E1.
    + apply String_as_OT.cmp_lt in E1, E2.
      pose proof (String_as_OT.lt_trans _ _ _ E1 E2) as H.
      apply String_as_OT.cmp_lt in H. unfold String_as_OT.cmp in H. by rewrite H.
Qed.

(** ** Insertion sort *)

Section Isort.
Context {A : Type} (leb : A → A → bool).
Let R (x y : A) : Prop := leb x y = true.

Lemma insert_by_perm x l : insert_by leb x l ≡ₚ x :: l.
Proof.
  induction l as [|y l IH]; simpl; [done|].
  destruct (leb x y); [done|]. rewrite IH. apply Permutation_swap.
Qed.

Lemma isort_by_perm l : isort_by leb l ≡ₚ l.
Proof.
  induction l as [|x l IH]; simpl; [done|].
  rewrite insert_by_perm. by rewrite IH.
Qed.

Hypothesis leb_total : ∀ x y, R x y ∨ R y x.
Hypothesis leb_trans : ∀ x y z, R x y → R y z → R x z.

Lemma insert_by_sorted x l :
  StronglySorted R l → StronglySorted R (insert_by leb x l).
Proof.
  induction 1 as [|y l Hs IH Hy]; simpl.
  - repeat constructor.
  - destruct (leb x y) eqn:E.
    + constructor; [by constructor|].
      constructor; [done|].
      eapply Forall_impl; [exact Hy|]. intros z Hz. by eapply leb_trans.
    + constructor; [done|].
      rewrite insert_by_perm. constructor; [|done].
      destruct (leb_total x y) as [H|H]; [unfold R in H; congruence|done].
Qed.

Lemma isort_by_sorted l : StronglySorted R (isort_by leb l).
Proof.
  induction l as [|x l IH]; simpl; [constructor|]. by apply insert_by_sorted.
Qed.
End Isort.

Lemma sorted_perm l : sorted l ≡ₚ l.
Proof. apply isort_by_perm. Qed.

Lemma sorted_sorted l : StronglySorted str_le (sorted l).
Proof. apply isort_by_sorted; [apply str_le_total | apply str_le_trans]. Qed.

(** ** Occurrence counts *)

Lemma occurrences_cons x y l :
  occurrences x (y :: l) = (if decide (y = x) then 1 else 0) + occurrences x l.
Proof.
  unfold occurrences. rewrite filter_cons. by destruct (decide (y = x)).
Qed.

Lemma occurrences_perm x l l' : l ≡ₚ l' → occurrences x l = occurrences x l'.
Proof. unfold occurrences. by intros ->. Qed.

Lemma occurrences_pos x l : 0 < occurrences x l ↔ x ∈ l.
Proof.
  induction l as [|y l IH].
  - split; [inversion 1 | by intros ?%elem_of_nil].
  - rewrite occurrences_cons, elem_of_cons.
    destruct (decide (y = x)) as [->|Hne]; [split; [auto | lia]|].
    simpl. rewrite IH. split; [auto | by intros [|]].
Qed.

Lemma occurrences_disjoint x y l :
  x ≠ y → occurrences x l + occurrences y l ≤ length l.
Proof.
  intros Hne. induction l as [|z l IH]; [done|].
  rewrite !occurrences_cons. simpl.
  destruct (decide (z = x)), (decide (z = y)); subst; try done; lia.
Qed.

(** ** [groupby] on a sorted list *)

Lemma groupby_head l :
  head (groupby l).*1 = head l.
Proof.
  destruct l as [|x l]; [done|]. simpl.
  destruct (groupby l) as [|[k g] rest] eqn:E; [done|].
  destruct (String.eqb_spec x k) as [->|]; done.
Qed.

Lemma groupby_keys_elem l k : k ∈ (groupby l).*1 ↔ k ∈ l.
Proof.
  revert k. induction l as [|x l IH]; intros k; [done|]. simpl.
  destruct (groupby l) as [|[k' g] rest] eqn:E.
  - destruct l as [|y l]; [simpl; intros; by rewrite !list_elem_of_singleton|].
    simpl in E. destruct (groupby l) as [|[??] ?]; [done|].
    by destruct (String.eqb _ _).
  - rewrite elem_of_cons, <- IH.
    destruct (String.eqb_spec x k') as [->|]; simpl; rewrite !elem_of_cons.
    + tauto.
    + tauto.
Qed.

Lemma groupby_sorted_inv l :
  StronglySorted str_le l →
  NoDup (groupby l).*1 ∧
  ∀ k g, (k, g) ∈ groupby l → length g = occurrences k l.
Proof.
  induction 1 as [|x l Hs [IHnd IHc] Hx]; [split; [constructor | by intros ?? ?%elem_of_nil]|].
  pose proof (groupby_head l) as Hhd.
  pose proof (groupby_keys_elem l) as Hkeys.
  simpl. destruct (groupby l) as [|[k g] rest] eqn:E.
  - destruct l as [|y l]; [|by simpl in Hhd].
    split; [apply NoDup_singleton|].
    intros k g [= -> ->]%list_elem_of_singleton. rewrite occurrences_cons.
    by rewrite decide_True.
  - destruct l as [|y l]; [done|]. simpl in Hhd. injection Hhd as <-.
    destruct (String.eqb_spec x k) as [->|Hne].
    + split; [done|]. intros k' g' Hin. rewrite occurrences_cons.
      apply elem_of_cons in Hin as [[= -> ->]|Hin].
      * rewrite decide_True by done. simpl. f_equal. apply IHc. left.
      * simpl in IHnd. apply NoDup_cons in IHnd as [Hk _].
        rewrite decide_False.
        { apply IHc. by right. }
        intros <-. apply Hk. apply list_elem_of_fmap. by exists (k, g').
    + assert (x ∉ k :: l) as Hnotin.
      { intros Hin. rewrite Forall_forall in Hx.
        assert (str_le x k) as H1 by (apply Hx; left).
        assert (str_le k x) as H2.
        { apply StronglySorted_inv in Hs as [_ Hk].
          apply elem_of_cons in Hin as [->|Hin]; [done|].
          rewrite Forall_forall in Hk. by apply Hk. }
        apply Hne. by apply str_le_antisym. }
      split.
      * simpl. constructor; [|done]. by rewrite <- (Hkeys x) in Hnotin.
      * intros k' g' Hin. rewrite occurrences_cons.
        apply elem_of_cons in Hin as [[= -> ->]|Hin].
        -- rewrite decide_True by done.
           assert (occurrences x (k :: l) = 0) as ->; [|done].
           destruct (occurrences x (k :: l)) eqn:Ho; [done|].
           exfalso. apply Hnotin, occurrences_pos. lia.
        -- rewrite decide_False; [by apply IHc|].
           intros <-. apply Hnotin, Hkeys, list_elem_of_fmap. by exists (x, g').
Qed.

(** ** [list.index] *)

Lemma py_index_elem x l :
  x ∈ l →
  ∃ i, py_index x l = Ok i ∧ l !! i = Some x ∧ ∀ j, j < i → l !! j ≠ Some x.
Proof.
  induction l as [|y l IH]; [by intros ?%elem_of_nil|].
  intros Hin. simpl. destruct (String.eqb_spec y x) as [->|Hne].
  - exists 0. split; [done|]. split; [done|]. intros j Hj. lia.
  - apply elem_of_cons in Hin as [->|Hin]; [done|].
    destruct (IH Hin) as (i & -> & Hi & Hfirst).
    exists (S i). split; [done|]. split; [done|].
    intros [|j] Hj; simpl; [congruence | apply Hfirst; lia].
Qed.

(** ** [max] *)

Lemma key_lt_irrefl a : key_lt a a = false.
Proof.
  unfold key_lt. rewrite Nat.ltb_irrefl, Z.ltb_irrefl. by rewrite andb_false_r.
Qed.

Lemma key_lt_spec a b :
  key_lt a b = true ↔ a.1 < b.1 ∨ (a.1 = b.1 ∧ (a.2 < b.2)%Z).
Proof.
  unfold key_lt.
  rewrite orb_true_iff, andb_true_iff, Nat.ltb_lt, Nat.eqb_eq, Z.ltb_lt. done.
Qed.

Lemma max_from_spec {A} (best : (nat * Z) * A) l :
  max_from best l ∈ best :: l ∧
  ∀ x, x ∈ best :: l → key_lt (max_from best l).1 x.1 = false.
Proof.
  revert best. induction l as [|y l IH]; intros best; simpl.
  - split; [left|]. intros x ->%list_elem_of_singleton. apply key_lt_irrefl.
  - destruct (IH (if key_lt best.1 y.1 then y else best)) as [Hin Hmax].
    split.
    + apply elem_of_cons in Hin as [->|Hin]; [|by do 2 right].
      destruct (key_lt _ _); [right; left | left].
    + intros x Hx.
      assert (∀ m, key_lt m (if key_lt best.1 y.1 then y else best).1 = false →
                   key_lt m best.1 = false ∧ key_lt m y.1 = false) as Hmono.
      { intros m Hm. destruct (key_lt best.1 y.1) eqn:E.
        - split; [|done]. apply not_true_iff_false. intros Hb.
          apply key_lt_spec in E, Hb. apply not_true_iff_false in Hm.
          apply Hm, key_lt_spec. lia.
        - split; [done|]. apply not_true_iff_false. intros Hb.
          apply not_true_iff_false in E. apply E.
          apply not_true_iff_false in Hm.
          rewrite key_lt_spec in *. lia. }
      destruct (Hmono _ (Hmax _ (list_elem_of_here _ _))) as [Hb Hy].
      apply elem_of_cons in Hx as [->|Hx]; [done|].
      apply elem_of_cons in Hx as [->|Hx]; [done|].
      apply Hmax. by right.
Qed.

Lemma mapM_result_Ok {A B} (f : A → result B) (g : A → B) l :
  (∀ x, x ∈ l → f x = Ok (g x)) → mapM_result f l = Ok (g <$> l).
Proof.
  induction l as [|x l IH]; intros Hf; [done|]. simpl.
  rewrite (Hf x) by left. simpl. rewrite IH; [done|].
  intros y Hy. apply Hf. by right.
Qed.

(** ** Majority classification *)

Lemma classify_keyed (w : list string) :
  ∃ idx : string → nat,
    (∀ k, k ∈ w →
       py_index k w = Ok (idx k) ∧ w !! idx k = Some k ∧
       ∀ j, j < idx k → w !! j ≠ Some k) ∧
    classify w =
      xv ← py_max ((λ xv : string * list string,
                      ((length xv.2, (- Z.of_nat (idx xv.1))%Z), xv))
                     <$> groupby (sorted w));
      Ok xv.1.
Proof.
  exists (λ k, match py_index k w with Ok i => i | Raise _ => 0 end).
  assert (∀ k, k ∈ w →
            py_index k w = Ok (match py_index k w with Ok i => i | Raise _ => 0 end) ∧
            w !! (match py_index k w with Ok i => i | Raise _ => 0 end) = Some k ∧
            ∀ j, j < (match py_index k w with Ok i => i | Raise _ => 0 end) →
                 w !! j ≠ Some k) as Hidx.
  { intros k Hk. destruct (py_index_elem k w Hk) as (i & Hi & Hlk & Hfirst).
    rewrite Hi. done. }
  split; [done|].
  unfold classify. erewrite mapM_result_Ok; [done|].
  intros [k grp] Hin. simpl.
  destruct (Hidx k) as [-> _]; [|done].
  rewrite <- (sorted_perm w). apply groupby_keys_elem, list_elem_of_fmap.
  by exists (k, grp).
Qed.

Lemma groupby_sorted_nonempty (w : list string) : w ≠ [] → groupby (sorted w) ≠ [].
Proof.
  intros Hne Hnil. destruct w as [|x w]; [done|].
  assert (x ∈ (groupby (sorted (x :: w))).*1) as Hx.
  { apply groupby_keys_elem. rewrite sorted_perm. left. }
  rewrite Hnil in Hx. by apply elem_of_nil in Hx.
Qed.

Lemma classify_Ok (w : list string) : w ≠ [] → is_Ok (classify w).
Proof.
  intros Hne. destruct (classify_keyed w) as (idx & _ & ->).
  destruct (groupby (sorted w)) as [|xv gs] eqn:E.
  - by apply groupby_sorted_nonempty in E.
  - by eexists.
Qed.

(** C1. For a query row with at least one neighbour, the majority
    classification over the top-100 neighbour labels returns a label of that
    window whose occurrence count no other label exceeds, and every label
    that ties with it occurs only after its first occurrence in rank order. *)
Theorem C1_classify_majority_earliest_tie (sorted_labels : list string) :
  sorted_labels ≠ [] →
  ∃ l i,
    classify (take 100 sorted_labels) = Ok l ∧
    take 100 sorted_labels !! i = Some l ∧
    (∀ j, j < i → take 100 sorted_labels !! j ≠ Some l) ∧
    (∀ l', occurrences l' (take 100 sorted_labels)
             ≤ occurrences l (take 100 sorted_labels)) ∧
    (∀ l' j, l' ≠ l →
       occurrences l' (take 100 sorted_labels)
         = occurrences l (take 100 sorted_labels) →
       take 100 sorted_labels !! j = Some l' → i < j).
Proof.
  intros Hne0.
  assert (take 100 sorted_labels ≠ []) as Hne by (by destruct sorted_labels).
  set (w := take 100 sorted_labels) in *. clearbody w. clear Hne0.
  destruct (classify_keyed w) as (idx & Hidx & ->).
  set (g := λ xv : string * list string,
               ((length xv.2, (- Z.of_nat (idx xv.1))%Z), xv)).
  assert (∀ k, k ∈ (groupby (sorted w)).*1 ↔ k ∈ w) as Hkeys.
  { intros k. rewrite groupby_keys_elem. by rewrite sorted_perm. }
  destruct (groupby_sorted_inv _ (sorted_sorted w)) as [_ Hlen].
  destruct (groupby (sorted w)) as [|xv0 gs] eqn:Egs.
  { by apply groupby_sorted_nonempty in Egs. }
  destruct (max_from_spec (g xv0) (g <$> gs)) as [Hin Hmax].
  change (g xv0 :: (g <$> gs)) with (g <$> xv0 :: gs) in Hin, Hmax.
  apply list_elem_of_fmap in Hin as ([l grp] & Hm & Hin).
  assert (l ∈ w) as Hl by (apply Hkeys, list_elem_of_fmap; by exists (l, grp)).
  destruct (Hidx l Hl) as (_ & Hlk & Hfirst).
  assert (length grp = occurrences l w) as Hgrp.
  { rewrite (Hlen l grp Hin). apply occurrences_perm, sorted_perm. }
  assert (∀ l', l' ∈ w →
            occurrences l' w ≤ occurrences l w ∧
            (occurrences l' w = occurrences l w → idx l ≤ idx l')) as Hcmp.
  { intros l' Hl'.
    apply Hkeys, list_elem_of_fmap in Hl' as ([k' grp'] & -> & Hin').
    assert (length grp' = occurrences k' w) as Hgrp'.
    { rewrite (Hlen k' grp' Hin'). apply occurrences_perm, sorted_perm. }
    specialize (Hmax (g (k', grp'))). rewrite Hm in Hmax.
    apply not_true_iff_false in Hmax; [|by apply list_elem_of_fmap_2].
    rewrite key_lt_spec in Hmax. simpl in Hmax |- *. lia. }
  exists l, (idx l).
  split; [change (Ok (max_from (g xv0) (g <$> gs)).2.1 = Ok l); by rewrite Hm|].
  split; [done|]. split; [done|]. split.
  - intros l'. destruct (decide (l' ∈ w)) as [Hl'|Hl']; [by apply Hcmp|].
    destruct (occurrences l' w) eqn:E; [lia|].
    exfalso. apply Hl', occurrences_pos. lia.
  - intros l' j Hneq Hocc Hj.
    assert (l' ∈ w) as Hl' by (by eapply list_elem_of_lookup_2).
    destruct (Hcmp l' Hl') as [_ Hle]. specialize (Hle Hocc).
    destruct (Hidx l' Hl') as (_ & Hlk' & Hfirst').
    assert (idx l ≠ idx l') by (intros Heq; rewrite Heq in Hlk; congruence).
    destruct (decide (idx l' ≤ j)) as [|Hgt]; [lia|].
    exfalso. apply (Hfirst' j); [lia | done].
Qed.

Lemma C1_witness :
  ∃ l i,
    classify (take 100 ["B"; "A"; "C"; "A"; "B"]) = Ok l ∧
    take 100 ["B"; "A"; "C"; "A"; "B"] !! i = Some l ∧
    (∀ j, j < i → take 100 ["B"; "A"; "C"; "A"; "B"] !! j ≠ Some l) ∧
    (∀ l', occurrences l' (take 100 ["B"; "A"; "C"; "A"; "B"])
             ≤ occurrences l (take 100 ["B"; "A"; "C"; "A"; "B"])) ∧
    (∀ l' j, l' ≠ l →
       occurrences l' (take 100 ["B"; "A"; "C"; "A"; "B"])
         = occurrences l (take 100 ["B"; "A"; "C"; "A"; "B"]) →
       take 100 ["B"; "A"; "C"; "A"; "B"] !! j = Some l' → i < j).
Proof.
  apply (C1_classify_majority_earliest_tie ["B"; "A"; "C"; "A"; "B"]).
  discriminate.
Defined.

Example classify_spec_scenario : classify ["B"; "A"; "A"] = Ok "A".
Proof. reflexivity. Qed.

Example classify_tie_earliest :
  classify ["B"; "A"; "C"; "A"; "B"] = Ok "B".
Proof. reflexivity. Qed.

Example classify_empty : classify [] = Raise ValueError.
Proof. reflexivity. Qed.

(** ** The sort order on [float64] values *)

Lemma np_le_refl x : np_le x x.
Proof. destruct x; try done. apply Qle_bool_iff, Qle_refl. Qed.

Lemma np_le_total x y : np_le x y ∨ np_le y x.
Proof.
  destruct x as [| |a], y as [| |b]; unfold np_le; simpl; auto.
  rewrite !Qle_bool_iff. destruct (Qlt_le_dec a b) as [H|H]; [left|right]; [|done].
  by apply Qlt_le_weak.
Qed.

Lemma np_le_trans x y z : np_le x y → np_le y z → np_le x z.
Proof.
  destruct x as [| |a], y as [| |b], z as [| |c]; unfold np_le; simpl; try done.
  rewrite !Qle_bool_iff. apply Qle_trans.
Qed.

Lemma np_eq_le x y : np_eq x y → np_le x y ∧ np_le y x.
Proof.
  destruct x as [| |a], y as [| |b]; unfold np_le; simpl; try done.
  intros H. rewrite !Qle_bool_iff, H. split; apply Qle_refl.
Qed.

(** ** Fancy indexing *)

Lemma np_take_inv {A} (a : list A) idx r :
  np_take a idx = Ok r →
  length r = length idx ∧ ∀ j k, idx !! j = Some k → r !! j = a !! k.
Proof.
  unfold np_take. revert r. induction idx as [|k idx IH]; intros r; simpl.
  - intros [= <-]. split; [done|]. intros j k. by rewrite lookup_nil.
  - destruct (a !! k) as [x|] eqn:Ek; simpl; [|done].
    destruct (mapM_result _ idx) as [r'|] eqn:Er; simpl; [|done].
    intros [= <-]. destruct (IH r' eq_refl) as [Hlen Hlk].
    split; [simpl; by rewrite Hlen|].
    intros [|j] k'; simpl; [by intros [= <-] | apply Hlk].
Qed.

Lemma np_take_Ok {A} (a : list A) idx :
  (∀ k, k ∈ idx → k < length a) → is_Ok (np_take a idx).
Proof.
  unfold np_take. induction idx as [|k idx IH]; intros Hb; [by eexists|]. simpl.
  destruct (lookup_lt_is_Some_2 a k) as [x ->]; [apply Hb; left|]. simpl.
  destruct IH as [r Hr]; [intros k' Hk'; apply Hb; by right|].
  rewrite Hr. by eexists.
Qed.

Lemma np_take_perm {A} (a : list A) idx idx' r :
  idx ≡ₚ idx' → np_take a idx = Ok r → ∃ r', np_take a idx' = Ok r' ∧ r ≡ₚ r'.
Proof.
  intros Hp. revert r. unfold np_take.
  induction Hp as [|k idx idx' Hp IH|k1 k2 idx|idx1 idx2 idx3 _ IH1 _ IH2];
    intros r; simpl.
  - intros [= <-]. by exists [].
  - destruct (a !! k) as [x|]; simpl; [|done].
    destruct (mapM_result _ idx) as [r0|] eqn:Er; simpl; [|done]. intros [= <-].
    destruct (IH r0 eq_refl) as (r' & -> & Hr'). simpl.
    exists (x :: r'). split; [done|]. by constructor.
  - destruct (a !! k2) as [x2|]; simpl; [|done].
    destruct (a !! k1) as [x1|]; simpl; [|done].
    destruct (mapM_result _ idx) as [r0|]; simpl; [|done]. intros [= <-].
    exists (x1 :: x2 :: r0). split; [done|]. apply Permutation_swap.
  - intros H1. destruct (IH1 r H1) as (r2 & H2 & Hp2).
    destruct (IH2 r2 H2) as (r3 & H3 & Hp3).
    exists r3. split; [done|]. by etrans.
Qed.

Lemma np_take_seq {A} (pre a : list A) :
  np_take (pre ++ a) (seq (length pre) (length a)) = Ok a.
Proof.
  revert pre. unfold np_take. induction a as [|x a IH]; intros pre; [done|]. simpl.
  rewrite list_lookup_middle by done. simpl.
  specialize (IH (pre ++ [x])). rewrite length_app, <- app_assoc in IH. simpl in IH.
  rewrite Nat.add_1_r in IH. by rewrite IH.
Qed.

Lemma np_take_arrangement {A} (a : list A) idx r :
  idx ≡ₚ seq 0 (length a) → np_take a idx = Ok r → r ≡ₚ a.
Proof.
  intros Hp Hr. destruct (np_take_perm a _ _ r Hp Hr) as (r' & Hr' & Hpr).
  pose proof (np_take_seq [] a) as Hs. simpl in Hs. congruence.
Qed.

Lemma arrangement_bound idx n k : idx ≡ₚ seq 0 n → k ∈ idx → k < n.
Proof. intros Hp Hk. rewrite Hp in Hk. apply elem_of_seq in Hk. lia. Qed.

(** ** The two argsorts meet the contract *)

Lemma StronglySorted_lookup {A} (R : relation A) l i j x y :
  StronglySorted R l → i < j → l !! i = Some x → l !! j = Some y → R x y.
Proof.
  intros Hs. revert i j. induction Hs as [|z l Hs IH Hz]; intros i j Hij Hi Hj.
  - by rewrite lookup_nil in Hi.
  - destruct j as [|j]; [lia|]. simpl in Hj. destruct i as [|i]; simpl in Hi.
    + injection Hi as <-. rewrite Forall_forall in Hz.
      apply Hz. by eapply list_elem_of_lookup_2.
    + apply (IH i j); [lia|done..].
Qed.

Section ArgsortBy.
Variable tie : nat → nat → bool.
Hypothesis tie_total : ∀ i j, tie i j = true ∨ tie j i = true.
Hypothesis tie_trans : ∀ i j k, tie i j = true → tie j k = true → tie i k = true.

Lemma pair_leb_total p q : pair_leb tie p q = true ∨ pair_leb tie q p = true.
Proof.
  unfold pair_leb.
  destruct (np_leb p.1 q.1) eqn:E1, (np_leb q.1 p.1) eqn:E2; auto.
  destruct (np_le_total p.1 q.1) as [H|H]; unfold np_le in H; congruence.
Qed.

Lemma pair_leb_trans p q r :
  pair_leb tie p q = true → pair_leb tie q r = true → pair_leb tie p r = true.
Proof.
  unfold pair_leb.
  destruct (np_leb p.1 q.1) eqn:Epq; [|done].
  destruct (np_leb q.1 r.1) eqn:Eqr; [|by destruct (np_leb q.1 p.1)].
  rewrite (np_le_trans _ _ _ Epq Eqr).
  destruct (np_leb r.1 p.1) eqn:Erp; [|done].
  rewrite (np_le_trans _ _ _ Eqr Erp), (np_le_trans _ _ _ Erp Epq).
  apply tie_trans.
Qed.

Lemma pair_leb_np_le p q : pair_leb tie p q = true → np_le p.1 q.1.
Proof. unfold pair_leb, np_le. by destruct (np_leb p.1 q.1). Qed.

Lemma argsort_by_contract : argsort_contract (argsort_by tie).
Proof.
  intros a. unfold argsort_by.
  set (L := zip a (seq 0 (length a))).
  assert (isort_by (pair_leb tie) L ≡ₚ L) as Hp by apply isort_by_perm.
  split.
  - rewrite Hp. unfold L. rewrite snd_zip; [done|]. by rewrite length_seq.
  - intros i j ki kj x y Hij Hi Hj Hx Hy.
    apply list_lookup_fmap_Some_1 in Hi as ([x' ki'] & -> & Hi).
    apply list_lookup_fmap_Some_1 in Hj as ([y' kj'] & -> & Hj).
    simpl in *.
    assert (∀ v k, (v, k) ∈ L → a !! k = Some v) as HL.
    { intros v k (n & Hn)%list_elem_of_lookup_1.
      apply lookup_zip_Some in Hn as [Hv Hk].
      apply lookup_seq in Hk as [-> _]. done. }
    assert (a !! ki' = Some x') as Hx'.
    { apply HL. rewrite <- Hp. by eapply list_elem_of_lookup_2. }
    assert (a !! kj' = Some y') as Hy'.
    { apply HL. rewrite <- Hp. by eapply list_elem_of_lookup_2. }
    assert (x' = x) as -> by congruence. assert (y' = y) as -> by congruence.
    destruct (decide (i = j)) as [->|Hne].
    + assert (x = y) as -> by congruence. apply np_le_refl.
    + apply (pair_leb_np_le (x, ki') (y, kj')).
      eapply (StronglySorted_lookup (λ p q, pair_leb tie p q = true));
        [apply isort_by_sorted | | exact Hi | exact Hj].
      * apply pair_leb_total.
      * apply pair_leb_trans.
      * lia.
Qed.
End ArgsortBy.

Lemma argsort_stable_contract : argsort_contract argsort_stable.
Proof.
  apply argsort_by_contract.
  - intros i j. rewrite !Nat.leb_le. lia.
  - intros i j k. rewrite !Nat.leb_le. lia.
Qed.

Lemma argsort_ties_reversed_contract : argsort_contract argsort_ties_reversed.
Proof.
  apply argsort_by_contract.
  - intros i j. rewrite !Nat.leb_le. lia.
  - intros i j k. rewrite !Nat.leb_le. lia.
Qed.

(** ** [nearest_dist_to_each_type] *)

Lemma nearest_loop_lookup m pairs l :
  nearest_loop m pairs !! l =
    match m !! l with
    | Some d => Some d
    | None => (λ p, p.2.1) <$> list_find (λ p : npfloat * string, p.2 = l) pairs
    end.
Proof.
  revert m. induction pairs as [|[dist label] pairs IH]; intros m; simpl.
  - by destruct (m !! l).
  - rewrite IH. destruct (decide (label = l)) as [->|Hne].
    + destruct (m !! l) as [d|] eqn:E; [by rewrite E|].
      by rewrite lookup_insert_eq.
    + assert ((match m !! label with
               | Some _ => m
               | None => <[label:=dist]> m
               end) !! l = m !! l) as ->.
      { destruct (m !! label); [done|]. by rewrite lookup_insert_ne. }
      destruct (m !! l); [done|].
      destruct (list_find _ pairs) as [[n p]|]; done.
Qed.

Lemma nearest_dist_lookup distances labels l d :
  length distances = length labels →
  nearest_dist_to_each_type distances labels !! l = Some d ↔
  ∃ i, labels !! i = Some l ∧ distances !! i = Some d ∧
       ∀ j, j < i → labels !! j ≠ Some l.
Proof.
  intros Hlen. unfold nearest_dist_to_each_type.
  rewrite nearest_loop_lookup, lookup_empty. split.
  - intros ([i [d' l']] & Hfind & ->)%fmap_Some. simpl.
    apply list_find_Some in Hfind as (Hi & Hl & Hfirst). simpl in Hl. subst l'.
    apply lookup_zip_Some in Hi as [Hd Hl].
    exists i. split; [done|]. split; [done|].
    intros j Hj Hlj.
    assert (is_Some (distances !! j)) as [dj Hdj].
    { apply lookup_lt_is_Some. apply lookup_lt_Some in Hd. lia. }
    apply (Hfirst j (dj, l)); [by apply lookup_zip_Some | done | done].
  - intros (i & Hl & Hd & Hfirst). apply fmap_Some.
    exists (i, (d, l)). split; [|done].
    apply list_find_Some. split; [by apply lookup_zip_Some|]. split; [done|].
    intros j [dj lj] Hj Hlt. simpl. intros ->.
    apply lookup_zip_Some in Hj as [_ Hj]. by apply (Hfirst j).
Qed.

Lemma first_occurrence (labels : list string) l :
  l ∈ labels → ∃ i, labels !! i = Some l ∧ ∀ j, j < i → labels !! j ≠ Some l.
Proof.
  intros Hin. destruct (py_index_elem l labels Hin) as (i & _ & Hi & Hfirst). eauto.
Qed.

Lemma nearest_dist_is_Some distances labels l :
  length distances = length labels →
  is_Some (nearest_dist_to_each_type distances labels !! l) ↔ l ∈ labels.
Proof.
  intros Hlen. split.
  - intros [d Hd]. apply nearest_dist_lookup in Hd as (i & Hi & _); [|done].
    by eapply list_elem_of_lookup_2.
  - intros (i & Hi & Hfirst)%first_occurrence.
    assert (is_Some (distances !! i)) as [d Hd].
    { apply lookup_lt_is_Some. apply lookup_lt_Some in Hi. lia. }
    exists d. apply nearest_dist_lookup; eauto.
Qed.


(** ** The per-query step *)

Lemma StronglySorted_pairwise {A} (R : relation A) l :
  (∀ i j x y, i < j → l !! i = Some x → l !! j = Some y → R x y) →
  StronglySorted R l.
Proof.
  induction l as [|z l IH]; intros H; constructor.
  - apply IH. intros i j x y Hij Hi Hj. apply (H (S i) (S j)); [lia|done..].
  - apply Forall_forall. intros y (j & Hj)%list_elem_of_lookup_1.
    apply (H 0 (S j)); [lia|done..].
Qed.

Section Query.
Variable argsort : list npfloat → list nat.
Hypothesis argsort_ok : argsort_contract argsort.
Variables db_labels db_cell_ids : list string.

Lemma ranking_bound dists k : k ∈ argsort dists → k < length dists.
Proof. apply arrangement_bound, argsort_ok. Qed.

Lemma ranking_sorted dists sd :
  np_take dists (argsort dists) = Ok sd → StronglySorted np_le sd.
Proof.
  intros Hsd. destruct (np_take_inv _ _ _ Hsd) as [Hlen Hlk].
  apply StronglySorted_pairwise. intros i j x y Hij Hi Hj.
  assert (is_Some (argsort dists !! i)) as [ki Hki].
  { apply lookup_lt_is_Some. rewrite <- Hlen. by eapply lookup_lt_Some. }
  assert (is_Some (argsort dists !! j)) as [kj Hkj].
  { apply lookup_lt_is_Some. rewrite <- Hlen. by eapply lookup_lt_Some. }
  destruct (argsort_ok dists) as [_ Hs].
  apply (Hs i j ki kj); [lia|done..| |].
  - by rewrite <- (Hlk i ki).
  - by rewrite <- (Hlk j kj).
Qed.

Lemma query_statistics_Ok dists :
  length db_labels = length dists →
  length db_cell_ids = length dists →
  dists ≠ [] →
  ∃ sd sl sc cl nearest,
    np_take dists (argsort dists) = Ok sd ∧
    np_take db_labels (argsort dists) = Ok sl ∧
    np_take db_cell_ids (argsort dists) = Ok sc ∧
    classify (take 100 sl) = Ok cl ∧
    sl !! 0 = Some nearest ∧
    query_statistics argsort db_labels db_cell_ids dists =
      Ok {| sorted_distances_indices := argsort dists;
            sorted_distances := sd;
            sorted_labels := sl;
            sorted_cell_ids := sc;
            top_5_cells := take 5 sc;
            in_top_1 := bool_decide (nearest = brain ∨ nearest = cortex);
            in_top_5 := bool_decide (brain ∈ take 5 sl ∨ cortex ∈ take 5 sl);
            in_top_10 := bool_decide (brain ∈ take 10 sl ∨ cortex ∈ take 10 sl);
            in_top_100 := bool_decide (brain ∈ take 100 sl ∨ cortex ∈ take 100 sl);
            brain_cortex_count :=
              occurrences brain (take 100 sl) + occurrences cortex (take 100 sl);
            bm_osteocyte_count :=
              occurrences bone_marrow_cell (take 100 sl)
              + occurrences osteocyte (take 100 sl);
            min_distances := nearest_dist_to_each_type sd sl;
            top_5_types := take 5 sl;
            avg_top_5_distances := np_mean (take 5 sd);
            classified_label := cl |}.
Proof.
  intros Hl Hc Hne.
  destruct (np_take_Ok dists (argsort dists)) as [sd Hsd]; [apply ranking_bound|].
  destruct (np_take_Ok db_labels (argsort dists)) as [sl Hsl].
  { intros k Hk. rewrite Hl. by apply ranking_bound. }
  destruct (np_take_Ok db_cell_ids (argsort dists)) as [sc Hsc].
  { intros k Hk. rewrite Hc. by apply ranking_bound. }
  assert (sl ≠ []) as Hsl_ne.
  { intros ->. apply np_take_inv in Hsl as [Hlen _].
    destruct (argsort_ok dists) as [Hp _]. apply Permutation_length in Hp.
    rewrite length_seq in Hp. simpl in Hlen. destruct dists; [done|].
    simpl in Hp. lia. }
  destruct (classify_Ok (take 100 sl)) as [cl Hcl].
  { by destruct sl. }
  destruct sl as [|nearest sl'] eqn:Esl; [done|].
  exists sd, (nearest :: sl'), sc, cl, nearest. repeat (split; [done|]).
  unfold query_statistics. rewrite Hsd, Hsl, Hsc, !bind_Ok_l.
  cbn [lookup list_lookup]. rewrite bind_Ok_l. cbv zeta. by rewrite Hcl.
Qed.

Lemma ranking_aligned {A} (a : list A) dists r :
  length a = length dists →
  np_take a (argsort dists) = Ok r →
  length r = length dists ∧ r ≡ₚ a ∧
  ∀ j k, argsort dists !! j = Some k → r !! j = a !! k.
Proof.
  intros Hlen Hr. destruct (np_take_inv _ _ _ Hr) as [Hl Hlk].
  destruct (argsort_ok dists) as [Hp _].
  split; [|split; [|done]].
  - rewrite Hl, Hp. apply length_seq.
  - eapply np_take_arrangement; [|done]. by rewrite Hlen.
Qed.
End Query.

(** ** Neighbour ranking *)

Example ranking_of_empty_database :
  query_statistics argsort_stable [] [] [] = Raise IndexError.
Proof. reflexivity. Qed.

(** ** Nearest distance per label *)



Example nearest_dist_spec_scenario :
  (λ st, (sorted_labels st, sorted_distances st,
          min_distances st !! "A", min_distances st !! "B",
          classified_label st))
    <$> query_statistics argsort_stable ["A"; "A"; "B"]
          ["c1"; "c2"; "c3"] [Fin 1; Fin 2; Fin (1 # 2)]
  = Ok (["B"; "A"; "A"], [Fin (1 # 2); Fin 1; Fin 2],
        Some (Fin 1), Some (Fin (1 # 2)), "A").
Proof. reflexivity. Qed.

(** ** Databases smaller than the top-k windows *)

(** C4. Over a database of any size above zero, every per-query step
    succeeds; the top-5 label multiset, the top-5 cells and the mean top-5
    distance range over all neighbours when there are at most 5, the
    majority classification and the target-label counts when there are at
    most 100; and the whole loop over the query rows completes. *)
Theorem C4_small_database_uses_all_neighbours argsort db_labels db_cell_ids :
  argsort_contract argsort →
  length db_cell_ids = length db_labels →
  0 < length db_labels →
  (∀ dists, length dists = length db_labels →
     ∃ st,
       query_statistics argsort db_labels db_cell_ids dists = Ok st ∧
       sorted_labels st ≡ₚ db_labels ∧
       sorted_cell_ids st ≡ₚ db_cell_ids ∧
       sorted_distances st ≡ₚ dists ∧
       (length db_labels ≤ 5 →
          top_5_types st = sorted_labels st ∧
          top_5_cells st = sorted_cell_ids st ∧
          avg_top_5_distances st = np_mean (sorted_distances st)) ∧
       (length db_labels ≤ 100 →
          classify (sorted_labels st) = Ok (classified_label st) ∧
          brain_cortex_count st =
            occurrences brain (sorted_labels st)
            + occurrences cortex (sorted_labels st) ∧
          bm_osteocyte_count st =
            occurrences bone_marrow_cell (sorted_labels st)
            + occurrences osteocyte (sorted_labels st))) ∧
  (∀ queries acc,
     (∀ q, q ∈ queries → length (q_dists q) = length db_labels) →
     is_Ok (query_loop argsort db_labels db_cell_ids acc queries)).
Proof.
  intros Hok Hc Hpos.
  assert (∀ dists : list npfloat, length dists = length db_labels → dists ≠ []) as Hne.
  { intros [|] ?; [simpl in *; lia | done]. }
  split.
  - intros dists Hd.
    destruct (query_statistics_Ok argsort Hok db_labels db_cell_ids dists)
      as (sd & sl & sc & cl & nearest & Hsd & Hsl & Hsc & Hcl & _ & ->); [congruence..|by apply Hne|].
    eexists. split; [done|]. simpl.
    destruct (ranking_aligned argsort Hok dists dists sd eq_refl Hsd) as (L1 & P1 & _).
    destruct (ranking_aligned argsort Hok db_labels dists sl (eq_sym Hd) Hsl)
      as (L2 & P2 & _).
    destruct (ranking_aligned argsort Hok db_cell_ids dists sc) as (L3 & P3 & _);
      [congruence | done |].
    split; [done|]. split; [done|]. split; [done|]. split.
    + intros H5. rewrite !take_ge by lia. done.
    + intros H100. rewrite take_ge in Hcl |- * by lia. done.
  - intros queries. induction queries as [|q queries IH]; intros acc Hq.
    + by eexists.
    + simpl.
      destruct (query_statistics_Ok argsort Hok db_labels db_cell_ids (q_dists q))
        as (sd & sl & sc & cl & nearest & _ & _ & _ & _ & _ & ->).
      * symmetry. apply Hq. left.
      * rewrite Hc. symmetry. apply Hq. left.
      * apply Hne, Hq. left.
      * simpl. apply IH. intros q' Hq'. apply Hq. by right.
Qed.

Lemma C4_witness :
  (∀ dists, length dists = length ["A"; "A"; "B"] →
     ∃ st,
       query_statistics argsort_stable ["A"; "A"; "B"]
         ["c1"; "c2"; "c3"] dists = Ok st ∧
       sorted_labels st ≡ₚ ["A"; "A"; "B"] ∧
       sorted_cell_ids st ≡ₚ ["c1"; "c2"; "c3"] ∧
       sorted_distances st ≡ₚ dists ∧
       (length ["A"; "A"; "B"] ≤ 5 →
          top_5_types st = sorted_labels st ∧
          top_5_cells st = sorted_cell_ids st ∧
          avg_top_5_distances st = np_mean (sorted_distances st)) ∧
       (length ["A"; "A"; "B"] ≤ 100 →
          classify (sorted_labels st) = Ok (classified_label st) ∧
          brain_cortex_count st =
            occurrences brain (sorted_labels st)
            + occurrences cortex (sorted_labels st) ∧
          bm_osteocyte_count st =
            occurrences bone_marrow_cell (sorted_labels st)
            + occurrences osteocyte (sorted_labels st))) ∧
  (∀ queries acc,
     (∀ q, q ∈ queries → length (q_dists q) = length ["A"; "A"; "B"]) →
     is_Ok (query_loop argsort_stable ["A"; "A"; "B"]
              ["c1"; "c2"; "c3"] acc queries)).
Proof.
  apply (C4_small_database_uses_all_neighbours argsort_stable
           ["A"; "A"; "B"] ["c1"; "c2"; "c3"]).
  - apply argsort_stable_contract.
  - reflexivity.
  - simpl. lia.
Defined.

(** ** Substring test *)

Lemma prefix_spec s1 s2 : String.prefix s1 s2 = true ↔ ∃ post, s2 = s1 +:+ post.
Proof.
  revert s2. induction s1 as [|a s1 IH]; intros s2.
  - destruct s2; simpl; split; eauto.
  - destruct s2 as [|b s2]; simpl.
    + split; [done | intros [post H]; simpl in H; discriminate].
    + destruct (Ascii.ascii_dec a b) as [->|Hne].
      * rewrite IH. split; intros [post H]; exists post; simpl in *.
        -- by rewrite H.
        -- by injection H.
      * split; [done | intros [post H]; simpl in H; by injection H].
Qed.

Lemma str_contains_spec sub s : str_contains sub s = true ↔ substring_of sub s.
Proof.
  unfold substring_of. induction s as [|c s IH].
  - change (str_contains sub "") with (String.prefix sub "" || false).
    rewrite orb_false_r, prefix_spec. split.
    + intros [post H]. by exists "", post.
    + intros ([|? ?] & post & H); [by exists post | done].
  - change (str_contains sub (String c s))
      with (String.prefix sub (String c s) || str_contains sub s).
    rewrite orb_true_iff, prefix_spec, IH. split.
    + intros [[post H]|(pre & post & H)].
      * by exists "", post.
      * exists (String c pre), post. simpl. by rewrite H.
    + intros ([|c' pre] & post & H).
      * left. by exists post.
      * right. simpl in H. injection H as -> H. by exists pre, post.
Qed.

#[global] Instance substring_of_dec sub s : Decision (substring_of sub s).
Proof.
  destruct (str_contains sub s) eqn:E.
  - left. by apply str_contains_spec.
  - right. intros H%str_contains_spec. congruence.
Defined.

(** ** Coarse aggregation *)

Lemma coarse_split_acc items c d :
  coarse_split items c d =
    (c ++ (coarse_split items [] []).1, d ++ (coarse_split items [] []).2).
Proof.
  revert c d. induction items as [|[qt clfs] items IH]; intros c d; simpl.
  - by rewrite !app_nil_r.
  - destruct (str_contains "control" qt); [|destruct (str_contains "disease" qt)].
    + rewrite (IH (c ++ clfs)), (IH clfs). simpl. by rewrite app_assoc.
    + rewrite (IH c (d ++ clfs)), (IH [] clfs). simpl. by rewrite app_assoc.
    + apply IH.
Qed.

Lemma coarse_split_app items1 items2 :
  coarse_split (items1 ++ items2) [] [] =
    ((coarse_split items1 [] []).1 ++ (coarse_split items2 [] []).1,
     (coarse_split items1 [] []).2 ++ (coarse_split items2 [] []).2).
Proof.
  induction items1 as [|[qt clfs] items1 IH]; simpl.
  - by destruct (coarse_split items2 [] []).
  - destruct (str_contains "control" qt); [|destruct (str_contains "disease" qt)].
    + rewrite (coarse_split_acc (items1 ++ items2)), (coarse_split_acc items1), IH.
      simpl. by rewrite app_assoc.
    + rewrite (coarse_split_acc (items1 ++ items2)), (coarse_split_acc items1), IH.
      simpl. by rewrite app_assoc.
    + apply IH.
Qed.

(** C9 (as amended). The control list is the concatenation, in group order,
    of the classifications of every group whose name contains "control"; the
    disease list that of every group whose name contains "disease" and not
    "control"; groups whose name contains neither contribute to neither
    list.  The split is a total function: nothing is raised. *)
Theorem C9_coarse_lists_by_marker (classifications : list (string * list string)) :
  (coarse_split classifications [] []).1 =
    concat (snd <$> filter (λ it, substring_of "control" it.1) classifications) ∧
  (coarse_split classifications [] []).2 =
    concat (snd <$> filter (λ it, substring_of "disease" it.1 ∧
                                  ¬ substring_of "control" it.1) classifications).
Proof.
  induction classifications as [|[qt clfs] items [IH1 IH2]]; [done|].
  simpl. rewrite !filter_cons. simpl.
  destruct (str_contains "control" qt) eqn:Ec.
  - apply str_contains_spec in Ec.
    rewrite coarse_split_acc. simpl.
    rewrite decide_True by done. rewrite decide_False by tauto.
    simpl. by rewrite IH1, IH2.
  - assert (¬ substring_of "control" qt) as Hc.
    { intros H%str_contains_spec. congruence. }
    rewrite (decide_False (P := substring_of "control" qt)) by done.
    destruct (str_contains "disease" qt) eqn:Ed.
    + apply str_contains_spec in Ed.
      rewrite coarse_split_acc. simpl.
      rewrite decide_True by done. simpl. by rewrite IH1, IH2.
    + rewrite decide_False; [done|].
      intros [H%str_contains_spec _]. congruence.
Qed.

(** C9 (as stated) fails: a group whose name contains "disease" is not put
    on the disease list when the name also contains "control". *)
Lemma C9_disease_marker_not_sufficient :
  ¬ (∀ (classifications : list (string * list string)) query_type clfs c,
       (query_type, clfs) ∈ classifications →
       substring_of "disease" query_type →
       c ∈ clfs →
       c ∈ (coarse_split classifications [] []).2).
Proof.
  intros H.
  specialize (H [("control_vs_disease", ["A"])]
                "control_vs_disease" ["A"] "A").
  simpl in H. apply (elem_of_nil (A := string) "A"). apply H.
  - left.
  - by exists "control_vs_", "".
  - left.
Qed.

(** C10. A group whose name contains both "control" and "disease" is put on
    the control list, at its place in group order, and leaves the disease
    list as it is without the group; the two lists together never hold more
    entries than there are records. *)
Theorem C10_both_markers_control_only
    (pre post : list (string * list string)) query_type clfs :
  substring_of "control" query_type →
  substring_of "disease" query_type →
  (coarse_split (pre ++ (query_type, clfs) :: post) [] []).1 =
    (coarse_split pre [] []).1 ++ clfs ++ (coarse_split post [] []).1 ∧
  (coarse_split (pre ++ (query_type, clfs) :: post) [] []).2 =
    (coarse_split (pre ++ post) [] []).2 ∧
  length (coarse_split (pre ++ (query_type, clfs) :: post) [] []).1
  + length (coarse_split (pre ++ (query_type, clfs) :: post) [] []).2
  ≤ length (concat (pre ++ (query_type, clfs) :: post).*2).
Proof.
  intros Hc%str_contains_spec Hd.
  rewrite !coarse_split_app. simpl. rewrite Hc.
  rewrite (coarse_split_acc post clfs []). simpl.
  split; [done|]. split; [done|].
  assert (∀ items : list (string * list string),
            length (coarse_split items [] []).1 + length (coarse_split items [] []).2
            ≤ length (concat items.*2)) as Hcount.
  { induction items as [|[qt' clfs'] items IH]; [done|].
    change (concat ((qt', clfs') :: items).*2) with (clfs' ++ concat items.*2).
    rewrite length_app. set (n := length (concat items.*2)) in *. simpl.
    destruct (str_contains "control" qt'); [|destruct (str_contains "disease" qt')].
    - rewrite (coarse_split_acc items clfs' []). simpl. rewrite length_app. lia.
    - rewrite (coarse_split_acc items [] clfs'). simpl. rewrite length_app. lia.
    - lia. }
  pose proof (Hcount pre) as H1. pose proof (Hcount post) as H2.
  rewrite fmap_app, concat_app.
  change (concat ((query_type, clfs) :: post).*2) with (clfs ++ concat post.*2).
  rewrite !length_app. lia.
Qed.

Lemma C10_witness :
  (coarse_split ([("control_3m", ["A"])] ++
                 ("control_vs_disease", ["B"; "C"]) :: [("disease_3m", ["D"])])
     [] []).1 =
    (coarse_split [("control_3m", ["A"])] [] []).1 ++ ["B"; "C"] ++
    (coarse_split [("disease_3m", ["D"])] [] []).1 ∧
  (coarse_split ([("control_3m", ["A"])] ++
                 ("control_vs_disease", ["B"; "C"]) :: [("disease_3m", ["D"])])
     [] []).2 =
    (coarse_split ([("control_3m", ["A"])] ++ [("disease_3m", ["D"])]) [] []).2 ∧
  length (coarse_split ([("control_3m", ["A"])] ++
                 ("control_vs_disease", ["B"; "C"]) :: [("disease_3m", ["D"])])
     [] []).1
  + length (coarse_split ([("control_3m", ["A"])] ++
                 ("control_vs_disease", ["B"; "C"]) :: [("disease_3m", ["D"])])
     [] []).2
  ≤ length (concat ([("control_3m", ["A"])] ++
                 ("control_vs_disease", ["B"; "C"]) :: [("disease_3m", ["D"])]).*2).
Proof.
  apply (C10_both_markers_control_only [("control_3m", ["A"])]
           [("disease_3m", ["D"])] "control_vs_disease"
           ["B"; "C"]).
  - by exists "", "_vs_disease".
  - by exists "control_vs_", "".
Defined.

Example coarse_split_both_markers :
  coarse_split [("control_3m", ["A"]); ("control_vs_disease", ["B"; "C"]);
                ("disease_3m", ["D"]); ("other", ["E"])] [] []
  = (["A"; "B"; "C"], ["D"]).
Proof. reflexivity. Qed.

(** ** Enrichment selection *)

Lemma enriched_loop_spec count_list (d : gmap string (list string)) threshold keep hits :
  (∀ item, item ∈ count_list → threshold < item.1.2 →
     5 ≤ length (default [] (d !! item.1.1))) →
  enriched_loop count_list d threshold keep hits =
    Ok (keep ++ ((λ it, it.1.1) <$> filter (λ it, threshold < it.1.2) count_list),
        hits ++ ((λ it : string * nat * nat,
                    (it.1.1, take 5 (default [] (d !! it.1.1))))
                   <$> filter (λ it, threshold < it.1.2) count_list)).
Proof.
  revert keep hits. induction count_list as [|item rest IH]; intros keep hits Hd.
  - simpl. by rewrite !app_nil_r.
  - simpl. rewrite filter_cons.
    destruct (decide (threshold < item.1.2)) as [Hgt|Hle].
    + apply Nat.ltb_lt in Hgt as Hb. rewrite Hb.
      assert (5 ≤ length (default [] (d !! item.1.1))) as H5 by (apply Hd; [left|done]).
      apply Nat.ltb_ge in H5 as ->.
      rewrite IH by (intros it Hit; apply Hd; by right).
      simpl. by rewrite <- !app_assoc.
    + apply Nat.ltb_nlt in Hle as ->.
      apply IH. intros it Hit. apply Hd. by right.
Qed.

(** C5. When the dictionary lists at least five cells for every query it
    has to report, the selector returns the identifiers of exactly the
    queries whose count-A is strictly above the threshold, in their order,
    and writes for each its identifier with the first five cells listed
    under it. *)
Theorem C5_enrichment_selects_above_threshold
    (count_list : list (string * nat * nat))
    (top_5_nearest_cells_d : gmap string (list string)) (threshold : nat) :
  (∀ item, item ∈ count_list → threshold < item.1.2 →
     5 ≤ length (default [] (top_5_nearest_cells_d !! item.1.1))) →
  ∃ keep hits,
    enriched_brain_cortex_plot_and_data count_list top_5_nearest_cells_d threshold
      = Ok (keep, hits) ∧
    keep = (λ it, it.1.1) <$> filter (λ it, threshold < it.1.2) count_list ∧
    hits = (λ it : string * nat * nat,
              (it.1.1, take 5 (default [] (top_5_nearest_cells_d !! it.1.1))))
             <$> filter (λ it, threshold < it.1.2) count_list ∧
    (∀ id, id ∈ keep ↔ ∃ a b, (id, a, b) ∈ count_list ∧ threshold < a) ∧
    (∀ id a b, (id, a, b) ∈ count_list → a = threshold →
       (id, a, b) ∉ filter (λ it, threshold < it.1.2) count_list) ∧
    Forall (λ h, length h.2 = 5) hits.
Proof.
  intros Hd. eexists _, _. split; [|split; [done|split; [done|]]].
  { unfold enriched_brain_cortex_plot_and_data. by rewrite enriched_loop_spec. }
  split; [|split].
  - intros id. rewrite list_elem_of_fmap. split.
    + intros ([[id' a] b] & -> & [Ha Hin]%list_elem_of_filter). by exists a, b.
    + intros (a & b & Hin & Ha). exists (id, a, b). split; [done|].
      by apply list_elem_of_filter.
  - intros id a b Hin -> [Ha _]%list_elem_of_filter. simpl in Ha. lia.
  - apply Forall_fmap, Forall_forall.
    intros it [Ha Hin]%list_elem_of_filter. simpl.
    rewrite length_take. specialize (Hd it Hin Ha). lia.
Qed.

Lemma C5_witness :
  ∃ keep hits,
    enriched_brain_cortex_plot_and_data
      [("s1", 80, 0); ("s2", 65, 0); ("s3", 71, 3)]
      (<["s1" := ["a"; "b"; "c"; "d"; "e"]]> (<["s3" := ["f"; "g"; "h"; "i"; "j"]]> ∅))
      70
      = Ok (keep, hits) ∧
    keep = (λ it, it.1.1) <$> filter (λ it, 70 < it.1.2)
             [("s1", 80, 0); ("s2", 65, 0); ("s3", 71, 3)] ∧
    hits = (λ it : string * nat * nat,
              (it.1.1, take 5 (default []
                 ((<["s1" := ["a"; "b"; "c"; "d"; "e"]]>
                    (<["s3" := ["f"; "g"; "h"; "i"; "j"]]> ∅)
                    : gmap string (list string)) !! it.1.1))))
             <$> filter (λ it, 70 < it.1.2)
                   [("s1", 80, 0); ("s2", 65, 0); ("s3", 71, 3)] ∧
    (∀ id, id ∈ keep ↔
       ∃ a b, (id, a, b) ∈ [("s1", 80, 0); ("s2", 65, 0); ("s3", 71, 3)] ∧ 70 < a) ∧
    (∀ id a b, (id, a, b) ∈ [("s1", 80, 0); ("s2", 65, 0); ("s3", 71, 3)] → a = 70 →
       (id, a, b) ∉ filter (λ it, 70 < it.1.2)
                      [("s1", 80, 0); ("s2", 65, 0); ("s3", 71, 3)]) ∧
    Forall (λ h, length h.2 = 5) hits.
Proof.
  apply (C5_enrichment_selects_above_threshold
           [("s1", 80, 0); ("s2", 65, 0); ("s3", 71, 3)]
           (<["s1" := ["a"; "b"; "c"; "d"; "e"]]> (<["s3" := ["f"; "g"; "h"; "i"; "j"]]> ∅))
           70).
  intros item Hin Hgt.
  repeat (apply elem_of_cons in Hin as [->|Hin]; [simpl in Hgt; try lia; vm_compute; lia|]).
  by apply elem_of_nil in Hin.
Defined.

Example enrichment_spec_scenario :
  enriched_brain_cortex_plot_and_data
    [("s1", 80, 0); ("s2", 65, 0); ("s3", 71, 3)]
    (<["s1" := ["a"; "b"; "c"; "d"; "e"]]> (<["s3" := ["f"; "g"; "h"; "i"; "j"]]> ∅))
    70
  = Ok (["s1"; "s3"],
        [("s1", ["a"; "b"; "c"; "d"; "e"]); ("s3", ["f"; "g"; "h"; "i"; "j"])]).
Proof. reflexivity. Qed.

Example enrichment_at_threshold_not_selected :
  enriched_brain_cortex_plot_and_data [("s1", 70, 0)] ∅ 70 = Ok ([], []).
Proof. reflexivity. Qed.

Example enrichment_fewer_than_five_cells :
  enriched_brain_cortex_plot_and_data [("s1", 3, 0)] (<["s1" := ["a"; "b"; "c"]]> ∅) 2
  = Raise IndexError.
Proof. reflexivity. Qed.

(** ** The selector as [main] calls it *)

Lemma filter_fmap {A B} (f : A → B) (P : B → Prop) `{!∀ x, Decision (P x)}
    (l : list A) :
  filter P (f <$> l) = f <$> filter (λ x, P (f x)) l.
Proof.
  induction l as [|x l IH]; [done|].
  rewrite fmap_cons, !filter_cons. destruct (decide (P (f x))); by rewrite IH.
Qed.

Lemma query_statistics_inv argsort db_labels db_cell_ids dists st :
  query_statistics argsort db_labels db_cell_ids dists = Ok st →
  ∃ sl sc,
    np_take db_labels (argsort dists) = Ok sl ∧
    np_take db_cell_ids (argsort dists) = Ok sc ∧
    sorted_labels st = sl ∧ sorted_cell_ids st = sc ∧
    top_5_cells st = take 5 sc ∧
    brain_cortex_count st =
      occurrences brain (take 100 sl) + occurrences cortex (take 100 sl).
Proof.
  unfold query_statistics.
  intros (sd & Hsd & (sl & Hsl & (sc & Hsc & (nearest & Hn
            & (cl & Hcl & [= <-])%bind_Ok)%bind_Ok)%bind_Ok)%bind_Ok)%bind_Ok.
  by exists sl, sc.
Qed.

Lemma enriched_query_has_five_cells argsort db_labels db_cell_ids dists st :
  query_statistics argsort db_labels db_cell_ids dists = Ok st →
  70 < brain_cortex_count st →
  length (top_5_cells st) = 5.
Proof.
  intros (sl & sc & Hsl & Hsc & _ & _ & -> & Hcount)%query_statistics_inv Hgt.
  apply np_take_inv in Hsl as [Hlsl _]. apply np_take_inv in Hsc as [Hlsc _].
  assert (brain ≠ cortex) as Hne by done.
  pose proof (occurrences_disjoint brain cortex (take 100 sl) Hne) as Hle.
  rewrite length_take in Hle |- *. lia.
Qed.

Lemma record_fold_counts (l : list (query_row * query_stats)) acc :
  brain_cortex_counts (foldl (λ a qs, record_query qs.1 qs.2 a) acc l) =
    brain_cortex_counts acc ++
      ((λ qs, (q_id qs.1, brain_cortex_count qs.2, bm_osteocyte_count qs.2)) <$> l).
Proof.
  revert acc. induction l as [|[q st] l IH]; intros acc; simpl.
  - by rewrite app_nil_r.
  - rewrite IH. simpl. by rewrite <- app_assoc.
Qed.

Lemma record_fold_cells_other (l : list (query_row * query_stats)) acc id :
  id ∉ (λ qs, q_id qs.1) <$> l →
  top_5_nearest_cells (foldl (λ a qs, record_query qs.1 qs.2 a) acc l) !! id =
    top_5_nearest_cells acc !! id.
Proof.
  revert acc. induction l as [|[q st] l IH]; intros acc Hid; [done|].
  simpl in *. apply not_elem_of_cons in Hid as [Hne Hid].
  rewrite IH by done. simpl. by rewrite lookup_insert_ne.
Qed.

Lemma record_fold_cells (l : list (query_row * query_stats)) acc q st :
  NoDup ((λ qs, q_id qs.1) <$> l) →
  (q, st) ∈ l →
  top_5_nearest_cells (foldl (λ a qs, record_query qs.1 qs.2 a) acc l) !! q_id q =
    Some (top_5_cells st).
Proof.
  revert acc. induction l as [|[q' st'] l IH]; intros acc Hnd Hin.
  - by apply elem_of_nil in Hin.
  - simpl in *. apply NoDup_cons in Hnd as [Hq' Hnd].
    apply elem_of_cons in Hin as [[= -> ->]|Hin]; [|by apply IH].
    rewrite record_fold_cells_other by done. simpl. by rewrite lookup_insert_eq.
Qed.

Lemma query_loop_fold argsort db_labels db_cell_ids queries acc :
  argsort_contract argsort →
  length db_cell_ids = length db_labels →
  0 < length db_labels →
  (∀ q, q ∈ queries → length (q_dists q) = length db_labels) →
  ∃ stats,
    Forall2 (λ q st, query_statistics argsort db_labels db_cell_ids (q_dists q) = Ok st)
      queries stats ∧
    query_loop argsort db_labels db_cell_ids acc queries =
      Ok (foldl (λ a qs, record_query qs.1 qs.2 a) acc (zip queries stats)).
Proof.
  intros Hok Hc Hpos. revert acc.
  induction queries as [|q queries IH]; intros acc Hq.
  - exists []. split; [constructor | done].
  - destruct (query_statistics_Ok argsort Hok db_labels db_cell_ids (q_dists q))
      as (sd & sl & sc & cl & nearest & _ & _ & _ & _ & _ & Hst).
    + symmetry. apply Hq. left.
    + rewrite Hc. symmetry. apply Hq. left.
    + assert (length (q_dists q) = length db_labels) as Hlen by (apply Hq; left).
      destruct (q_dists q); [simpl in Hlen; lia | done].
    + match type of Hst with _ = Ok ?s => set (st := s) in * end.
      destruct (IH (record_query q st acc)) as (stats & Hall & Hloop).
      { intros q' Hq'. apply Hq. by right. }
      exists (st :: stats). split; [by constructor|].
      simpl. rewrite Hst. simpl. by rewrite Hloop.
Qed.

Lemma zip_stats_elem argsort db_labels db_cell_ids queries stats q st :
  Forall2 (λ q st, query_statistics argsort db_labels db_cell_ids (q_dists q) = Ok st)
    queries stats →
  (q, st) ∈ zip queries stats →
  q ∈ queries ∧ query_statistics argsort db_labels db_cell_ids (q_dists q) = Ok st.
Proof.
  intros Hall (i & Hi)%list_elem_of_lookup_1.
  apply lookup_zip_Some in Hi as [Hqi Hsi]. split.
  - by eapply list_elem_of_lookup_2.
  - by apply (Forall2_lookup_lr _ _ _ i q st Hall).
Qed.

Lemma zip_stats_ids argsort db_labels db_cell_ids queries stats :
  Forall2 (λ q st, query_statistics argsort db_labels db_cell_ids (q_dists q) = Ok st)
    queries stats →
  (λ qs : query_row * query_stats, q_id qs.1) <$> zip queries stats = q_id <$> queries.
Proof.
  intros Hall.
  replace ((λ qs : query_row * query_stats, q_id qs.1) <$> zip queries stats)
    with (q_id <$> (zip queries stats).*1) by (by rewrite <- list_fmap_compose).
  rewrite fst_zip; [done|]. by rewrite (Forall2_length _ _ _ Hall).
Qed.

Lemma main_cells_stored argsort db_labels db_cell_ids queries stats q st :
  Forall2 (λ q st, query_statistics argsort db_labels db_cell_ids (q_dists q) = Ok st)
    queries stats →
  NoDup (q_id <$> queries) →
  (q, st) ∈ zip queries stats →
  top_5_nearest_cells
    (foldl (λ a qs, record_query qs.1 qs.2 a) accum_init (zip queries stats)) !! q_id q
    = Some (take 5 (sorted_cell_ids st)) ∧
  (70 < brain_cortex_count st → length (take 5 (sorted_cell_ids st)) = 5).
Proof.
  intros Hall Hnd Hin.
  destruct (zip_stats_elem _ _ _ _ _ _ _ Hall Hin) as [_ Hst].
  assert (top_5_cells st = take 5 (sorted_cell_ids st)) as Htop.
  { apply query_statistics_inv in Hst as (sl & sc & _ & _ & _ & <- & -> & _). done. }
  split.
  - rewrite (record_fold_cells _ _ q st); [by rewrite Htop | | done].
    by rewrite (zip_stats_ids _ _ _ _ _ Hall).
  - intros Hgt. rewrite <- Htop. by eapply enriched_query_has_five_cells.
Qed.

(** X1. In [main] the selector always finds its five cells: a count above 70
    out of the top 100 means more than 70 database rows.  With distinct
    query identifiers the run of the loop and of the selector succeeds, the
    selected identifiers are those of the queries whose count is above 70,
    in query order, and the cells written under a selected query are its
    own five nearest. *)
Theorem enrichment_in_main argsort db_labels db_cell_ids queries :
  argsort_contract argsort →
  length db_cell_ids = length db_labels →
  0 < length db_labels →
  (∀ q, q ∈ queries → length (q_dists q) = length db_labels) →
  NoDup (q_id <$> queries) →
  ∃ acc stats,
    query_loop argsort db_labels db_cell_ids accum_init queries = Ok acc ∧
    Forall2 (λ q st, query_statistics argsort db_labels db_cell_ids (q_dists q) = Ok st)
      queries stats ∧
    enriched_brain_cortex_plot_and_data
      (brain_cortex_counts acc) (top_5_nearest_cells acc) 70 =
      Ok ((λ qs, q_id qs.1)
            <$> filter (λ qs, 70 < brain_cortex_count qs.2) (zip queries stats),
          (λ qs, (q_id qs.1, take 5 (sorted_cell_ids qs.2)))
            <$> filter (λ qs, 70 < brain_cortex_count qs.2) (zip queries stats)) ∧
    Forall (λ qs, length (take 5 (sorted_cell_ids qs.2)) = 5)
      (filter (λ qs, 70 < brain_cortex_count qs.2) (zip queries stats)).
Proof.
  intros Hok Hc Hpos Hq Hnd.
  destruct (query_loop_fold argsort db_labels db_cell_ids queries accum_init
              Hok Hc Hpos Hq) as (stats & Hall & Hloop).
  eexists _, stats. split; [exact Hloop|]. split; [done|].
  set (l := zip queries stats).
  set (d := top_5_nearest_cells (foldl (λ a qs, record_query qs.1 qs.2 a) accum_init l)).
  assert (∀ q st, (q, st) ∈ l → d !! q_id q = Some (take 5 (sorted_cell_ids st))) as Hd.
  { intros q st Hin. by apply (main_cells_stored _ _ _ _ _ q st Hall Hnd). }
  assert (∀ q st, (q, st) ∈ l → 70 < brain_cortex_count st →
            length (take 5 (sorted_cell_ids st)) = 5) as Hfive.
  { intros q st Hin. by apply (main_cells_stored _ _ _ _ _ q st Hall Hnd). }
  split.
  - unfold enriched_brain_cortex_plot_and_data.
    rewrite record_fold_counts. simpl. fold l. fold d.
    rewrite enriched_loop_spec.
    + simpl. rewrite filter_fmap, <- !list_fmap_compose. do 2 f_equal.
      apply Forall_fmap_ext_1, Forall_forall.
      intros [q st] [_ Hin]%list_elem_of_filter. simpl.
      rewrite (Hd q st Hin). simpl. by rewrite take_take, Nat.min_id.
    + intros item ([q st] & -> & Hin)%list_elem_of_fmap Hgt. simpl in *.
      rewrite (Hd q st Hin). simpl. by rewrite (Hfive q st Hin Hgt).
  - apply Forall_forall. intros [q st] [Hgt Hin]%list_elem_of_filter. simpl in *.
    by apply (Hfive q st).
Qed.

Lemma brain_queries_rows q :
  q ∈ brain_queries → length (q_dists q) = length brain_db_labels.
Proof.
  unfold brain_queries. intros Hq.
  repeat (apply elem_of_cons in Hq as [->|Hq]; [by vm_compute|]).
  by apply elem_of_nil in Hq.
Qed.

Lemma brain_queries_ids : NoDup (q_id <$> brain_queries).
Proof. apply (bool_decide_unpack _). by vm_compute. Qed.

Lemma enrichment_in_main_witness :
  ∃ acc stats,
    query_loop argsort_stable brain_db_labels brain_db_cell_ids accum_init
      brain_queries = Ok acc ∧
    Forall2 (λ q st, query_statistics argsort_stable brain_db_labels
                       brain_db_cell_ids (q_dists q) = Ok st)
      brain_queries stats ∧
    enriched_brain_cortex_plot_and_data
      (brain_cortex_counts acc) (top_5_nearest_cells acc) 70 =
      Ok ((λ qs, q_id qs.1)
            <$> filter (λ qs, 70 < brain_cortex_count qs.2) (zip brain_queries stats),
          (λ qs, (q_id qs.1, take 5 (sorted_cell_ids qs.2)))
            <$> filter (λ qs, 70 < brain_cortex_count qs.2) (zip brain_queries stats)) ∧
    Forall (λ qs, length (take 5 (sorted_cell_ids qs.2)) = 5)
      (filter (λ qs, 70 < brain_cortex_count qs.2) (zip brain_queries stats)) ∧
    (λ qs, (q_id qs.1, take 5 (sorted_cell_ids qs.2)))
      <$> filter (λ qs, 70 < brain_cortex_count qs.2) (zip brain_queries stats)
    = [("s1", ["cell0"; "cell1"; "cell2"; "cell3"; "cell4"])].
Proof.
  destruct (enrichment_in_main argsort_stable brain_db_labels brain_db_cell_ids
              brain_queries argsort_stable_contract)
    as (acc & stats & Hloop & Hall & Henr & Hfive).
  - by vm_compute.
  - vm_compute. lia.
  - apply brain_queries_rows.
  - apply brain_queries_ids.
  - exists acc, stats. do 4 (split; [done|]).
    assert ((λ a, enriched_brain_cortex_plot_and_data
                    (brain_cortex_counts a) (top_5_nearest_cells a) 70)
              <$> query_loop argsort_stable brain_db_labels brain_db_cell_ids
                    accum_init brain_queries
            = Ok (Ok (["s1"], [("s1", ["cell0"; "cell1"; "cell2"; "cell3"; "cell4"])])))
      as Hrun by (by vm_compute).
    rewrite Hloop in Hrun. injection Hrun as Hrun. rewrite Henr in Hrun.
    exact (f_equal (λ r : result (list string * list (string * list string)),
                      match r with Ok p => p.2 | Raise _ => [] end) Hrun).
Defined.

(** The run on the brain database: the first query has 71 brain rows among
    its 100 nearest and is selected with its five nearest cells, the second
    has 29 and is not. *)
Example enrichment_in_main_run :
  (λ acc, (brain_cortex_counts acc,
           enriched_brain_cortex_plot_and_data
             (brain_cortex_counts acc) (top_5_nearest_cells acc) 70))
    <$> query_loop argsort_stable brain_db_labels brain_db_cell_ids accum_init
          brain_queries
  = Ok ([("s1", 71, 29); ("s2", 29, 71)],
        Ok (["s1"], [("s1", ["cell0"; "cell1"; "cell2"; "cell3"; "cell4"])])).
Proof. by vm_compute. Qed.

Lemma three_queries_rows q :
  q ∈ three_queries → length (q_dists q) = length ["A"; "A"; "B"].
Proof.
  unfold three_queries. intros Hq.
  repeat (apply elem_of_cons in Hq as [->|Hq]; [done|]). by apply elem_of_nil in Hq.
Qed.

(** ** Indexing, once more *)

Lemma np_take_fmap {A B} (f : A → B) (a : list A) idx r :
  np_take a idx = Ok r → np_take (f <$> a) idx = Ok (f <$> r).
Proof.
  unfold np_take. revert r. induction idx as [|k idx IH]; intros r; simpl.
  - by intros [= <-].
  - rewrite list_lookup_fmap. destruct (a !! k) as [x|]; simpl; [|done].
    destruct (mapM_result _ idx) as [r'|]; simpl; [|done].
    intros [= <-]. by rewrite (IH r' eq_refl).
Qed.

Lemma np_take_filter_seq {A} (P : A → Prop) `{!∀ x, Decision (P x)}
    (Q : nat → Prop) `{!∀ i, Decision (Q i)} (pre a : list A) :
  (∀ i x, a !! i = Some x → Q (length pre + i) ↔ P x) →
  np_take (pre ++ a) (filter Q (seq (length pre) (length a))) = Ok (filter P a).
Proof.
  unfold np_take. revert pre. induction a as [|x a IH]; intros pre HQ; [done|].
  simpl. rewrite !filter_cons.
  specialize (IH (pre ++ [x])). rewrite length_app, <- app_assoc in IH. simpl in IH.
  rewrite Nat.add_1_r in IH.
  assert (mapM_result
            (λ i, match (pre ++ x :: a) !! i with
                  | Some x0 => Ok x0
                  | None => Raise IndexError
                  end) (filter Q (seq (S (length pre)) (length a)))
          = Ok (filter P a)) as Hrest.
  { apply IH. intros i y Hy. rewrite <- (HQ (S i) y Hy). by rewrite Nat.add_succ_r. }
  pose proof (HQ 0 x eq_refl) as Hhd. rewrite Nat.add_0_r in Hhd.
  destruct (decide (Q (length pre))) as [Hq|Hq].
  - rewrite decide_True by (by apply Hhd). simpl.
    rewrite list_lookup_middle by done. simpl. by rewrite Hrest.
  - rewrite decide_False by (by rewrite <- Hhd). done.
Qed.

(** ** [np.unique] and [np.union1d] *)

Lemma np_unique_NoDup l : NoDup (np_unique l).
Proof. unfold np_unique. apply groupby_sorted_inv, sorted_sorted. Qed.

Lemma np_unique_elem l x : x ∈ np_unique l ↔ x ∈ l.
Proof. unfold np_unique. rewrite groupby_keys_elem. by rewrite sorted_perm. Qed.

Lemma np_unique_counts_length l : length (np_unique_counts l) = length (np_unique l).
Proof. unfold np_unique_counts, np_unique. by rewrite !length_fmap. Qed.

(** ** Occurrence counts over a column set *)

Lemma sum_list_cons x l : sum_list (x :: l) = x + sum_list l.
Proof. done. Qed.

Lemma sum_indicator (m : list string) x :
  NoDup m → x ∈ m →
  sum_list ((λ l, if decide (x = l) then 1 else 0) <$> m) = 1.
Proof.
  induction 1 as [|y m Hy Hnd IH]; [by intros ?%elem_of_nil|].
  intros Hin. rewrite fmap_cons, sum_list_cons.
  destruct (decide (x = y)) as [->|Hne].
  - assert (sum_list ((λ l, if decide (y = l) then 1 else 0) <$> m) = 0) as ->; [|done].
    clear IH Hin Hnd. induction m as [|z m IH]; [done|].
    rewrite fmap_cons, sum_list_cons.
    apply not_elem_of_cons in Hy as [Hyz Hy]. rewrite decide_False by done.
    by rewrite IH.
  - apply elem_of_cons in Hin as [->|Hin]; [done|]. by rewrite IH.
Qed.

Lemma label_counts_sum (m clfs : list string) :
  NoDup m → (∀ x, x ∈ clfs → x ∈ m) →
  sum_list (label_counts m clfs) = length clfs.
Proof.
  intros Hnd. unfold label_counts. induction clfs as [|x clfs IH]; intros Hin.
  - clear. induction m as [|l m IHm]; [done|].
    rewrite fmap_cons, sum_list_cons. by rewrite IHm.
  - cbn [length]. rewrite <- IH by (intros y Hy; apply Hin; by right).
    assert (sum_list ((λ l, if decide (x = l) then 1 else 0) <$> m) = 1) as H1.
    { apply sum_indicator; [done|]. apply Hin. left. }
    transitivity (sum_list ((λ l, if decide (x = l) then 1 else 0) <$> m)
                  + sum_list ((λ label, occurrences label clfs) <$> m)); [|lia].
    clear. induction m as [|l m IHm]; [done|].
    rewrite !fmap_cons, !sum_list_cons, occurrences_cons.
    destruct (decide (x = l)); lia.
Qed.

Lemma label_counts_length m clfs : length (label_counts m clfs) = length m.
Proof. apply length_fmap. Qed.

(** ** Sums of fractions *)

Lemma np_sum_cons x l : np_sum (x :: l) = np_add x (np_sum l).
Proof. done. Qed.

Lemma np_sum_fracs (counts : list nat) (n : nat) :
  0 < n →
  ∃ q, np_sum ((λ c, np_frac c n) <$> counts) = Fin q ∧
       q == (Z.of_nat (sum_list counts) # Pos.of_nat n).
Proof.
  intros Hn. induction counts as [|c counts (q & Hq & Heq)].
  - exists 0%Q. split; [done|]. reflexivity.
  - rewrite fmap_cons, np_sum_cons, Hq, sum_list_cons.
    destruct n as [|n']; [lia|]. cbn [np_frac np_add].
    eexists. split; [done|]. rewrite Heq.
    unfold Qeq, Qplus. cbn [Qnum Qden]. rewrite Nat2Z.inj_add, Pos2Z.inj_mul. ring.
Qed.

Lemma np_sum_fracs_one (counts : list nat) (n : nat) :
  0 < n → sum_list counts = n →
  np_eq (np_sum ((λ c, np_frac c n) <$> counts)) (Fin 1).
Proof.
  intros Hpos Hsum. destruct (np_sum_fracs counts n Hpos) as (q & -> & Hq).
  simpl. rewrite Hq, Hsum. unfold Qeq. simpl.
  rewrite Z.mul_1_r, Z.mul_1_l. rewrite <- positive_nat_Z. f_equal.
  rewrite Nat2Pos.id; lia.
Qed.

(** ** The significance-test inputs *)

Lemma column_tests_cons h1 h2 f1 f2 :
  column_tests (h1 :: f1) (h2 :: f2) =
    t ← column_test h1 h2; ts ← column_tests f1 f2; Ok (t :: ts).
Proof. done. Qed.

Lemma column_tests_inv f1 f2 ts :
  length f1 = length f2 →
  column_tests f1 f2 = Ok ts →
  length ts = length f1 ∧
  ∀ j h1 h2, f1 !! j = Some h1 → f2 !! j = Some h2 →
    ∃ c1 c2, floor_1000 h1 = Ok c1 ∧ floor_1000 h2 = Ok c2 ∧
             ts !! j = Some (c1, (c1 + c2)%Z).
Proof.
  revert f2 ts. induction f1 as [|h1 f1 IH]; intros [|h2 f2] ts Hlen; try done.
  - intros [= <-]. split; [done|]. intros j ??. by rewrite lookup_nil.
  - rewrite column_tests_cons.
    intros ([c1 n] & Ht & (ts' & Hts & [= <-])%bind_Ok)%bind_Ok.
    unfold column_test in Ht.
    apply bind_Ok in Ht as (c1' & Hc1 & (c2 & Hc2 & [= <- <-])%bind_Ok).
    destruct (IH f2 ts') as [Hl Hlk]; [by injection Hlen | done |].
    split; [simpl; by rewrite Hl|].
    intros [|j] h1' h2'; simpl.
    + intros [= <-] [= <-]. by exists c1', c2.
    + apply Hlk.
Qed.

Lemma column_tests_Ok f1 f2 :
  Forall (λ h, ∃ q, h = Fin q) f1 → Forall (λ h, ∃ q, h = Fin q) f2 →
  is_Ok (column_tests f1 f2).
Proof.
  intros H1. revert f2. induction H1 as [|h1 f1 [q1 ->] _ IH]; intros f2 H2.
  - by eexists.
  - destruct H2 as [|h2 f2 [q2 ->] H2]; [by eexists|].
    rewrite column_tests_cons. destruct (IH f2 H2) as [ts ->]. by eexists.
Qed.

(** ** The contingency comparison in normal form *)

Section HistogramFacts.
Variable argsort : list npfloat → list nat.
Hypothesis argsort_ok : argsort_contract argsort.
Context {pvalue : Type}.
Variable binom_test : Z → Z → Q → pvalue.

Lemma reverse_argsort_arrangement (a : list npfloat) n :
  length a = n → reverse (argsort a) ≡ₚ seq 0 n.
Proof. intros <-. rewrite reverse_Permutation. apply argsort_ok. Qed.

Lemma types_by_count_Ok clfs :
  ∃ r, types_by_count argsort clfs = Ok r ∧ r ≡ₚ np_unique clfs.
Proof.
  unfold types_by_count.
  set (idx := reverse (argsort _)).
  assert (idx ≡ₚ seq 0 (length (np_unique clfs))) as Hidx.
  { apply reverse_argsort_arrangement.
    by rewrite length_fmap, np_unique_counts_length. }
  destruct (np_take_Ok (np_unique clfs) idx) as [r Hr].
  { intros k Hk. by eapply arrangement_bound. }
  exists r. split; [done|]. by eapply np_take_arrangement.
Qed.

Lemma histograms_ordered_form overall classifications :
  ∃ m0 m,
    np_take m0
      (reverse (argsort ((λ c, np_frac c (length (coarse_split classifications [] []).1))
                           <$> label_counts m0 (coarse_split classifications [] []).1)))
      = Ok m ∧
    NoDup m0 ∧
    (∀ l, l ∈ m0 ↔ l ∈ (coarse_split classifications [] []).1 ∨
                   l ∈ (coarse_split classifications [] []).2) ∧
    make_classification_histograms argsort binom_test overall classifications =
      let C := (coarse_split classifications [] []).1 in
      let D := (coarse_split classifications [] []).2 in
      let m2 := filter (λ l, occurrences l C ≠ 0 ∧ occurrences l D ≠ 0) m in
      ts ← column_tests ((λ c, np_frac c (length C)) <$> label_counts m C)
                        ((λ c, np_frac c (length D)) <$> label_counts m D);
      ts2 ← column_tests
              ((λ c, np_frac c (sum_list (label_counts m2 C))) <$> label_counts m2 C)
              ((λ c, np_frac c (sum_list (label_counts m2 D))) <$> label_counts m2 D);
      Ok {| control_clfs := C; disease_clfs := D;
            merged_db_types := m; tick_labels := tick_label <$> m;
            control_counts := label_counts m C;
            disease_counts := label_counts m D;
            control_fracs := (λ c, np_frac c (length C)) <$> label_counts m C;
            disease_fracs := (λ c, np_frac c (length D)) <$> label_counts m D;
            tests := ts;
            pvals := (λ t : Z * Z, binom_test t.1 t.2 (1 # 2)) <$> ts;
            merged_db_types_nz := m2; tick_labels_nz := tick_label <$> m2;
            control_counts_nz := label_counts m2 C;
            disease_counts_nz := label_counts m2 D;
            control_fracs_nz :=
              (λ c, np_frac c (sum_list (label_counts m2 C))) <$> label_counts m2 C;
            disease_fracs_nz :=
              (λ c, np_frac c (sum_list (label_counts m2 D))) <$> label_counts m2 D;
            tests_nz := ts2;
            pvals_nz := (λ t : Z * Z, binom_test t.1 t.2 (1 # 2)) <$> ts2 |}.
Proof.
  unfold make_classification_histograms.
  set (C := (coarse_split classifications [] []).1).
  set (D := (coarse_split classifications [] []).2).
  destruct (types_by_count_Ok C) as (rc & -> & Hrc).
  destruct (types_by_count_Ok D) as (rd & -> & Hrd).
  rewrite !bind_Ok_l. cbv zeta.
  set (m0 := np_union1d rc rd).
  set (idx := reverse (argsort _)).
  assert (idx ≡ₚ seq 0 (length m0)) as Hidx.
  { apply reverse_argsort_arrangement.
    by rewrite length_fmap, label_counts_length. }
  destruct (np_take_Ok m0 idx) as [m Hm].
  { intros k Hk. by eapply arrangement_bound. }
  exists m0, m. split; [done|]. split; [apply np_unique_NoDup|]. split.
  - intros l. unfold m0, np_union1d.
    rewrite np_unique_elem, elem_of_app, Hrc, Hrd, !np_unique_elem. done.
  - rewrite Hm, bind_Ok_l.
    unfold label_counts at 1 2 3 4.
    rewrite (np_take_fmap _ _ _ _ (np_take_fmap (λ label, occurrences label D) _ _ _ Hm)),
      bind_Ok_l.
    rewrite (np_take_fmap (λ label, occurrences label D) _ _ _ Hm), bind_Ok_l.
    rewrite (np_take_fmap _ _ _ _ (np_take_fmap (λ label, occurrences label C) _ _ _ Hm)),
      bind_Ok_l.
    rewrite (np_take_fmap (λ label, occurrences label C) _ _ _ Hm), bind_Ok_l.
    fold (label_counts m C). fold (label_counts m D).
    set (P := λ l, occurrences l C ≠ 0 ∧ occurrences l D ≠ 0).
    assert (np_take m (keep_columns (label_counts m C) (label_counts m D))
            = Ok (filter P m)) as Hkeep.
    { unfold keep_columns. rewrite label_counts_length.
      apply (np_take_filter_seq P _ [] m).
      intros i x Hi. simpl. unfold P, label_counts.
      rewrite (list_lookup_total_correct
                 ((λ label, occurrences label C) <$> m) i (occurrences x C)),
        (list_lookup_total_correct
           ((λ label, occurrences label D) <$> m) i (occurrences x D));
        [done|..]; by rewrite list_lookup_fmap, Hi. }
    destruct (column_tests _ _) as [ts|e]; [|done].
    pose proof (np_take_fmap (λ label, occurrences label C) _ _ _ Hkeep) as HkC.
    pose proof (np_take_fmap (λ label, occurrences label D) _ _ _ Hkeep) as HkD.
    fold (label_counts m C) (label_counts (filter P m) C) in HkC.
    fold (label_counts m D) (label_counts (filter P m) D) in HkD.
    pose proof (np_take_fmap tick_label _ _ _ Hkeep) as HkT.
    rewrite !bind_Ok_l, Hkeep, bind_Ok_l, HkT, bind_Ok_l, HkC, bind_Ok_l, HkD, bind_Ok_l.
    done.
Qed.

Lemma histograms_normal_form overall classifications :
  ∃ m,
    NoDup m ∧
    (∀ l, l ∈ m ↔ l ∈ (coarse_split classifications [] []).1 ∨
                  l ∈ (coarse_split classifications [] []).2) ∧
    make_classification_histograms argsort binom_test overall classifications =
      let C := (coarse_split classifications [] []).1 in
      let D := (coarse_split classifications [] []).2 in
      let m2 := filter (λ l, occurrences l C ≠ 0 ∧ occurrences l D ≠ 0) m in
      ts ← column_tests ((λ c, np_frac c (length C)) <$> label_counts m C)
                        ((λ c, np_frac c (length D)) <$> label_counts m D);
      ts2 ← column_tests
              ((λ c, np_frac c (sum_list (label_counts m2 C))) <$> label_counts m2 C)
              ((λ c, np_frac c (sum_list (label_counts m2 D))) <$> label_counts m2 D);
      Ok {| control_clfs := C; disease_clfs := D;
            merged_db_types := m; tick_labels := tick_label <$> m;
            control_counts := label_counts m C;
            disease_counts := label_counts m D;
            control_fracs := (λ c, np_frac c (length C)) <$> label_counts m C;
            disease_fracs := (λ c, np_frac c (length D)) <$> label_counts m D;
            tests := ts;
            pvals := (λ t : Z * Z, binom_test t.1 t.2 (1 # 2)) <$> ts;
            merged_db_types_nz := m2; tick_labels_nz := tick_label <$> m2;
            control_counts_nz := label_counts m2 C;
            disease_counts_nz := label_counts m2 D;
            control_fracs_nz :=
              (λ c, np_frac c (sum_list (label_counts m2 C))) <$> label_counts m2 C;
            disease_fracs_nz :=
              (λ c, np_frac c (sum_list (label_counts m2 D))) <$> label_counts m2 D;
            tests_nz := ts2;
            pvals_nz := (λ t : Z * Z, binom_test t.1 t.2 (1 # 2)) <$> ts2 |}.
Proof.
  destruct (histograms_ordered_form overall classifications)
    as (m0 & m & Hm & Hnd & Helem & Hrun).
  assert (m ≡ₚ m0) as Hperm.
  { eapply np_take_arrangement; [|exact Hm].
    apply reverse_argsort_arrangement. by rewrite length_fmap, label_counts_length. }
  exists m. split; [by rewrite Hperm|]. split; [|done].
  intros l. by rewrite Hperm.
Qed.
End HistogramFacts.

(** ** Fractions of the two groups *)

Lemma fracs_Fin (counts : list nat) n :
  0 < n → Forall (λ h, ∃ q, h = Fin q) ((λ c, np_frac c n) <$> counts).
Proof.
  intros Hn. apply Forall_fmap, Forall_forall. intros c _. simpl.
  destruct n; [lia|]. by eexists.
Qed.

Lemma shared_counts_sum_pos (m C D : list string) :
  filter (λ l, occurrences l C ≠ 0 ∧ occurrences l D ≠ 0) m ≠ [] →
  0 < sum_list
        (label_counts (filter (λ l, occurrences l C ≠ 0 ∧ occurrences l D ≠ 0) m) C) ∧
  0 < sum_list
        (label_counts (filter (λ l, occurrences l C ≠ 0 ∧ occurrences l D ≠ 0) m) D).
Proof.
  destruct (filter _ m) as [|l m2] eqn:E; [done|]. intros _.
  assert (l ∈ filter (λ l, occurrences l C ≠ 0 ∧ occurrences l D ≠ 0) m) as Hl.
  { rewrite E. left. }
  apply list_elem_of_filter in Hl as [[HC HD] _].
  unfold label_counts. rewrite !fmap_cons, !sum_list_cons. lia.
Qed.

Section HistogramClaims.
Variable argsort : list npfloat → list nat.
Hypothesis argsort_ok : argsort_contract argsort.
Context {pvalue : Type}.
Variable binom_test : Z → Z → Q → pvalue.
Variable overall : list string.
Variable classifications : list (string * list string).

Lemma histograms_Ok_inv h :
  make_classification_histograms argsort binom_test overall classifications = Ok h →
  ∃ m ts ts2,
    NoDup m ∧
    (∀ l, l ∈ m ↔ l ∈ control_clfs h ∨ l ∈ disease_clfs h) ∧
    control_clfs h = (coarse_split classifications [] []).1 ∧
    disease_clfs h = (coarse_split classifications [] []).2 ∧
    merged_db_types h = m ∧
    control_counts h = label_counts m (control_clfs h) ∧
    disease_counts h = label_counts m (disease_clfs h) ∧
    control_fracs h =
      (λ c, np_frac c (length (control_clfs h))) <$> control_counts h ∧
    disease_fracs h =
      (λ c, np_frac c (length (disease_clfs h))) <$> disease_counts h ∧
    column_tests (control_fracs h) (disease_fracs h) = Ok ts ∧
    tests h = ts ∧
    pvals h = (λ t : Z * Z, binom_test t.1 t.2 (1 # 2)) <$> ts ∧
    merged_db_types_nz h =
      filter (λ l, occurrences l (control_clfs h) ≠ 0 ∧
                   occurrences l (disease_clfs h) ≠ 0) m ∧
    control_counts_nz h = label_counts (merged_db_types_nz h) (control_clfs h) ∧
    disease_counts_nz h = label_counts (merged_db_types_nz h) (disease_clfs h) ∧
    control_fracs_nz h =
      (λ c, np_frac c (sum_list (control_counts_nz h))) <$> control_counts_nz h ∧
    disease_fracs_nz h =
      (λ c, np_frac c (sum_list (disease_counts_nz h))) <$> disease_counts_nz h ∧
    column_tests (control_fracs_nz h) (disease_fracs_nz h) = Ok ts2 ∧
    tests_nz h = ts2 ∧
    pvals_nz h = (λ t : Z * Z, binom_test t.1 t.2 (1 # 2)) <$> ts2.
Proof.
  destruct (histograms_normal_form argsort argsort_ok binom_test overall classifications)
    as (m & Hnd & Hm & ->).
  cbv zeta.
  intros (ts & Hts & (ts2 & Hts2 & [= <-])%bind_Ok)%bind_Ok.
  exists m, ts, ts2. simpl. repeat (split; [done|]). done.
Qed.
End HistogramClaims.

(** ** Fractions sum to one *)

(** C7 (as amended). For non-empty control and disease lists the run
    completes; the columns of the first table are the distinct labels of the
    two lists, the counts of each group add up to the size of its list and
    its fractions to 1.  The second table keeps the labels that occur in
    both lists; when there is such a label, the fractions of each group
    again add up to 1, and when there is none the fraction vectors are
    empty. *)
Theorem C7_fractions_sum_to_one argsort {pvalue} (binom_test : Z → Z → Q → pvalue)
    overall classifications :
  argsort_contract argsort →
  (coarse_split classifications [] []).1 ≠ [] →
  (coarse_split classifications [] []).2 ≠ [] →
  ∃ h,
    make_classification_histograms argsort binom_test overall classifications = Ok h ∧
    control_clfs h = (coarse_split classifications [] []).1 ∧
    disease_clfs h = (coarse_split classifications [] []).2 ∧
    NoDup (merged_db_types h) ∧
    (∀ l, l ∈ merged_db_types h ↔ l ∈ control_clfs h ∨ l ∈ disease_clfs h) ∧
    sum_list (control_counts h) = length (control_clfs h) ∧
    sum_list (disease_counts h) = length (disease_clfs h) ∧
    np_eq (np_sum (control_fracs h)) (Fin 1) ∧
    np_eq (np_sum (disease_fracs h)) (Fin 1) ∧
    (∀ l, l ∈ merged_db_types_nz h ↔ l ∈ control_clfs h ∧ l ∈ disease_clfs h) ∧
    (merged_db_types_nz h ≠ [] →
       np_eq (np_sum (control_fracs_nz h)) (Fin 1) ∧
       np_eq (np_sum (disease_fracs_nz h)) (Fin 1)) ∧
    (merged_db_types_nz h = [] →
       control_fracs_nz h = [] ∧ disease_fracs_nz h = []).
Proof.
  intros Hok HC HD.
  destruct (histograms_normal_form argsort Hok binom_test overall classifications)
    as (m & Hnd & Hm & Hrun).
  cbv zeta in Hrun.
  set (C := (coarse_split classifications [] []).1) in *.
  set (D := (coarse_split classifications [] []).2) in *.
  set (m2 := filter (λ l, occurrences l C ≠ 0 ∧ occurrences l D ≠ 0) m) in *.
  assert (0 < length C) as HlC by (destruct C; [done | simpl; lia]).
  assert (0 < length D) as HlD by (destruct D; [done | simpl; lia]).
  assert (m2 ≠ [] → 0 < sum_list (label_counts m2 C) ∧ 0 < sum_list (label_counts m2 D))
    as Hpos by apply shared_counts_sum_pos.
  destruct (column_tests_Ok
              ((λ c, np_frac c (length C)) <$> label_counts m C)
              ((λ c, np_frac c (length D)) <$> label_counts m D))
    as [ts Hts]; [by apply fracs_Fin..|].
  destruct (column_tests_Ok
              ((λ c, np_frac c (sum_list (label_counts m2 C))) <$> label_counts m2 C)
              ((λ c, np_frac c (sum_list (label_counts m2 D))) <$> label_counts m2 D))
    as [ts2 Hts2].
  { destruct (decide (m2 = [])) as [->|Hne]; [constructor|].
    apply fracs_Fin. by apply Hpos. }
  { destruct (decide (m2 = [])) as [->|Hne]; [constructor|].
    apply fracs_Fin. by apply Hpos. }
  rewrite Hts, Hts2 in Hrun. rewrite !bind_Ok_l in Hrun.
  eexists. split; [exact Hrun|]. simpl.
  split; [done|]. split; [done|]. split; [done|]. split; [done|].
  assert (sum_list (label_counts m C) = length C) as HsC.
  { apply label_counts_sum; [done|]. intros x Hx. apply Hm. by left. }
  assert (sum_list (label_counts m D) = length D) as HsD.
  { apply label_counts_sum; [done|]. intros x Hx. apply Hm. by right. }
  split; [done|]. split; [done|].
  split; [by apply np_sum_fracs_one|]. split; [by apply np_sum_fracs_one|].
  split; [|split].
  - intros l. unfold m2. rewrite list_elem_of_filter, Hm.
    rewrite <- !occurrences_pos. lia.
  - intros Hne. destruct (Hpos Hne).
    split; by apply np_sum_fracs_one.
  - by intros ->.
Qed.

Lemma C7_witness :
  ∃ h,
    make_classification_histograms argsort_stable binom_test_args []
      [("control_3m", ["X"; "X"; "Y"]); ("disease_3m", ["X"; "Y"; "Y"])] = Ok h ∧
    control_clfs h =
      (coarse_split
         [("control_3m", ["X"; "X"; "Y"]); ("disease_3m", ["X"; "Y"; "Y"])] [] []).1 ∧
    disease_clfs h =
      (coarse_split
         [("control_3m", ["X"; "X"; "Y"]); ("disease_3m", ["X"; "Y"; "Y"])] [] []).2 ∧
    NoDup (merged_db_types h) ∧
    (∀ l, l ∈ merged_db_types h ↔ l ∈ control_clfs h ∨ l ∈ disease_clfs h) ∧
    sum_list (control_counts h) = length (control_clfs h) ∧
    sum_list (disease_counts h) = length (disease_clfs h) ∧
    np_eq (np_sum (control_fracs h)) (Fin 1) ∧
    np_eq (np_sum (disease_fracs h)) (Fin 1) ∧
    (∀ l, l ∈ merged_db_types_nz h ↔ l ∈ control_clfs h ∧ l ∈ disease_clfs h) ∧
    (merged_db_types_nz h ≠ [] →
       np_eq (np_sum (control_fracs_nz h)) (Fin 1) ∧
       np_eq (np_sum (disease_fracs_nz h)) (Fin 1)) ∧
    (merged_db_types_nz h = [] →
       control_fracs_nz h = [] ∧ disease_fracs_nz h = []).
Proof.
  apply (C7_fractions_sum_to_one argsort_stable binom_test_args []
           [("control_3m", ["X"; "X"; "Y"]); ("disease_3m", ["X"; "Y"; "Y"])]).
  - apply argsort_stable_contract.
  - discriminate.
  - discriminate.
Defined.

(** C7 (as stated) fails after the zero columns are removed: with no label
    common to the two lists every column goes, and the fractions of a group,
    being none, add up to 0. *)
Lemma C7_no_shared_label_sums_to_zero :
  ¬ (∀ argsort (binom_test : Z → Z → Q → Z * Z * Q) overall classifications h,
       argsort_contract argsort →
       (coarse_split classifications [] []).1 ≠ [] →
       (coarse_split classifications [] []).2 ≠ [] →
       make_classification_histograms argsort binom_test overall classifications
         = Ok h →
       np_eq (np_sum (control_fracs h)) (Fin 1) ∧
       np_eq (np_sum (disease_fracs h)) (Fin 1) ∧
       np_eq (np_sum (control_fracs_nz h)) (Fin 1) ∧
       np_eq (np_sum (disease_fracs_nz h)) (Fin 1)).
Proof.
  intros H.
  destruct (make_classification_histograms argsort_stable binom_test_args []
              [("control_3m", ["X"]); ("disease_3m", ["Y"])]) as [h|e] eqn:E;
    [|by vm_compute in E].
  destruct (H argsort_stable binom_test_args []
              [("control_3m", ["X"]); ("disease_3m", ["Y"])] h
              argsort_stable_contract) as (_ & _ & Hnz & _);
    [discriminate | discriminate | exact E |].
  vm_compute in E. injection E as <-. vm_compute in Hnz. discriminate Hnz.
Qed.

Example no_shared_label_scenario :
  (λ h, (control_counts h, disease_counts h, control_fracs h, disease_fracs h,
         control_fracs_nz h, np_sum (control_fracs_nz h)))
    <$> make_classification_histograms argsort_stable binom_test_args []
          [("control_3m", ["X"]); ("disease_3m", ["Y"])]
  = Ok ([1; 0], [0; 1], [Fin 1; Fin 0], [Fin 0; Fin 1], [], Fin 0).
Proof. reflexivity. Qed.

(** ** Division by zero *)

Lemma floor_1000_Ok_inv h c : floor_1000 h = Ok c → ∃ q, h = Fin q.
Proof. destruct h; [done..|]. by eexists. Qed.

Lemma column_tests_Fin_inv f1 f2 ts :
  length f1 = length f2 →
  column_tests f1 f2 = Ok ts →
  Forall (λ x, ∃ q, x = Fin q) f1 ∧ Forall (λ x, ∃ q, x = Fin q) f2.
Proof.
  revert f2 ts. induction f1 as [|h1 f1 IH]; intros [|h2 f2] ts Hlen; try done.
  rewrite column_tests_cons.
  intros (t & Ht & (ts' & Hts & _)%bind_Ok)%bind_Ok.
  unfold column_test in Ht.
  apply bind_Ok in Ht as (c1 & Hc1 & (c2 & Hc2 & _)%bind_Ok).
  destruct (IH f2 ts') as [H1 H2]; [by injection Hlen | done |].
  split; constructor; try done; by eapply floor_1000_Ok_inv.
Qed.

Lemma histograms_run_completes argsort {pvalue} (binom_test : Z → Z → Q → pvalue)
    overall classifications :
  argsort_contract argsort →
  ((coarse_split classifications [] []).1 ≠ [] ∧
   (coarse_split classifications [] []).2 ≠ []) ∨
  ((coarse_split classifications [] []).1 = [] ∧
   (coarse_split classifications [] []).2 = []) →
  is_Ok (make_classification_histograms argsort binom_test overall classifications).
Proof.
  intros Hok Hcase.
  destruct (histograms_normal_form argsort Hok binom_test overall classifications)
    as (m & Hnd & Hm & Hrun).
  cbv zeta in Hrun.
  remember (coarse_split classifications [] []).1 as C eqn:EC.
  remember (coarse_split classifications [] []).2 as D eqn:ED.
  clear EC ED.
  set (m2 := filter (λ l, occurrences l C ≠ 0 ∧ occurrences l D ≠ 0) m) in *.
  assert (is_Ok (column_tests
            ((λ c, np_frac c (sum_list (label_counts m2 C))) <$> label_counts m2 C)
            ((λ c, np_frac c (sum_list (label_counts m2 D))) <$> label_counts m2 D)))
    as [ts2 Hts2].
  { pose proof (shared_counts_sum_pos m C D) as Hpos. fold m2 in Hpos.
    apply column_tests_Ok.
    - destruct (decide (m2 = [])) as [->|Hne]; [constructor|].
      apply fracs_Fin. by apply Hpos.
    - destruct (decide (m2 = [])) as [->|Hne]; [constructor|].
      apply fracs_Fin. by apply Hpos. }
  destruct Hcase as [[HC HD]|[HC HD]].
  - assert (0 < length C) as HlC by (destruct C; [done | simpl; lia]).
    assert (0 < length D) as HlD by (destruct D; [done | simpl; lia]).
    destruct (column_tests_Ok
                ((λ c, np_frac c (length C)) <$> label_counts m C)
                ((λ c, np_frac c (length D)) <$> label_counts m D))
      as [ts Hts]; [by apply fracs_Fin..|].
    rewrite Hrun, Hts, Hts2. by eexists.
  - assert (m = []) as Hmnil.
    { destruct m as [|l m']; [done|].
      assert (l ∈ C ∨ l ∈ D) as [Hl|Hl] by (apply Hm; left).
      - rewrite HC in Hl. by apply elem_of_nil in Hl.
      - rewrite HD in Hl. by apply elem_of_nil in Hl. }
    rewrite Hrun. subst m2. rewrite Hmnil. by eexists.
Qed.

Lemma histograms_run_raises argsort {pvalue} (binom_test : Z → Z → Q → pvalue)
    overall classifications :
  argsort_contract argsort →
  ((coarse_split classifications [] []).1 = [] ∧
   (coarse_split classifications [] []).2 ≠ []) ∨
  ((coarse_split classifications [] []).1 ≠ [] ∧
   (coarse_split classifications [] []).2 = []) →
  make_classification_histograms argsort binom_test overall classifications
    = Raise ValueError.
Proof.
  intros Hok Hcase.
  destruct (histograms_normal_form argsort Hok binom_test overall classifications)
    as (m & Hnd & Hm & Hrun).
  cbv zeta in Hrun.
  remember (coarse_split classifications [] []).1 as C eqn:EC.
  remember (coarse_split classifications [] []).2 as D eqn:ED.
  clear EC ED.
  destruct Hcase as [[HC HD]|[HC HD]].
  - destruct D as [|y D']; [done|].
    destruct m as [|l m'].
    { exfalso. eapply elem_of_nil, Hm. right. left. }
    rewrite Hrun, HC. reflexivity.
  - destruct C as [|x C']; [done|].
    destruct m as [|l m'].
    { exfalso. eapply elem_of_nil, Hm. left. left. }
    rewrite Hrun, HD. reflexivity.
Qed.

(** C8 (as amended). The division is not guarded.  With both coarse lists
    non-empty, or both empty, the run completes.  With exactly one of them
    empty the fractions of that group are [0/0], NaN, and the run stops with
    [ValueError] where the p-value step floors them.  In a completed run
    every fraction is a number: after the zero columns are removed the
    divisor of a group is positive whenever a column is kept, and when none
    is kept there is no fraction to compute. *)
Theorem C8_division_unguarded argsort {pvalue} (binom_test : Z → Z → Q → pvalue)
    overall classifications :
  argsort_contract argsort →
  (((coarse_split classifications [] []).1 ≠ [] ∧
    (coarse_split classifications [] []).2 ≠ []) ∨
   ((coarse_split classifications [] []).1 = [] ∧
    (coarse_split classifications [] []).2 = []) →
   is_Ok (make_classification_histograms argsort binom_test overall classifications)) ∧
  (((coarse_split classifications [] []).1 = [] ∧
    (coarse_split classifications [] []).2 ≠ []) ∨
   ((coarse_split classifications [] []).1 ≠ [] ∧
    (coarse_split classifications [] []).2 = []) →
   make_classification_histograms argsort binom_test overall classifications
     = Raise ValueError) ∧
  (∀ h,
     make_classification_histograms argsort binom_test overall classifications = Ok h →
     (merged_db_types_nz h ≠ [] →
        0 < sum_list (control_counts_nz h) ∧ 0 < sum_list (disease_counts_nz h)) ∧
     (merged_db_types_nz h = [] →
        control_fracs_nz h = [] ∧ disease_fracs_nz h = []) ∧
     Forall (λ x, ∃ q, x = Fin q)
       (control_fracs h ++ disease_fracs h ++
        control_fracs_nz h ++ disease_fracs_nz h)).
Proof.
  intros Hok.
  split; [by apply histograms_run_completes|].
  split; [by apply histograms_run_raises|].
  intros h Hh.
  destruct (histograms_Ok_inv argsort Hok binom_test overall classifications h Hh)
    as (m & ts & ts2 & _ & _ & _ & _ & _ & Hcc & Hdc & Hcf & Hdf & Hts & _ & _
        & Hm2 & Hcc2 & Hdc2 & Hcf2 & Hdf2 & Hts2 & _ & _).
  split; [|split].
  - intros Hne. rewrite Hcc2, Hdc2. rewrite Hm2 in Hne |- *.
    by apply shared_counts_sum_pos.
  - intros Hnil. rewrite Hcf2, Hdf2, Hcc2, Hdc2, Hnil. done.
  - apply column_tests_Fin_inv in Hts as [H1 H2].
    2:{ by rewrite Hcf, Hdf, Hcc, Hdc, !length_fmap, !label_counts_length. }
    apply column_tests_Fin_inv in Hts2 as [H3 H4].
    2:{ by rewrite Hcf2, Hdf2, Hcc2, Hdc2, !length_fmap, !label_counts_length. }
    rewrite !Forall_app. done.
Qed.

Lemma C8_witness :
  (((coarse_split [("disease_3m", ["Y"])] [] []).1 ≠ [] ∧
    (coarse_split [("disease_3m", ["Y"])] [] []).2 ≠ []) ∨
   ((coarse_split [("disease_3m", ["Y"])] [] []).1 = [] ∧
    (coarse_split [("disease_3m", ["Y"])] [] []).2 = []) →
   is_Ok (make_classification_histograms argsort_stable binom_test_args []
            [("disease_3m", ["Y"])])) ∧
  (((coarse_split [("disease_3m", ["Y"])] [] []).1 = [] ∧
    (coarse_split [("disease_3m", ["Y"])] [] []).2 ≠ []) ∨
   ((coarse_split [("disease_3m", ["Y"])] [] []).1 ≠ [] ∧
    (coarse_split [("disease_3m", ["Y"])] [] []).2 = []) →
   make_classification_histograms argsort_stable binom_test_args []
     [("disease_3m", ["Y"])] = Raise ValueError) ∧
  (∀ h,
     make_classification_histograms argsort_stable binom_test_args []
       [("disease_3m", ["Y"])] = Ok h →
     (merged_db_types_nz h ≠ [] →
        0 < sum_list (control_counts_nz h) ∧ 0 < sum_list (disease_counts_nz h)) ∧
     (merged_db_types_nz h = [] →
        control_fracs_nz h = [] ∧ disease_fracs_nz h = []) ∧
     Forall (λ x, ∃ q, x = Fin q)
       (control_fracs h ++ disease_fracs h ++
        control_fracs_nz h ++ disease_fracs_nz h)).
Proof.
  apply (C8_division_unguarded argsort_stable binom_test_args []
           [("disease_3m", ["Y"])]).
  apply argsort_stable_contract.
Defined.

(** C8 (as stated) fails: with no control group the run raises. *)
Lemma C8_empty_group_raises :
  ¬ (∀ argsort (binom_test : Z → Z → Q → Z * Z * Q) overall classifications,
       argsort_contract argsort →
       (coarse_split classifications [] []).1 = [] ∨
       (coarse_split classifications [] []).2 = [] →
       is_Ok (make_classification_histograms argsort binom_test overall
                classifications)).
Proof.
  intros H.
  destruct (H argsort_stable binom_test_args [] [("disease_3m", ["Y"])]
              argsort_stable_contract) as [h Hh]; [by left|].
  vm_compute in Hh. discriminate Hh.
Qed.

Example empty_control_group_scenario :
  make_classification_histograms argsort_stable binom_test_args []
    [("disease_3m", ["Y"; "Y"; "Z"])] = Raise ValueError ∧
  make_classification_histograms argsort_stable binom_test_args []
    [("control_3m", ["Y"])] = Raise ValueError ∧
  is_Ok (make_classification_histograms argsort_stable binom_test_args []
           [("other", ["Y"])]).
Proof. repeat split. by eexists. Qed.

(** ** Significance test *)

Lemma floor_1000_frac_value (c n : nat) :
  0 < n → floor_1000 (np_frac c n) = Ok (1000 * Z.of_nat c / Z.of_nat n)%Z.
Proof.
  intros Hn. destruct n as [|n]; [lia|]. cbn [np_frac floor_1000]. f_equal.
  assert (Z.pos (Pos.of_nat (S n)) = Z.of_nat (S n)) as Hp.
  { rewrite <- positive_nat_Z, Nat2Pos.id; lia. }
  unfold Qfloor, Qmult. cbn [Qnum Qden]. by rewrite Pos.mul_1_l, Hp.
Qed.

Lemma label_counts_lookup (m clfs : list string) j label :
  m !! j = Some label → label_counts m clfs !! j = Some (occurrences label clfs).
Proof. intros Hj. unfold label_counts. by rewrite list_lookup_fmap, Hj. Qed.

Lemma column_tests_values (n1 n2 : nat) (m : list string) (C D : list string) ts j label :
  0 < n1 → 0 < n2 →
  column_tests ((λ c, np_frac c n1) <$> label_counts m C)
               ((λ c, np_frac c n2) <$> label_counts m D) = Ok ts →
  m !! j = Some label →
  ts !! j =
    Some ((1000 * Z.of_nat (occurrences label C) / Z.of_nat n1)%Z,
          (1000 * Z.of_nat (occurrences label C) / Z.of_nat n1
           + 1000 * Z.of_nat (occurrences label D) / Z.of_nat n2)%Z).
Proof.
  intros H1 H2 Hts Hj.
  apply column_tests_inv in Hts as [_ Hlk];
    [|by rewrite !length_fmap, !label_counts_length].
  destruct (Hlk j (np_frac (occurrences label C) n1) (np_frac (occurrences label D) n2))
    as (c1 & c2 & Hc1 & Hc2 & ->).
  - by rewrite list_lookup_fmap, (label_counts_lookup _ _ _ _ Hj).
  - by rewrite list_lookup_fmap, (label_counts_lookup _ _ _ _ Hj).
  - rewrite floor_1000_frac_value in Hc1, Hc2 by done. congruence.
Qed.

(** C6. For non-empty control and disease lists the comparison runs, its
    columns are the distinct labels of the two lists, and for every label
    column the test is [binom_test(x, n, p=0.5)] with [x] the floor of 1000
    times the control fraction of the label (its share of the control list)
    and [n] that plus the floor of 1000 times its disease fraction.  The same
    holds for every column of the table without zero columns, whose labels
    are those met in both lists, with the fractions taken over the kept
    totals.  A column with control fraction 0.667 and disease fraction 0.333
    is tested with 667 out of 1000. *)
Theorem C6_binomial_test_inputs argsort {pvalue} (binom_test : Z → Z → Q → pvalue)
    overall classifications :
  argsort_contract argsort →
  (coarse_split classifications [] []).1 ≠ [] →
  (coarse_split classifications [] []).2 ≠ [] →
  ∃ h,
    make_classification_histograms argsort binom_test overall classifications = Ok h ∧
    control_clfs h = (coarse_split classifications [] []).1 ∧
    disease_clfs h = (coarse_split classifications [] []).2 ∧
    NoDup (merged_db_types h) ∧
    (∀ l, l ∈ merged_db_types h ↔ l ∈ control_clfs h ∨ l ∈ disease_clfs h) ∧
    (∀ l, l ∈ merged_db_types_nz h ↔ l ∈ control_clfs h ∧ l ∈ disease_clfs h) ∧
    (∀ j label, merged_db_types h !! j = Some label →
       let count1 := (1000 * Z.of_nat (occurrences label (control_clfs h))
                      / Z.of_nat (length (control_clfs h)))%Z in
       let count2 := (1000 * Z.of_nat (occurrences label (disease_clfs h))
                      / Z.of_nat (length (disease_clfs h)))%Z in
       control_fracs h !! j =
         Some (np_frac (occurrences label (control_clfs h)) (length (control_clfs h))) ∧
       disease_fracs h !! j =
         Some (np_frac (occurrences label (disease_clfs h)) (length (disease_clfs h))) ∧
       floor_1000
         (np_frac (occurrences label (control_clfs h)) (length (control_clfs h)))
         = Ok count1 ∧
       floor_1000
         (np_frac (occurrences label (disease_clfs h)) (length (disease_clfs h)))
         = Ok count2 ∧
       tests h !! j = Some (count1, (count1 + count2)%Z) ∧
       pvals h !! j = Some (binom_test count1 (count1 + count2)%Z (1 # 2))) ∧
    (∀ j label, merged_db_types_nz h !! j = Some label →
       let count1 := (1000 * Z.of_nat (occurrences label (control_clfs h))
                      / Z.of_nat (sum_list (control_counts_nz h)))%Z in
       let count2 := (1000 * Z.of_nat (occurrences label (disease_clfs h))
                      / Z.of_nat (sum_list (disease_counts_nz h)))%Z in
       control_fracs_nz h !! j =
         Some (np_frac (occurrences label (control_clfs h))
                       (sum_list (control_counts_nz h))) ∧
       disease_fracs_nz h !! j =
         Some (np_frac (occurrences label (disease_clfs h))
                       (sum_list (disease_counts_nz h))) ∧
       floor_1000
         (np_frac (occurrences label (control_clfs h)) (sum_list (control_counts_nz h)))
         = Ok count1 ∧
       floor_1000
         (np_frac (occurrences label (disease_clfs h)) (sum_list (disease_counts_nz h)))
         = Ok count2 ∧
       tests_nz h !! j = Some (count1, (count1 + count2)%Z) ∧
       pvals_nz h !! j = Some (binom_test count1 (count1 + count2)%Z (1 # 2))) ∧
    (∀ j label, merged_db_types h !! j = Some label →
       1000 * occurrences label (control_clfs h) = 667 * length (control_clfs h) →
       1000 * occurrences label (disease_clfs h) = 333 * length (disease_clfs h) →
       tests h !! j = Some (667, 1000)%Z ∧
       pvals h !! j = Some (binom_test 667%Z 1000%Z (1 # 2))) ∧
    length (pvals h) = length (merged_db_types h) ∧
    length (pvals_nz h) = length (merged_db_types_nz h).
Proof.
  intros Hok HCne HDne.
  destruct (histograms_run_completes argsort binom_test overall classifications Hok)
    as [h Hrun]; [by left|].
  destruct (histograms_Ok_inv argsort Hok binom_test overall classifications h Hrun)
    as (m & ts & ts2 & Hnd & Helem & HC & HD & Hm & Hcc & Hdc & Hcf & Hdf & Hts & Ht & Hp
        & Hm2 & Hcc2 & Hdc2 & Hcf2 & Hdf2 & Hts2 & Ht2 & Hp2).
  subst ts ts2.
  exists h. split; [done|]. split; [done|]. split; [done|].
  rewrite Hm. split; [done|]. split; [done|].
  set (C := control_clfs h) in *. set (D := disease_clfs h) in *.
  assert (0 < length C) as HCpos.
  { rewrite HC. destruct (coarse_split classifications [] []).1; [done | simpl; lia]. }
  assert (0 < length D) as HDpos.
  { rewrite HD. destruct (coarse_split classifications [] []).2; [done | simpl; lia]. }
  assert (∀ l, l ∈ merged_db_types_nz h ↔ l ∈ C ∧ l ∈ D) as Hshared.
  { intros l. rewrite Hm2, list_elem_of_filter, Helem, <- !occurrences_pos.
    split; [lia|]. intros [? ?]. split; [lia | by left]. }
  assert (∀ j label, m !! j = Some label →
            tests h !! j =
              Some ((1000 * Z.of_nat (occurrences label C) / Z.of_nat (length C))%Z,
                    (1000 * Z.of_nat (occurrences label C) / Z.of_nat (length C)
                     + 1000 * Z.of_nat (occurrences label D) / Z.of_nat (length D))%Z))
    as Hfirst.
  { intros j label Hj. rewrite Hcf, Hdf, Hcc, Hdc in Hts.
    by apply (column_tests_values (length C) (length D) m C D). }
  split; [done|]. split; [|split; [|split; [|split]]].
  - intros j label Hj count1 count2.
    rewrite Hcf, Hdf, Hcc, Hdc, !list_lookup_fmap,
      !(label_counts_lookup _ _ _ _ Hj). cbn [fmap option_fmap option_map].
    rewrite !floor_1000_frac_value by done.
    rewrite Hp, list_lookup_fmap, (Hfirst j label Hj). done.
  - intros j label Hj count1 count2.
    assert (merged_db_types_nz h ≠ []) as Hne.
    { intros Hnil. by rewrite Hnil in Hj. }
    rewrite Hm2 in Hne.
    destruct (shared_counts_sum_pos m C D Hne) as [Hs1 Hs2].
    rewrite <- Hm2, <- Hcc2 in Hs1. rewrite <- Hm2, <- Hdc2 in Hs2.
    set (n1 := sum_list (control_counts_nz h)) in *.
    set (n2 := sum_list (disease_counts_nz h)) in *.
    rewrite Hcf2, Hdf2. fold n1 n2. rewrite Hcc2, Hdc2, !list_lookup_fmap,
      !(label_counts_lookup _ _ _ _ Hj). cbn [fmap option_fmap option_map].
    rewrite !floor_1000_frac_value by done.
    rewrite Hcf2, Hdf2 in Hts2. fold n1 n2 in Hts2. rewrite Hcc2, Hdc2 in Hts2.
    rewrite Hp2, list_lookup_fmap,
      (column_tests_values n1 n2 _ C D _ j label Hs1 Hs2 Hts2 Hj). done.
  - intros j label Hj H1 H2. rewrite Hp, list_lookup_fmap, (Hfirst j label Hj).
    assert ((1000 * Z.of_nat (occurrences label C) / Z.of_nat (length C))%Z = 667%Z)
      as ->.
    { symmetry. apply Z.div_unique_exact; lia. }
    assert ((1000 * Z.of_nat (occurrences label D) / Z.of_nat (length D))%Z = 333%Z)
      as ->.
    { symmetry. apply Z.div_unique_exact; lia. }
    done.
  - rewrite Hp, length_fmap.
    apply column_tests_inv in Hts as [-> _];
      rewrite Hcf, ?Hdf, ?Hcc, ?Hdc, !length_fmap, !label_counts_length; done.
  - rewrite Hp2, length_fmap.
    apply column_tests_inv in Hts2 as [-> _];
      rewrite Hcf2, ?Hdf2, ?Hcc2, ?Hdc2, !length_fmap, !label_counts_length; done.
Qed.

Lemma thousand_cells_lists :
  (coarse_split thousand_cells [] []).1 ≠ [] ∧
  (coarse_split thousand_cells [] []).2 ≠ [].
Proof. split; intros H; vm_compute in H; discriminate. Qed.

Lemma C6_witness :
  (coarse_split thousand_cells [] []).1 ≠ [] ∧
  (coarse_split thousand_cells [] []).2 ≠ [] ∧
  ∃ h,
    make_classification_histograms argsort_stable binom_test_args [] thousand_cells = Ok h ∧
    control_clfs h = (coarse_split thousand_cells [] []).1 ∧
    disease_clfs h = (coarse_split thousand_cells [] []).2 ∧
    NoDup (merged_db_types h) ∧
    (∀ l, l ∈ merged_db_types h ↔ l ∈ control_clfs h ∨ l ∈ disease_clfs h) ∧
    (∀ l, l ∈ merged_db_types_nz h ↔ l ∈ control_clfs h ∧ l ∈ disease_clfs h) ∧
    (∀ j label, merged_db_types h !! j = Some label →
       let count1 := (1000 * Z.of_nat (occurrences label (control_clfs h))
                      / Z.of_nat (length (control_clfs h)))%Z in
       let count2 := (1000 * Z.of_nat (occurrences label (disease_clfs h))
                      / Z.of_nat (length (disease_clfs h)))%Z in
       control_fracs h !! j =
         Some (np_frac (occurrences label (control_clfs h)) (length (control_clfs h))) ∧
       disease_fracs h !! j =
         Some (np_frac (occurrences label (disease_clfs h)) (length (disease_clfs h))) ∧
       floor_1000
         (np_frac (occurrences label (control_clfs h)) (length (control_clfs h)))
         = Ok count1 ∧
       floor_1000
         (np_frac (occurrences label (disease_clfs h)) (length (disease_clfs h)))
         = Ok count2 ∧
       tests h !! j = Some (count1, (count1 + count2)%Z) ∧
       pvals h !! j = Some (binom_test_args count1 (count1 + count2)%Z (1 # 2))) ∧
    (∀ j label, merged_db_types_nz h !! j = Some label →
       let count1 := (1000 * Z.of_nat (occurrences label (control_clfs h))
                      / Z.of_nat (sum_list (control_counts_nz h)))%Z in
       let count2 := (1000 * Z.of_nat (occurrences label (disease_clfs h))
                      / Z.of_nat (sum_list (disease_counts_nz h)))%Z in
       control_fracs_nz h !! j =
         Some (np_frac (occurrences label (control_clfs h))
                       (sum_list (control_counts_nz h))) ∧
       disease_fracs_nz h !! j =
         Some (np_frac (occurrences label (disease_clfs h))
                       (sum_list (disease_counts_nz h))) ∧
       floor_1000
         (np_frac (occurrences label (control_clfs h)) (sum_list (control_counts_nz h)))
         = Ok count1 ∧
       floor_1000
         (np_frac (occurrences label (disease_clfs h)) (sum_list (disease_counts_nz h)))
         = Ok count2 ∧
       tests_nz h !! j = Some (count1, (count1 + count2)%Z) ∧
       pvals_nz h !! j = Some (binom_test_args count1 (count1 + count2)%Z (1 # 2))) ∧
    (∀ j label, merged_db_types h !! j = Some label →
       1000 * occurrences label (control_clfs h) = 667 * length (control_clfs h) →
       1000 * occurrences label (disease_clfs h) = 333 * length (disease_clfs h) →
       tests h !! j = Some (667, 1000)%Z ∧
       pvals h !! j = Some (binom_test_args 667%Z 1000%Z (1 # 2))) ∧
    length (pvals h) = length (merged_db_types h) ∧
    length (pvals_nz h) = length (merged_db_types_nz h).
Proof.
  destruct thousand_cells_lists as [H1 H2]. split; [done|]. split; [done|].
  apply (C6_binomial_test_inputs argsort_stable binom_test_args [] thousand_cells
           argsort_stable_contract H1 H2).
Defined.

(** A thousand control cells of which 667 are classified X, and a thousand
    disease cells of which 333 are: the fractions 0.667 and 0.333 of the
    specification's example, tested with 667 out of 1000. *)
Example binomial_inputs_thousand_cells :
  (λ h, (merged_db_types h, control_fracs h, disease_fracs h, tests h, pvals h))
    <$> make_classification_histograms argsort_stable binom_test_args [] thousand_cells
  = Ok (["X"; "Y"], [Fin (667 # 1000); Fin (333 # 1000)],
        [Fin (333 # 1000); Fin (667 # 1000)], [(667, 1000); (333, 1000)]%Z,
        [(667, 1000, 1 # 2); (333, 1000, 1 # 2)]%Z).
Proof. by vm_compute. Qed.

(** The three-cell lists of the specification's end-to-end scenario have the
    exact fractions 2/3 and 1/3, whose floors are 666 and 333. *)
Example binomial_inputs_spec_scenario :
  (λ h, (merged_db_types h, control_counts h, disease_counts h, tests h))
    <$> make_classification_histograms argsort_stable binom_test_args []
          [("control_3m", ["X"; "X"; "Y"]); ("disease_3m", ["X"; "Y"; "Y"])]
  = Ok (["X"; "Y"], [2; 1], [1; 2], [(666, 999); (333, 999)]%Z).
Proof. reflexivity. Qed.

(** ** The run as a whole *)

Lemma coarse_split_cons qt clfs items :
  coarse_split ((qt, clfs) :: items) [] [] =
    ((if str_contains "control" qt then clfs else []) ++ (coarse_split items [] []).1,
     (if str_contains "control" qt then []
      else if str_contains "disease" qt then clfs else [])
       ++ (coarse_split items [] []).2).
Proof.
  simpl. destruct (str_contains "control" qt); [|destruct (str_contains "disease" qt)].
  - by rewrite (coarse_split_acc items clfs []).
  - by rewrite (coarse_split_acc items [] clfs).
  - by destruct (coarse_split items [] []).
Qed.

Lemma coarse_split_dd_extend k vs (d : list (string * list string)) :
  (coarse_split (dd_extend k vs d) [] []).1 ≡ₚ
    (coarse_split d [] []).1 ++ (if str_contains "control" k then vs else []) ∧
  (coarse_split (dd_extend k vs d) [] []).2 ≡ₚ
    (coarse_split d [] []).2 ++
      (if str_contains "control" k then []
       else if str_contains "disease" k then vs else []).
Proof.
  induction d as [|[k' old] d [IH1 IH2]].
  - simpl dd_extend. rewrite coarse_split_cons. simpl. by rewrite !app_nil_r.
  - simpl dd_extend. destruct (String.eqb_spec k' k) as [->|Hne].
    + rewrite !coarse_split_cons. cbn [fst snd].
      destruct (str_contains "control" k); [|destruct (str_contains "disease" k)];
        rewrite ?app_nil_r; split; try done.
      * rewrite <- !app_assoc. apply Permutation_app_head, Permutation_app_comm.
      * rewrite <- !app_assoc. apply Permutation_app_head, Permutation_app_comm.
    + rewrite !coarse_split_cons. cbn [fst snd].
      rewrite IH1, IH2. by rewrite !app_assoc.
Qed.

Lemma record_fold_classifications (l : list (query_row * query_stats)) acc :
  classifications (foldl (λ a qs, record_query qs.1 qs.2 a) acc l) =
    foldl (λ d qs, dd_extend (q_label qs.1) [classified_label qs.2] d)
      (classifications acc) l.
Proof. revert acc. induction l as [|[q st] l IH]; intros acc; [done|]. apply IH. Qed.

Lemma coarse_lists_of_queries (l : list (query_row * query_stats)) d :
  (coarse_split
     (foldl (λ d qs, dd_extend (q_label qs.1) [classified_label qs.2] d) d l) [] []).1
    ≡ₚ (coarse_split d [] []).1 ++
       ((λ qs, classified_label qs.2)
          <$> filter (λ qs, substring_of "control" (q_label qs.1)) l) ∧
  (coarse_split
     (foldl (λ d qs, dd_extend (q_label qs.1) [classified_label qs.2] d) d l) [] []).2
    ≡ₚ (coarse_split d [] []).2 ++
       ((λ qs, classified_label qs.2)
          <$> filter (λ qs, substring_of "disease" (q_label qs.1) ∧
                            ¬ substring_of "control" (q_label qs.1)) l).
Proof.
  revert d. induction l as [|[q st] l IH]; intros d.
  - simpl. by rewrite !app_nil_r.
  - cbn [foldl]. destruct (IH (dd_extend (q_label q) [classified_label st] d))
      as [IH1 IH2].
    destruct (coarse_split_dd_extend (q_label q) [classified_label st] d) as [E1 E2].
    rewrite IH1, IH2, E1, E2, !filter_cons. cbn [fst snd].
    destruct (str_contains "control" (q_label q)) eqn:Ec.
    + apply str_contains_spec in Ec.
      rewrite decide_True by done. rewrite decide_False by tauto.
      rewrite app_nil_r, fmap_cons. cbn [snd]. by rewrite <- app_assoc.
    + assert (¬ substring_of "control" (q_label q)) as Hc.
      { intros H%str_contains_spec. congruence. }
      rewrite (decide_False (P := substring_of "control" (q_label q))) by done.
      rewrite app_nil_r.
      destruct (str_contains "disease" (q_label q)) eqn:Ed.
      * apply str_contains_spec in Ed. rewrite decide_True by done.
        rewrite fmap_cons. cbn [snd]. by rewrite <- app_assoc.
      * rewrite decide_False; [by rewrite app_nil_r|].
        intros [H%str_contains_spec _]. congruence.
Qed.

(** ** The per-query step, further *)

Lemma np_take_raises {A} (a : list A) idx e :
  np_take a idx = Raise e → e = IndexError.
Proof.
  unfold np_take. induction idx as [|i idx IH]; [done|]. simpl.
  destruct (a !! i); simpl; [|by intros [= <-]].
  destruct (mapM_result _ idx) as [r|e'] eqn:E; simpl; [done|].
  intros [= <-]. by apply IH.
Qed.

Lemma np_take_out_of_bounds {A} (a : list A) idx k :
  k ∈ idx → length a ≤ k → np_take a idx = Raise IndexError.
Proof.
  intros Hk Hle. destruct (np_take a idx) as [r|e] eqn:E.
  - apply np_take_inv in E as [Hlen Hlk].
    apply list_elem_of_lookup_1 in Hk as [j Hj].
    specialize (Hlk j k Hj). rewrite (lookup_ge_None_2 a k) in Hlk by lia.
    apply lookup_ge_None_1 in Hlk. apply lookup_lt_Some in Hj. lia.
  - f_equal. by eapply np_take_raises.
Qed.

Lemma query_statistics_inv_full argsort db_labels db_cell_ids dists st :
  query_statistics argsort db_labels db_cell_ids dists = Ok st →
  ∃ sd sl sc nearest,
    np_take dists (argsort dists) = Ok sd ∧
    np_take db_labels (argsort dists) = Ok sl ∧
    np_take db_cell_ids (argsort dists) = Ok sc ∧
    sl !! 0 = Some nearest ∧
    classify (take 100 sl) = Ok (classified_label st) ∧
    sorted_distances st = sd ∧ sorted_labels st = sl ∧ sorted_cell_ids st = sc ∧
    top_5_cells st = take 5 sc ∧ top_5_types st = take 5 sl ∧
    in_top_1 st = bool_decide (nearest = brain ∨ nearest = cortex) ∧
    in_top_5 st = bool_decide (brain ∈ take 5 sl ∨ cortex ∈ take 5 sl) ∧
    in_top_10 st = bool_decide (brain ∈ take 10 sl ∨ cortex ∈ take 10 sl) ∧
    in_top_100 st = bool_decide (brain ∈ take 100 sl ∨ cortex ∈ take 100 sl) ∧
    brain_cortex_count st =
      occurrences brain (take 100 sl) + occurrences cortex (take 100 sl) ∧
    bm_osteocyte_count st =
      occurrences bone_marrow_cell (take 100 sl) + occurrences osteocyte (take 100 sl) ∧
    min_distances st = nearest_dist_to_each_type sd sl ∧
    avg_top_5_distances st = np_mean (take 5 sd).
Proof.
  unfold query_statistics.
  intros (sd & Hsd & (sl & Hsl & (sc & Hsc & (nearest & Hn
            & (cl & Hcl & [= <-])%bind_Ok)%bind_Ok)%bind_Ok)%bind_Ok)%bind_Ok.
  exists sd, sl, sc, nearest. simpl. repeat (split; [done|]).
  split; [|done]. by destruct (sl !! 0); simplify_eq.
Qed.

Lemma elem_of_take_le {A} (l : list A) (x : A) n m :
  n ≤ m → x ∈ take n l → x ∈ take m l.
Proof.
  intros Hnm (i & Hi)%list_elem_of_lookup_1.
  apply lookup_take_Some in Hi as [Hi Hlt].
  apply (list_elem_of_lookup_2 _ i). rewrite lookup_take_lt by lia. done.
Qed.

Lemma occurrences_four a b c d (l : list string) :
  a ≠ b → a ≠ c → a ≠ d → b ≠ c → b ≠ d → c ≠ d →
  occurrences a l + occurrences b l + occurrences c l + occurrences d l ≤ length l.
Proof.
  intros. induction l as [|x l IH]; [done|].
  rewrite !occurrences_cons. simpl. repeat case_decide; subst; try done; lia.
Qed.

Lemma window_flags (sl : list string) nearest :
  sl !! 0 = Some nearest →
  (bool_decide (nearest = brain ∨ nearest = cortex) →
   bool_decide (brain ∈ take 5 sl ∨ cortex ∈ take 5 sl)) ∧
  (bool_decide (brain ∈ take 5 sl ∨ cortex ∈ take 5 sl) →
   bool_decide (brain ∈ take 10 sl ∨ cortex ∈ take 10 sl)) ∧
  (bool_decide (brain ∈ take 10 sl ∨ cortex ∈ take 10 sl) →
   bool_decide (brain ∈ take 100 sl ∨ cortex ∈ take 100 sl)) ∧
  (bool_decide (brain ∈ take 100 sl ∨ cortex ∈ take 100 sl) ↔
   0 < occurrences brain (take 100 sl) + occurrences cortex (take 100 sl)).
Proof.
  intros Hn. rewrite !bool_decide_spec.
  assert (∀ n m l, n ≤ m → l ∈ take n sl → l ∈ take m sl) as Hmono.
  { intros n m l. apply elem_of_take_le. }
  split; [|split; [|split]].
  - assert (nearest ∈ take 5 sl) as Hin.
    { apply (list_elem_of_lookup_2 _ 0). by rewrite lookup_take_lt by lia. }
    intros [<-| <-]; [by left | by right].
  - intros [H|H]; [left | right]; by apply (Hmono 5 10); [lia|].
  - intros [H|H]; [left | right]; by apply (Hmono 10 100); [lia|].
  - rewrite <- !occurrences_pos. lia.
Qed.

(** X2. The four brain/cortex flags of a query are nested (nearest label,
    top 5, top 10, top 100); the top-100 flag is set exactly when the
    brain/cortex count is positive; and the two counts recorded for the
    query together never exceed the size of the top-100 window. *)
Theorem top_k_flags_nested argsort db_labels db_cell_ids dists st :
  query_statistics argsort db_labels db_cell_ids dists = Ok st →
  (in_top_1 st → in_top_5 st) ∧
  (in_top_5 st → in_top_10 st) ∧
  (in_top_10 st → in_top_100 st) ∧
  (in_top_100 st ↔ 0 < brain_cortex_count st) ∧
  brain_cortex_count st + bm_osteocyte_count st
    ≤ length (take 100 (sorted_labels st)) ∧
  brain_cortex_count st + bm_osteocyte_count st ≤ 100.
Proof.
  intros (sd & sl & sc & nearest & _ & _ & _ & Hn & _ & _ & -> & _ & _ & _
          & -> & -> & -> & -> & -> & -> & _)%query_statistics_inv_full.
  destruct (window_flags sl nearest Hn) as (H1 & H5 & H10 & H100).
  do 4 (split; [done|]).
  assert (occurrences brain (take 100 sl) + occurrences cortex (take 100 sl) +
          (occurrences bone_marrow_cell (take 100 sl) +
           occurrences osteocyte (take 100 sl)) ≤ length (take 100 sl)) as Hle.
  { rewrite Nat.add_assoc. apply occurrences_four; done. }
  split; [done|]. rewrite length_take in Hle. lia.
Qed.

Lemma top_k_flags_nested_witness :
  ∃ st,
    query_statistics argsort_stable [brain; "A"; cortex] ["c1"; "c2"; "c3"]
      [Fin 2; Fin 1; Fin 3] = Ok st ∧
    (in_top_1 st → in_top_5 st) ∧
    (in_top_5 st → in_top_10 st) ∧
    (in_top_10 st → in_top_100 st) ∧
    (in_top_100 st ↔ 0 < brain_cortex_count st) ∧
    brain_cortex_count st + bm_osteocyte_count st
      ≤ length (take 100 (sorted_labels st)) ∧
    brain_cortex_count st + bm_osteocyte_count st ≤ 100.
Proof.
  destruct (query_statistics argsort_stable [brain; "A"; cortex] ["c1"; "c2"; "c3"]
              [Fin 2; Fin 1; Fin 3]) as [st|e] eqn:E; [|by vm_compute in E].
  exists st. split; [done|].
  apply (top_k_flags_nested argsort_stable [brain; "A"; cortex] ["c1"; "c2"; "c3"]
           [Fin 2; Fin 1; Fin 3] st E).
Defined.

Section QueryErrors.
Variable argsort : list npfloat → list nat.
Hypothesis argsort_ok : argsort_contract argsort.
Variables db_labels db_cell_ids : list string.

Lemma ranking_length dists : length (argsort dists) = length dists.
Proof.
  destruct (argsort_ok dists) as [Hp _]. by rewrite Hp, length_seq.
Qed.

Lemma ranking_has_last dists : dists ≠ [] → length dists - 1 ∈ argsort dists.
Proof.
  intros Hne. destruct (argsort_ok dists) as [Hp _]. rewrite Hp.
  apply elem_of_seq. destruct dists; [done|]. simpl. lia.
Qed.

Lemma query_statistics_long_enough dists :
  dists ≠ [] →
  length dists ≤ length db_labels →
  length dists ≤ length db_cell_ids →
  is_Ok (query_statistics argsort db_labels db_cell_ids dists).
Proof.
  intros Hne Hl Hc.
  destruct (np_take_Ok dists (argsort dists)) as [sd Hsd];
    [by apply ranking_bound|].
  destruct (np_take_Ok db_labels (argsort dists)) as [sl Hsl].
  { intros k Hk. apply (ranking_bound argsort argsort_ok) in Hk. lia. }
  destruct (np_take_Ok db_cell_ids (argsort dists)) as [sc Hsc].
  { intros k Hk. apply (ranking_bound argsort argsort_ok) in Hk. lia. }
  assert (length sl = length dists) as Hlen.
  { apply np_take_inv in Hsl as [-> _]. apply ranking_length. }
  destruct sl as [|nearest sl'] eqn:Esl.
  { destruct dists; [done | simpl in Hlen; lia]. }
  destruct (classify_Ok (take 100 (nearest :: sl'))) as [cl Hcl]; [done|].
  unfold query_statistics. rewrite Hsd, Hsl, Hsc, !bind_Ok_l.
  cbn [lookup list_lookup]. rewrite bind_Ok_l. cbv zeta. rewrite Hcl.
  by eexists.
Qed.

Lemma query_statistics_IndexError dists :
  dists = [] ∨ length db_labels < length dists ∨ length db_cell_ids < length dists →
  query_statistics argsort db_labels db_cell_ids dists = Raise IndexError.
Proof.
  intros Hbad. unfold query_statistics.
  destruct (np_take_Ok dists (argsort dists)) as [sd ->];
    [by apply ranking_bound|].
  rewrite bind_Ok_l.
  destruct (np_take db_labels (argsort dists)) as [sl|e] eqn:Hsl; cycle 1.
  { by apply np_take_raises in Hsl as ->. }
  rewrite bind_Ok_l.
  destruct (np_take db_cell_ids (argsort dists)) as [sc|e] eqn:Hsc; cycle 1.
  { by apply np_take_raises in Hsc as ->. }
  rewrite bind_Ok_l.
  destruct Hbad as [->|Hbad].
  - apply np_take_inv in Hsl as [Hlen _]. rewrite ranking_length in Hlen.
    by destruct sl.
  - exfalso. assert (dists ≠ []) as Hne.
    { intros ->. simpl in Hbad. lia. }
    pose proof (ranking_has_last dists Hne) as Hlast.
    destruct Hbad as [Hlt|Hlt].
    + rewrite (np_take_out_of_bounds db_labels _ _ Hlast) in Hsl; [done | lia].
    + rewrite (np_take_out_of_bounds db_cell_ids _ _ Hlast) in Hsc; [done | lia].
Qed.
End QueryErrors.

(** X3. What can go wrong for one query row.  The per-query step succeeds
    exactly when the row is not empty and the label and cell-identifier
    arrays are at least as long as the row; in every other case it raises
    [IndexError].  In particular the [ValueError] of [classify] on an empty
    window cannot be reached from the loop of [main]. *)
Theorem query_step_errors argsort db_labels db_cell_ids dists :
  argsort_contract argsort →
  (is_Ok (query_statistics argsort db_labels db_cell_ids dists) ↔
     dists ≠ [] ∧ length dists ≤ length db_labels ∧
     length dists ≤ length db_cell_ids) ∧
  (∀ e, query_statistics argsort db_labels db_cell_ids dists = Raise e →
        e = IndexError).
Proof.
  intros Hok.
  destruct (decide (dists ≠ [] ∧ length dists ≤ length db_labels ∧
                    length dists ≤ length db_cell_ids)) as [Hgood|Hbad].
  - destruct Hgood as (Hne & Hl & Hc).
    destruct (query_statistics_long_enough argsort Hok db_labels db_cell_ids dists
                Hne Hl Hc) as [st Hst].
    split; [split; [done | by exists st]|]. intros e He. congruence.
  - assert (query_statistics argsort db_labels db_cell_ids dists = Raise IndexError)
      as Hraise.
    { apply query_statistics_IndexError; [done|].
      destruct dists as [|d dists]; [by left | right].
      destruct (decide (length db_labels < length (d :: dists))); [by left | right].
      apply Nat.lt_nge. intros Hc. apply Hbad. split; [done|]. lia. }
    split; [|intros e He; congruence].
    split; [|done]. rewrite Hraise. by intros [st Hst].
Qed.

Lemma query_step_errors_witness :
  (is_Ok (query_statistics argsort_stable ["A"] ["c1"; "c2"] [Fin 1; Fin 2]) ↔
     [Fin 1; Fin 2] ≠ [] ∧ length [Fin 1; Fin 2] ≤ length ["A"] ∧
     length [Fin 1; Fin 2] ≤ length ["c1"; "c2"]) ∧
  (∀ e, query_statistics argsort_stable ["A"] ["c1"; "c2"] [Fin 1; Fin 2] = Raise e →
        e = IndexError).
Proof.
  apply (query_step_errors argsort_stable ["A"] ["c1"; "c2"] [Fin 1; Fin 2]).
  apply argsort_stable_contract.
Defined.


Lemma elem_of_take_all {A} (l : list A) (x : A) n : x ∈ take n l → x ∈ l.
Proof.
  intros (i & Hi)%list_elem_of_lookup_1. apply lookup_take_Some in Hi as [Hi _].
  by eapply list_elem_of_lookup_2.
Qed.

Lemma classify_elem (w : list string) l : classify w = Ok l → l ∈ w.
Proof.
  intros Hcl. destruct (classify_keyed w) as (idx & _ & Hcl').
  rewrite Hcl in Hcl'. symmetry in Hcl'.
  apply bind_Ok in Hcl' as (xv & Hmax & [= <-]).
  unfold py_max in Hmax.
  destruct (groupby (sorted w)) as [|g gs] eqn:Eg; [done|].
  rewrite fmap_cons in Hmax. injection Hmax as Hmax.
  match type of Hmax with (max_from ?b ?l).2 = _ =>
    destruct (max_from_spec b l) as [Hin _]; set (mx := max_from b l) in *;
    change (b :: l) with ((λ xv : string * list string,
                         ((length xv.2, (- Z.of_nat (idx xv.1))%Z), xv)) <$> g :: gs) in Hin
  end.
  apply list_elem_of_fmap in Hin as (xv' & Heq & Hin).
  rewrite Heq in Hmax. simpl in Hmax. subst xv'.
  rewrite <- (sorted_perm w). apply groupby_keys_elem.
  rewrite Eg. apply list_elem_of_fmap. by exists xv.
Qed.

(** X4. The nearest neighbour of a query.  The label ranked first has, in
    the per-label table of nearest distances, the distance ranked first, and
    no entry of the table is below that distance; the classified label is a
    label of the database. *)
Theorem nearest_neighbour_is_table_minimum argsort db_labels db_cell_ids dists st :
  argsort_contract argsort →
  length db_labels = length dists →
  query_statistics argsort db_labels db_cell_ids dists = Ok st →
  ∃ l0 d0,
    sorted_labels st !! 0 = Some l0 ∧
    sorted_distances st !! 0 = Some d0 ∧
    min_distances st !! l0 = Some d0 ∧
    (∀ l d, min_distances st !! l = Some d → np_le d0 d) ∧
    classified_label st ∈ db_labels.
Proof.
  intros Hok Hlen Hst.
  destruct (query_statistics_inv_full _ _ _ _ _ Hst)
    as (sd & sl & sc & nearest & Hsd & Hsl & Hsc & Hn & Hcl & -> & -> & _ & _ & _
        & _ & _ & _ & _ & _ & _ & -> & _).
  destruct (ranking_aligned argsort Hok dists dists sd eq_refl Hsd) as (Hlsd & _ & _).
  destruct (ranking_aligned argsort Hok db_labels dists sl Hlen Hsl)
    as (Hlsl & Hpsl & _).
  assert (length sd = length sl) as Hsame by lia.
  assert (is_Some (sd !! 0)) as [d0 Hd0].
  { apply lookup_lt_is_Some. apply lookup_lt_Some in Hn. lia. }
  pose proof (ranking_sorted argsort Hok dists sd Hsd) as Hsorted.
  exists nearest, d0. split; [done|]. split; [done|]. split; [|split].
  - apply (nearest_dist_lookup sd sl nearest d0 Hsame).
    exists 0. split; [done|]. split; [done|]. intros j Hj. lia.
  - intros l d (i & _ & Hi & _)%(nearest_dist_lookup sd sl l d Hsame).
    destruct i as [|i]; [rewrite Hd0 in Hi; injection Hi as ->; apply np_le_refl|].
    by apply (StronglySorted_lookup np_le sd 0 (S i) d0 d Hsorted); [lia|..].
  - rewrite <- Hpsl. apply classify_elem in Hcl. by apply elem_of_take_all in Hcl.
Qed.

Lemma nearest_neighbour_is_table_minimum_witness :
  ∃ st l0 d0,
    query_statistics argsort_stable ["A"; "A"; "B"] ["c1"; "c2"; "c3"]
      [Fin 1; Fin 2; Fin (1 # 2)] = Ok st ∧
    sorted_labels st !! 0 = Some l0 ∧
    sorted_distances st !! 0 = Some d0 ∧
    min_distances st !! l0 = Some d0 ∧
    (∀ l d, min_distances st !! l = Some d → np_le d0 d) ∧
    classified_label st ∈ ["A"; "A"; "B"].
Proof.
  destruct (query_statistics argsort_stable ["A"; "A"; "B"] ["c1"; "c2"; "c3"]
              [Fin 1; Fin 2; Fin (1 # 2)]) as [st|e] eqn:E; [|by vm_compute in E].
  destruct (nearest_neighbour_is_table_minimum argsort_stable ["A"; "A"; "B"]
              ["c1"; "c2"; "c3"] [Fin 1; Fin 2; Fin (1 # 2)] st
              argsort_stable_contract eq_refl E) as (l0 & d0 & H).
  by exists st, l0, d0.
Defined.

(** ** The aggregators of [main] *)

Lemma first_seen_elem l x : x ∈ first_seen l ↔ x ∈ l.
Proof. unfold first_seen. by rewrite elem_of_reverse, elem_of_remove_dups, elem_of_reverse. Qed.

Lemma first_seen_NoDup l : NoDup (first_seen l).
Proof. unfold first_seen. rewrite reverse_Permutation. apply NoDup_remove_dups. Qed.

Lemma first_seen_snoc l x :
  first_seen (l ++ [x]) = if decide (x ∈ l) then first_seen l else first_seen l ++ [x].
Proof.
  unfold first_seen. rewrite reverse_snoc. simpl.
  destruct (decide_rel elem_of x (reverse l)) as [Hin|Hin];
    rewrite elem_of_reverse in Hin; destruct (decide (x ∈ l)); try done.
  by rewrite reverse_cons.
Qed.

Lemma dd_extend_keys {V} k (vs : list V) d :
  (dd_extend k vs d).*1 = if decide (k ∈ d.*1) then d.*1 else d.*1 ++ [k].
Proof.
  induction d as [|[k' old] d IH]; [done|]. simpl.
  destruct (String.eqb_spec k' k) as [->|Hne].
  - rewrite decide_True by left. done.
  - rewrite fmap_cons, IH. simpl.
    destruct (decide (k ∈ d.*1)) as [Hin|Hin].
    + rewrite decide_True by (by right). done.
    + rewrite decide_False; [done|]. intros [?|?]%elem_of_cons; [congruence | done].
Qed.

Lemma dd_get_extend {V} k' k (vs : list V) d :
  dd_get k' (dd_extend k vs d) = dd_get k' d ++ (if decide (k = k') then vs else []).
Proof.
  unfold dd_get. induction d as [|[k0 old] d IH]; simpl.
  - rewrite filter_cons. simpl. destruct (decide (k = k')); done.
  - destruct (String.eqb_spec k0 k) as [->|Hne]; rewrite !filter_cons; simpl.
    + destruct (decide (k = k')); simpl; [done|]. by rewrite app_nil_r.
    + destruct (decide (k0 = k')) as [->|Hne']; simpl; [|apply IH].
      rewrite decide_False by done. by rewrite app_nil_r.
Qed.

Section DdFold.
Context {X V : Type}.
Variable key : X → string.
Variable val : X → list V.

Lemma dd_fold_keys (l : list X) :
  (foldl (λ d x, dd_extend (key x) (val x) d) [] l).*1 = first_seen (key <$> l).
Proof.
  induction l as [|x l IH] using rev_ind; [done|].
  rewrite foldl_snoc, dd_extend_keys, IH, fmap_app.
  change (key <$> [x]) with [key x]. rewrite first_seen_snoc.
  destruct (decide (key x ∈ first_seen (key <$> l))) as [Hin|Hin];
    rewrite first_seen_elem in Hin; destruct (decide (key x ∈ key <$> l)); done.
Qed.

Lemma dd_fold_get (l : list X) d k :
  dd_get k (foldl (λ d x, dd_extend (key x) (val x) d) d l) =
    dd_get k d ++ concat (val <$> filter (λ x, key x = k) l).
Proof.
  revert d. induction l as [|x l IH]; intros d; simpl.
  - by rewrite app_nil_r.
  - rewrite IH, dd_get_extend, filter_cons.
    destruct (decide (key x = k)); simpl; [by rewrite app_assoc|].
    by rewrite app_nil_r.
Qed.
End DdFold.

Lemma concat_singletons {A B} (f : A → B) (l : list A) :
  concat ((λ x, [f x]) <$> l) = f <$> l.
Proof.
  induction l as [|x l IH]; [done|].
  rewrite !fmap_cons. cbn [concat app]. by rewrite IH.
Qed.

Lemma query_loop_inv argsort db_labels db_cell_ids queries acc acc' :
  query_loop argsort db_labels db_cell_ids acc queries = Ok acc' →
  ∃ stats,
    Forall2 (λ q st, query_statistics argsort db_labels db_cell_ids (q_dists q) = Ok st)
      queries stats ∧
    acc' = foldl (λ a qs, record_query qs.1 qs.2 a) acc (zip queries stats).
Proof.
  revert acc. induction queries as [|q queries IH]; intros acc; simpl.
  - intros [= <-]. exists []. by split; [constructor|].
  - intros (st & Hst & Hrest)%bind_Ok.
    destruct (IH _ Hrest) as (stats & Hall & ->).
    exists (st :: stats). by split; [constructor|].
Qed.

Lemma record_fold_overall (l : list (query_row * query_stats)) acc :
  overall_classifications (foldl (λ a qs, record_query qs.1 qs.2 a) acc l) =
    overall_classifications acc ++ ((λ qs, classified_label qs.2) <$> l).
Proof.
  revert acc. induction l as [|[q st] l IH]; intros acc; simpl.
  - by rewrite app_nil_r.
  - rewrite IH. simpl. by rewrite <- app_assoc.
Qed.

Lemma record_fold_top_5_types (l : list (query_row * query_stats)) acc :
  top_5_types_dict (foldl (λ a qs, record_query qs.1 qs.2 a) acc l) =
    foldl (λ d qs, dd_extend (q_label qs.1) (top_5_types qs.2) d)
      (top_5_types_dict acc) l.
Proof. revert acc. induction l as [|[q st] l IH]; intros acc; [done|]. apply IH. Qed.

Lemma record_fold_avg (l : list (query_row * query_stats)) acc :
  avg_nearest_5_distances_dict (foldl (λ a qs, record_query qs.1 qs.2 a) acc l) =
    foldl (λ d qs, dd_extend (q_label qs.1) [avg_top_5_distances qs.2] d)
      (avg_nearest_5_distances_dict acc) l.
Proof. revert acc. induction l as [|[q st] l IH]; intros acc; [done|]. apply IH. Qed.

Lemma zip_stats_labels argsort db_labels db_cell_ids queries stats :
  Forall2 (λ q st, query_statistics argsort db_labels db_cell_ids (q_dists q) = Ok st)
    queries stats →
  (λ qs : query_row * query_stats, q_label qs.1) <$> zip queries stats
    = q_label <$> queries.
Proof.
  intros Hall.
  replace ((λ qs : query_row * query_stats, q_label qs.1) <$> zip queries stats)
    with (q_label <$> (zip queries stats).*1) by (by rewrite <- list_fmap_compose).
  rewrite fst_zip; [done|]. by rewrite (Forall2_length _ _ _ Hall).
Qed.

(** X5. How the loop of [main] fills its per-group dictionaries.  After a
    run over [queries], the keys of [classifications], [top_5_types_dict]
    and [avg_nearest_5_distances_dict] are the distinct query labels in the
    order in which they were first met; under each key lie the contributions
    of the queries of that group, in query order; [overall_classifications]
    holds one classified label per query, in query order. *)
Theorem aggregators_group_by_label argsort db_labels db_cell_ids queries acc :
  query_loop argsort db_labels db_cell_ids accum_init queries = Ok acc →
  ∃ stats,
    Forall2 (λ q st, query_statistics argsort db_labels db_cell_ids (q_dists q) = Ok st)
      queries stats ∧
    overall_classifications acc = classified_label <$> stats ∧
    (classifications acc).*1 = first_seen (q_label <$> queries) ∧
    (top_5_types_dict acc).*1 = first_seen (q_label <$> queries) ∧
    (avg_nearest_5_distances_dict acc).*1 = first_seen (q_label <$> queries) ∧
    NoDup (first_seen (q_label <$> queries)) ∧
    ∀ k,
      dd_get k (classifications acc) =
        (λ qs, classified_label qs.2)
          <$> filter (λ qs, q_label qs.1 = k) (zip queries stats) ∧
      dd_get k (top_5_types_dict acc) =
        concat ((λ qs, top_5_types qs.2)
                  <$> filter (λ qs, q_label qs.1 = k) (zip queries stats)) ∧
      dd_get k (avg_nearest_5_distances_dict acc) =
        (λ qs, avg_top_5_distances qs.2)
          <$> filter (λ qs, q_label qs.1 = k) (zip queries stats).
Proof.
  intros (stats & Hall & ->)%query_loop_inv. exists stats. split; [done|].
  pose proof (zip_stats_labels _ _ _ _ _ Hall) as Hlabels.
  rewrite record_fold_overall, record_fold_classifications, record_fold_top_5_types,
    record_fold_avg. simpl.
  split.
  { replace (λ qs : query_row * query_stats, classified_label qs.2)
      with (classified_label ∘ (snd : query_row * query_stats → query_stats)) by done.
    rewrite list_fmap_compose, snd_zip; [done|].
    by rewrite (Forall2_length _ _ _ Hall). }
  rewrite !(dd_fold_keys (λ qs : query_row * query_stats, q_label qs.1)), Hlabels.
  do 3 (split; [done|]). split; [apply first_seen_NoDup|].
  intros k.
  rewrite !(dd_fold_get (λ qs : query_row * query_stats, q_label qs.1)).
  rewrite !concat_singletons. done.
Qed.

Lemma aggregators_group_by_label_witness :
  ∃ acc,
    query_loop argsort_stable ["A"; "A"; "B"] ["c1"; "c2"; "c3"] accum_init three_queries
      = Ok acc ∧
    ∃ stats,
      Forall2 (λ q st, query_statistics argsort_stable ["A"; "A"; "B"]
                         ["c1"; "c2"; "c3"] (q_dists q) = Ok st) three_queries stats ∧
      overall_classifications acc = classified_label <$> stats ∧
      (classifications acc).*1 = first_seen (q_label <$> three_queries) ∧
      (top_5_types_dict acc).*1 = first_seen (q_label <$> three_queries) ∧
      (avg_nearest_5_distances_dict acc).*1 = first_seen (q_label <$> three_queries) ∧
      NoDup (first_seen (q_label <$> three_queries)) ∧
      ∀ k,
        dd_get k (classifications acc) =
          (λ qs, classified_label qs.2)
            <$> filter (λ qs, q_label qs.1 = k) (zip three_queries stats) ∧
        dd_get k (top_5_types_dict acc) =
          concat ((λ qs, top_5_types qs.2)
                    <$> filter (λ qs, q_label qs.1 = k) (zip three_queries stats)) ∧
        dd_get k (avg_nearest_5_distances_dict acc) =
          (λ qs, avg_top_5_distances qs.2)
            <$> filter (λ qs, q_label qs.1 = k) (zip three_queries stats).
Proof.
  destruct (query_loop argsort_stable ["A"; "A"; "B"] ["c1"; "c2"; "c3"] accum_init
              three_queries) as [acc|e] eqn:E; [|by vm_compute in E].
  exists acc. split; [done|].
  apply (aggregators_group_by_label argsort_stable ["A"; "A"; "B"]
           ["c1"; "c2"; "c3"] three_queries acc E).
Defined.

Example aggregators_small_run :
  (λ acc, (classifications acc, top_5_types_dict acc, overall_classifications acc))
    <$> query_loop argsort_stable ["A"; "A"; "B"] ["c1"; "c2"; "c3"] accum_init
          [ {| q_id := "s1"; q_label := "control_3m";
               q_dists := [Fin 1; Fin 2; Fin (1 # 2)] |};
            {| q_id := "s2"; q_label := "disease_3m";
               q_dists := [Fin (1 # 2); Fin 1; Fin 2] |};
            {| q_id := "s3"; q_label := "control_3m";
               q_dists := [Fin 3; Fin 1; Fin 2] |} ]
  = Ok ([("control_3m", ["A"; "A"]); ("disease_3m", ["A"])],
        [("control_3m", ["B"; "A"; "A"; "A"; "B"; "A"]);
         ("disease_3m", ["A"; "A"; "B"])],
        ["A"; "A"; "A"]).
Proof. reflexivity. Qed.

Lemma record_query_dd2 q st acc k t :
  dd2_get k t (nearest_dist_per_type_dict (record_query q st acc)) =
    dd2_get k t (nearest_dist_per_type_dict acc) ++
      (if decide (q_label q = k)
       then match min_distances st !! t with Some d => [d] | None => [] end
       else []).
Proof.
  unfold dd2_get. simpl. destruct (decide (q_label q = k)) as [<-|Hne].
  - rewrite lookup_insert_eq. simpl. rewrite lookup_union_with, lookup_fmap.
    destruct (nearest_dist_per_type_dict acc !! q_label q) as [m|]; simpl.
    + destruct (m !! t), (min_distances st !! t); simpl; by rewrite ?app_nil_r.
    + rewrite lookup_empty. by destruct (min_distances st !! t).
  - rewrite lookup_insert_ne by done. by rewrite app_nil_r.
Qed.

Lemma record_fold_dd2 (l : list (query_row * query_stats)) acc k t :
  dd2_get k t (nearest_dist_per_type_dict
                 (foldl (λ a qs, record_query qs.1 qs.2 a) acc l)) =
    dd2_get k t (nearest_dist_per_type_dict acc) ++
      omap (λ qs, min_distances qs.2 !! t) (filter (λ qs, q_label qs.1 = k) l).
Proof.
  revert acc. induction l as [|[q st] l IH]; intros acc; simpl.
  - by rewrite app_nil_r.
  - rewrite IH, record_query_dd2, filter_cons. simpl.
    destruct (decide (q_label q = k)); simpl; [|by rewrite app_nil_r].
    rewrite <- app_assoc. by destruct (min_distances st !! t).
Qed.

Lemma record_query_nonempty q st acc :
  lists_nonempty (nearest_dist_per_type_dict acc) →
  lists_nonempty (nearest_dist_per_type_dict (record_query q st acc)).
Proof.
  intros Hinv k m t ds. simpl.
  destruct (decide (q_label q = k)) as [<-|Hne]; [|rewrite lookup_insert_ne by done;
                                                   apply Hinv].
  rewrite lookup_insert_eq. intros [= <-].
  rewrite lookup_union_with, lookup_fmap.
  destruct (nearest_dist_per_type_dict acc !! q_label q) as [m|] eqn:Em; simpl.
  - destruct (m !! t) as [old|] eqn:Et; destruct (min_distances st !! t) as [d|];
      simpl; intros [=]; subst.
    + by destruct old.
    + by eapply Hinv.
    + done.
  - rewrite lookup_empty.
    destruct (min_distances st !! t) as [d|]; simpl; intros [=]; by subst.
Qed.

Lemma record_fold_nonempty (l : list (query_row * query_stats)) acc :
  lists_nonempty (nearest_dist_per_type_dict acc) →
  lists_nonempty (nearest_dist_per_type_dict
                    (foldl (λ a qs, record_query qs.1 qs.2 a) acc l)).
Proof.
  revert acc. induction l as [|[q st] l IH]; intros acc Hinv; [done|].
  simpl. by apply IH, record_query_nonempty.
Qed.

Lemma record_fold_groups (l : list (query_row * query_stats)) acc k :
  is_Some (nearest_dist_per_type_dict
             (foldl (λ a qs, record_query qs.1 qs.2 a) acc l) !! k) ↔
  is_Some (nearest_dist_per_type_dict acc !! k) ∨ k ∈ (λ qs, q_label qs.1) <$> l.
Proof.
  revert acc. induction l as [|[q st] l IH]; intros acc; simpl.
  - rewrite elem_of_nil. tauto.
  - rewrite IH. simpl. rewrite elem_of_cons.
    destruct (decide (q_label q = k)) as [<-|Hne].
    + rewrite lookup_insert_eq. split; [by right; left | by left].
    + rewrite lookup_insert_ne by done. split; [tauto|].
      intros [?|[?|?]]; [by left | congruence | by right].
Qed.

Lemma filter_zip_fst_length {A B} (P : A → Prop) `{!∀ x, Decision (P x)}
    (l : list A) (k : list B) :
  length l = length k →
  length (filter (λ p, P p.1) (zip l k)) = length (filter P l).
Proof.
  revert k. induction l as [|x l IH]; intros [|y k] Hlen; simpl in *; try done.
  rewrite !filter_cons. simpl. destruct (decide (P x)); simpl; rewrite IH; auto.
Qed.

Lemma omap_length_all {A B} (f : A → option B) (l : list A) :
  (∀ x, x ∈ l → is_Some (f x)) → length (omap f l) = length l.
Proof.
  induction l as [|x l IH]; intros H; [done|]. simpl.
  destruct (H x) as [y ->]; [left|]. simpl. f_equal. apply IH.
  intros z Hz. apply H. by right.
Qed.

Lemma omap_none {A B} (f : A → option B) (l : list A) :
  (∀ x, x ∈ l → f x = None) → omap f l = [].
Proof.
  induction l as [|x l IH]; intros H; [done|]. simpl.
  rewrite (H x) by left. apply IH. intros z Hz. apply H. by right.
Qed.

Lemma min_distances_keys argsort db_labels db_cell_ids dists st t :
  argsort_contract argsort →
  length db_labels = length dists →
  query_statistics argsort db_labels db_cell_ids dists = Ok st →
  is_Some (min_distances st !! t) ↔ t ∈ db_labels.
Proof.
  intros Hok Hlen Hst.
  destruct (query_statistics_inv_full _ _ _ _ _ Hst)
    as (sd & sl & sc & nearest & Hsd & Hsl & _ & _ & _ & _ & _ & _ & _ & _
        & _ & _ & _ & _ & _ & _ & -> & _).
  destruct (ranking_aligned argsort Hok dists dists sd eq_refl Hsd) as (Hlsd & _ & _).
  destruct (ranking_aligned argsort Hok db_labels dists sl Hlen Hsl)
    as (Hlsl & Hpsl & _).
  rewrite nearest_dist_is_Some by lia. by rewrite Hpsl.
Qed.

(** X6. The dictionary of nearest distances per query group and database
    label.  After a run of the loop of [main] over rows as long as the
    database, the dictionary has one entry per query group; under a group
    and a database label lies one nearest distance per query of the group,
    in query order; a label that is not in the database has no distances;
    and no list stored in the dictionary is empty, so that the mean taken
    for the bar chart is never the mean of nothing. *)
Theorem nearest_table_per_group argsort db_labels db_cell_ids queries acc :
  argsort_contract argsort →
  (∀ q, q ∈ queries → length (q_dists q) = length db_labels) →
  query_loop argsort db_labels db_cell_ids accum_init queries = Ok acc →
  (∀ k, is_Some (nearest_dist_per_type_dict acc !! k) ↔ k ∈ q_label <$> queries) ∧
  lists_nonempty (nearest_dist_per_type_dict acc) ∧
  ∃ stats,
    Forall2 (λ q st, query_statistics argsort db_labels db_cell_ids (q_dists q) = Ok st)
      queries stats ∧
    ∀ k t,
      dd2_get k t (nearest_dist_per_type_dict acc) =
        omap (λ qs, min_distances qs.2 !! t)
          (filter (λ qs, q_label qs.1 = k) (zip queries stats)) ∧
      (t ∈ db_labels →
         length (dd2_get k t (nearest_dist_per_type_dict acc)) =
           length (filter (λ q, q_label q = k) queries)) ∧
      (t ∉ db_labels → dd2_get k t (nearest_dist_per_type_dict acc) = []).
Proof.
  intros Hok Hq (stats & Hall & ->)%query_loop_inv.
  split; [|split].
  - intros k. rewrite record_fold_groups. simpl. rewrite lookup_empty.
    rewrite (zip_stats_labels _ _ _ _ _ Hall). split; [|by right].
    intros [[? [=]]|?]; done.
  - apply record_fold_nonempty. intros k m t ds. simpl. by rewrite lookup_empty.
  - exists stats. split; [done|]. intros k t.
    rewrite record_fold_dd2.
    replace (dd2_get k t (nearest_dist_per_type_dict accum_init)) with (@nil npfloat)
      by (unfold dd2_get; simpl; by rewrite lookup_empty).
    rewrite app_nil_l.
    assert (∀ qs, qs ∈ filter (λ qs : query_row * query_stats, q_label qs.1 = k)
                         (zip queries stats) →
              is_Some (min_distances qs.2 !! t) ↔ t ∈ db_labels) as Hkeys.
    { intros [q st] [_ Hin]%list_elem_of_filter.
      destruct (zip_stats_elem _ _ _ _ _ _ _ Hall Hin) as [Hqin Hst].
      apply (min_distances_keys argsort db_labels db_cell_ids (q_dists q) st t Hok);
        [|done]. symmetry. by apply Hq. }
    split; [done|]. split.
    + intros Ht. rewrite omap_length_all.
      * exact (filter_zip_fst_length (λ q, q_label q = k) queries stats
                 (Forall2_length _ _ _ Hall)).
      * intros qs Hqs. by apply Hkeys.
    + intros Ht. apply omap_none. intros qs Hqs.
      apply eq_None_not_Some. by rewrite (Hkeys qs Hqs).
Qed.

Lemma nearest_table_per_group_witness :
  ∃ acc,
    query_loop argsort_stable ["A"; "A"; "B"] ["c1"; "c2"; "c3"] accum_init
      three_queries = Ok acc ∧
    (∀ k, is_Some (nearest_dist_per_type_dict acc !! k) ↔
          k ∈ q_label <$> three_queries) ∧
    lists_nonempty (nearest_dist_per_type_dict acc) ∧
    ∃ stats,
      Forall2 (λ q st, query_statistics argsort_stable ["A"; "A"; "B"]
                         ["c1"; "c2"; "c3"] (q_dists q) = Ok st)
        three_queries stats ∧
      ∀ k t,
        dd2_get k t (nearest_dist_per_type_dict acc) =
          omap (λ qs, min_distances qs.2 !! t)
            (filter (λ qs, q_label qs.1 = k) (zip three_queries stats)) ∧
        (t ∈ ["A"; "A"; "B"] →
           length (dd2_get k t (nearest_dist_per_type_dict acc)) =
             length (filter (λ q, q_label q = k) three_queries)) ∧
        (t ∉ ["A"; "A"; "B"] → dd2_get k t (nearest_dist_per_type_dict acc) = []).
Proof.
  destruct (query_loop argsort_stable ["A"; "A"; "B"] ["c1"; "c2"; "c3"] accum_init
              three_queries) as [acc|e] eqn:E; [|by vm_compute in E].
  exists acc. split; [done|].
  apply (nearest_table_per_group argsort_stable ["A"; "A"; "B"] ["c1"; "c2"; "c3"]
           three_queries acc argsort_stable_contract three_queries_rows E).
Defined.

Example nearest_table_small_run :
  (λ acc, (dd2_get "control_3m" "A" (nearest_dist_per_type_dict acc),
           dd2_get "control_3m" "B" (nearest_dist_per_type_dict acc),
           dd2_get "disease_3m" "A" (nearest_dist_per_type_dict acc),
           dd2_get "disease_3m" "C" (nearest_dist_per_type_dict acc)))
    <$> query_loop argsort_stable ["A"; "A"; "B"] ["c1"; "c2"; "c3"] accum_init
          three_queries
  = Ok ([Fin 1; Fin 1], [Fin (1 # 2); Fin 2], [Fin (1 # 2)], []).
Proof. reflexivity. Qed.

(** ** Enrichment, further *)

Lemma enriched_loop_raises count_list (d : gmap string (list string)) threshold
    keep hits e :
  enriched_loop count_list d threshold keep hits = Raise e →
  e = IndexError ∧
  ∃ item, item ∈ count_list ∧ threshold < item.1.2 ∧
          length (default [] (d !! item.1.1)) < 5.
Proof.
  revert keep hits. induction count_list as [|item rest IH]; intros keep hits; [done|].
  simpl. destruct (Nat.ltb_spec threshold item.1.2) as [Hgt|Hle].
  - destruct (Nat.ltb_spec (length (default [] (d !! item.1.1))) 5) as [Hlt|Hge].
    + intros [= <-]. split; [done|]. exists item. split; [left | done].
    + intros (-> & it & Hin & H)%IH. split; [done|]. exists it. split; [by right | done].
  - intros (-> & it & Hin & H)%IH. split; [done|]. exists it. split; [by right | done].
Qed.

Lemma enriched_loop_short count_list (d : gmap string (list string)) threshold
    keep hits item :
  item ∈ count_list → threshold < item.1.2 →
  length (default [] (d !! item.1.1)) < 5 →
  enriched_loop count_list d threshold keep hits = Raise IndexError.
Proof.
  intros Hin Hgt Hshort. revert keep hits.
  induction count_list as [|it rest IH]; intros keep hits.
  { by apply elem_of_nil in Hin. }
  simpl. apply elem_of_cons in Hin as [<-|Hin].
  - destruct (Nat.ltb_spec threshold item.1.2); [|lia].
    destruct (Nat.ltb_spec (length (default [] (d !! item.1.1))) 5); [done | lia].
  - destruct (threshold <? it.1.2); [|by apply IH].
    destruct (length (default [] (d !! it.1.1)) <? 5); [done | by apply IH].
Qed.

(** X7. When the selector fails.  The selection completes exactly when every
    item above the threshold has at least five cells in the dictionary; in
    every other case it raises [IndexError], also for an identifier the
    dictionary does not hold, which reads as the empty list. *)
Theorem enrichment_fails_only_on_short_entry
    (count_list : list (string * nat * nat))
    (top_5_nearest_cells_d : gmap string (list string)) (threshold : nat) :
  (is_Ok (enriched_brain_cortex_plot_and_data count_list top_5_nearest_cells_d threshold)
   ↔ ∀ item, item ∈ count_list → threshold < item.1.2 →
       5 ≤ length (default [] (top_5_nearest_cells_d !! item.1.1))) ∧
  (∀ e, enriched_brain_cortex_plot_and_data count_list top_5_nearest_cells_d threshold
          = Raise e → e = IndexError) ∧
  (∀ item, item ∈ count_list → threshold < item.1.2 →
     top_5_nearest_cells_d !! item.1.1 = None →
     enriched_brain_cortex_plot_and_data count_list top_5_nearest_cells_d threshold
       = Raise IndexError).
Proof.
  unfold enriched_brain_cortex_plot_and_data. split; [split|split].
  - intros [r Hr] item Hin Hgt.
    destruct (decide (5 ≤ length (default [] (top_5_nearest_cells_d !! item.1.1))))
      as [|Hshort]; [done|].
    rewrite (enriched_loop_short _ _ _ _ _ item) in Hr; [done..|lia].
  - intros Hall. rewrite enriched_loop_spec by done. by eexists.
  - intros e He. by apply enriched_loop_raises in He as [-> _].
  - intros item Hin Hgt Hnone.
    apply (enriched_loop_short _ _ _ _ _ item); [done..|].
    rewrite Hnone. simpl. lia.
Qed.

Example enrichment_missing_identifier :
  enriched_brain_cortex_plot_and_data [("s1", 80, 0)] ∅ 70 = Raise IndexError.
Proof. reflexivity. Qed.

(** ** Query identifiers *)

Lemma record_fold_cells_some (l : list (query_row * query_stats)) acc id :
  id ∈ (λ qs, q_id qs.1) <$> l →
  ∃ q st, (q, st) ∈ l ∧ q_id q = id ∧
    top_5_nearest_cells (foldl (λ a qs, record_query qs.1 qs.2 a) acc l) !! id =
      Some (top_5_cells st).
Proof.
  induction l as [|[q st] l IH] using rev_ind.
  { by intros ?%elem_of_nil. }
  rewrite fmap_app, elem_of_app, foldl_snoc. simpl.
  destruct (decide (q_id q = id)) as [<-|Hne].
  - intros _. exists q, st. rewrite lookup_insert_eq.
    split; [|done]. apply elem_of_app. right. left.
  - rewrite lookup_insert_ne by done.
    intros [Hin|Hin%list_elem_of_singleton]; [|done].
    destruct (IH Hin) as (q' & st' & Hin' & Hid & Hlk).
    exists q', st'. split; [|done]. apply elem_of_app. by left.
Qed.

Lemma record_fold_cells_last (l1 l2 : list (query_row * query_stats)) acc q st :
  q_id q ∉ (λ qs, q_id qs.1) <$> l2 →
  top_5_nearest_cells
    (foldl (λ a qs, record_query qs.1 qs.2 a) acc (l1 ++ (q, st) :: l2)) !! q_id q =
    Some (top_5_cells st).
Proof.
  intros Hnot. rewrite foldl_app. simpl.
  rewrite record_fold_cells_other by done. simpl. by rewrite lookup_insert_eq.
Qed.

Lemma record_fold_cells_dom (l : list (query_row * query_stats)) acc id :
  is_Some (top_5_nearest_cells
             (foldl (λ a qs, record_query qs.1 qs.2 a) acc l) !! id) ↔
  is_Some (top_5_nearest_cells acc !! id) ∨ id ∈ (λ qs, q_id qs.1) <$> l.
Proof.
  destruct (decide (id ∈ (λ qs : query_row * query_stats, q_id qs.1) <$> l))
    as [Hin|Hnot].
  - destruct (record_fold_cells_some l acc id Hin) as (q & st & _ & _ & ->).
    split; [by right | by eexists].
  - rewrite record_fold_cells_other by done. tauto.
Qed.

Lemma stats_cells_length argsort db_labels db_cell_ids dists st :
  argsort_contract argsort →
  query_statistics argsort db_labels db_cell_ids dists = Ok st →
  length (sorted_labels st) = length dists ∧
  length (sorted_cell_ids st) = length dists ∧
  length (sorted_distances st) = length dists ∧
  length (top_5_cells st) = 5 `min` length dists ∧
  length (top_5_types st) = 5 `min` length dists ∧
  brain_cortex_count st ≤ length dists.
Proof.
  intros Hok Hst.
  destruct (query_statistics_inv_full _ _ _ _ _ Hst)
    as (sd & sl & sc & nearest & Hsd & Hsl & Hsc & _ & _ & -> & -> & -> & -> & ->
        & _ & _ & _ & _ & -> & _).
  apply np_take_inv in Hsd as [Hlsd _]. apply np_take_inv in Hsl as [Hlsl _].
  apply np_take_inv in Hsc as [Hlsc _].
  rewrite (ranking_length argsort Hok) in Hlsd, Hlsl, Hlsc.
  rewrite !length_take.
  pose proof (occurrences_disjoint brain cortex (take 100 sl)) as Hocc.
  rewrite length_take in Hocc. repeat split; try lia.
  etrans; [apply Hocc; done|]. lia.
Qed.

(** With rows as long as the database, the selector of [main] finds five
    cells under every identifier it selects, repeated identifiers
    included. *)
Lemma main_enrichment_completes argsort db_labels db_cell_ids queries stats :
  argsort_contract argsort →
  (∀ q, q ∈ queries → length (q_dists q) = length db_labels) →
  Forall2 (λ q st, query_statistics argsort db_labels db_cell_ids (q_dists q) = Ok st)
    queries stats →
  is_Ok (enriched_brain_cortex_plot_and_data
           (brain_cortex_counts
              (foldl (λ a qs, record_query qs.1 qs.2 a) accum_init (zip queries stats)))
           (top_5_nearest_cells
              (foldl (λ a qs, record_query qs.1 qs.2 a) accum_init (zip queries stats)))
           70).
Proof.
  intros Hok Hq Hall. unfold enriched_brain_cortex_plot_and_data.
  rewrite enriched_loop_spec; [by eexists|].
  intros item Hin Hgt. rewrite record_fold_counts in Hin. simpl in Hin.
  apply list_elem_of_fmap in Hin as ([q st] & -> & Hin). simpl in *.
  destruct (zip_stats_elem _ _ _ _ _ _ _ Hall Hin) as [Hqin Hst].
  destruct (stats_cells_length _ _ _ _ _ Hok Hst) as (_ & _ & _ & _ & _ & Hcount).
  rewrite (Hq q Hqin) in Hcount.
  destruct (record_fold_cells_some (zip queries stats) accum_init (q_id q))
    as (q' & st' & Hin' & Hid & ->).
  { apply list_elem_of_fmap. by exists (q, st). }
  destruct (zip_stats_elem _ _ _ _ _ _ _ Hall Hin') as [Hqin' Hst'].
  destruct (stats_cells_length _ _ _ _ _ Hok Hst') as (_ & _ & _ & Hcells & _).
  rewrite (Hq q' Hqin') in Hcells. simpl. lia.
Qed.

Lemma Forall2_zip_app_inv {A B} (P : A → B → Prop) (l1 l2 : list A) (k : list B) :
  Forall2 P (l1 ++ l2) k →
  ∃ k1 k2, k = k1 ++ k2 ∧ Forall2 P l1 k1 ∧ Forall2 P l2 k2 ∧
           zip (l1 ++ l2) k = zip l1 k1 ++ zip l2 k2.
Proof.
  intros (k1 & k2 & H1 & H2 & ->)%Forall2_app_inv_l.
  exists k1, k2. repeat (split; [done|]).
  apply zip_with_app. by eapply Forall2_length.
Qed.

(** X8. The dictionary of nearest cells is keyed by the query identifier.
    After a run of the loop it holds an entry for exactly the identifiers
    met, and under an identifier lie the (at most five) nearest cells of the
    last query that carries it: an earlier query with the same identifier
    is overwritten, while the list of counts keeps one item per query. *)
Theorem repeated_identifier_keeps_last argsort db_labels db_cell_ids
    (before after : list query_row) (q : query_row) acc :
  query_loop argsort db_labels db_cell_ids accum_init (before ++ q :: after) = Ok acc →
  q_id q ∉ q_id <$> after →
  (∃ st, query_statistics argsort db_labels db_cell_ids (q_dists q) = Ok st ∧
         top_5_nearest_cells acc !! q_id q = Some (take 5 (sorted_cell_ids st))) ∧
  (∀ id, is_Some (top_5_nearest_cells acc !! id) ↔
         id ∈ q_id <$> (before ++ q :: after)) ∧
  (brain_cortex_counts acc).*1.*1 = q_id <$> (before ++ q :: after).
Proof.
  intros (stats & Hall & ->)%query_loop_inv Hnot.
  pose proof (zip_stats_ids _ _ _ _ _ Hall) as Hids.
  split; [|split].
  - apply Forall2_zip_app_inv in Hall as (s1 & s2 & -> & H1 & H2 & ->).
    inversion H2 as [|? st ? stats2 Hst Hafter]; subst.
    exists st. split; [done|]. simpl.
    rewrite record_fold_cells_last.
    + by apply query_statistics_inv in Hst as (? & ? & _ & _ & _ & <- & -> & _).
    + by rewrite (zip_stats_ids _ _ _ _ _ Hafter).
  - intros id. rewrite record_fold_cells_dom, Hids. simpl. rewrite lookup_empty.
    split; [|by right]. intros [[? [=]]|?]; done.
  - rewrite record_fold_counts. simpl. rewrite <- Hids, <- !list_fmap_compose. done.
Qed.

Lemma repeated_identifier_keeps_last_witness :
  ∃ acc,
    query_loop argsort_stable ["A"; "A"; "B"] ["c1"; "c2"; "c3"] accum_init
      ([ {| q_id := "s1"; q_label := "control_3m";
            q_dists := [Fin 1; Fin 2; Fin (1 # 2)] |} ] ++
       {| q_id := "s1"; q_label := "disease_3m";
          q_dists := [Fin (1 # 2); Fin 1; Fin 2] |} :: []) = Ok acc ∧
    ("s1" ∉ q_id <$> ([] : list query_row)) ∧
    (∃ st, query_statistics argsort_stable ["A"; "A"; "B"] ["c1"; "c2"; "c3"]
             [Fin (1 # 2); Fin 1; Fin 2] = Ok st ∧
           top_5_nearest_cells acc !! "s1" = Some (take 5 (sorted_cell_ids st))) ∧
    (∀ id, is_Some (top_5_nearest_cells acc !! id) ↔ id ∈ ["s1"; "s1"]) ∧
    (brain_cortex_counts acc).*1.*1 = ["s1"; "s1"].
Proof.
  destruct (query_loop argsort_stable ["A"; "A"; "B"] ["c1"; "c2"; "c3"] accum_init
      ([ {| q_id := "s1"; q_label := "control_3m";
            q_dists := [Fin 1; Fin 2; Fin (1 # 2)] |} ] ++
       {| q_id := "s1"; q_label := "disease_3m";
          q_dists := [Fin (1 # 2); Fin 1; Fin 2] |} :: [])) as [acc|e] eqn:E;
    [|by vm_compute in E].
  assert ("s1" ∉ q_id <$> ([] : list query_row)) as Hnot by apply not_elem_of_nil.
  exists acc. split; [done|]. split; [done|].
  exact (repeated_identifier_keeps_last argsort_stable ["A"; "A"; "B"]
           ["c1"; "c2"; "c3"] _ _ _ acc E Hnot).
Defined.

Example repeated_identifier_run :
  (λ acc, (top_5_nearest_cells acc !! "s1", brain_cortex_counts acc))
    <$> query_loop argsort_stable ["A"; "A"; "B"] ["c1"; "c2"; "c3"] accum_init
          [ {| q_id := "s1"; q_label := "control_3m";
               q_dists := [Fin 1; Fin 2; Fin (1 # 2)] |};
            {| q_id := "s1"; q_label := "disease_3m";
               q_dists := [Fin (1 # 2); Fin 1; Fin 2] |} ]
  = Ok (Some ["c1"; "c2"; "c3"], [("s1", 0, 0); ("s1", 0, 0)]).
Proof. reflexivity. Qed.

(** ** The brain/cortex lists of [main] *)

Lemma record_fold_flags (l : list (query_row * query_stats)) acc :
  brain_cortex_in_top_100 (foldl (λ a qs, record_query qs.1 qs.2 a) acc l) =
    brain_cortex_in_top_100 acc ++
      ((λ qs, q_id qs.1) <$> filter (λ qs, in_top_100 qs.2) l) ∧
  brain_cortex_in_top_10 (foldl (λ a qs, record_query qs.1 qs.2 a) acc l) =
    brain_cortex_in_top_10 acc ++
      ((λ qs, q_id qs.1) <$> filter (λ qs, in_top_10 qs.2) l) ∧
  brain_cortex_in_top_5 (foldl (λ a qs, record_query qs.1 qs.2 a) acc l) =
    brain_cortex_in_top_5 acc ++
      ((λ qs, q_id qs.1) <$> filter (λ qs, in_top_5 qs.2) l) ∧
  brain_cortex_in_top_1 (foldl (λ a qs, record_query qs.1 qs.2 a) acc l) =
    brain_cortex_in_top_1 acc ++
      ((λ qs, q_id qs.1) <$> filter (λ qs, in_top_1 qs.2) l).
Proof.
  revert acc. induction l as [|[q st] l IH]; intros acc.
  - simpl. by rewrite !app_nil_r.
  - cbn [foldl]. destruct (IH (record_query (q, st).1 (q, st).2 acc))
      as (-> & -> & -> & ->).
    rewrite !filter_cons. cbn [fst snd record_query brain_cortex_in_top_100
      brain_cortex_in_top_10 brain_cortex_in_top_5 brain_cortex_in_top_1].
    destruct (in_top_100 st), (in_top_10 st), (in_top_5 st), (in_top_1 st);
      simpl; rewrite <- ?app_assoc, ?app_nil_r; done.
Qed.

Lemma filter_sublist_impl {A} (P Q : A → Prop) `{!∀ x, Decision (P x)}
    `{!∀ x, Decision (Q x)} (l : list A) :
  (∀ x, x ∈ l → P x → Q x) → filter P l `sublist_of` filter Q l.
Proof.
  induction l as [|x l IH]; intros Himp; [done|].
  assert (filter P l `sublist_of` filter Q l) as Hrec.
  { apply IH. intros y Hy. apply Himp. by right. }
  rewrite !filter_cons. destruct (decide (P x)) as [HP|HP].
  - rewrite decide_True by (apply Himp; [left | done]). by apply sublist_skip.
  - destruct (decide (Q x)); [by apply sublist_cons | done].
Qed.

Lemma filter_iff_elem {A} (P Q : A → Prop) `{!∀ x, Decision (P x)}
    `{!∀ x, Decision (Q x)} (l : list A) :
  (∀ x, x ∈ l → P x ↔ Q x) → filter P l = filter Q l.
Proof.
  induction l as [|x l IH]; intros Hiff; [done|].
  rewrite !filter_cons, IH by (intros y Hy; apply Hiff; by right).
  destruct (decide (P x)) as [HP|HP], (decide (Q x)) as [HQ|HQ]; try done;
    exfalso; apply (Hiff x) in HP || apply (Hiff x) in HQ; try done; left.
Qed.

Lemma enriched_Ok_inv count_list (d : gmap string (list string)) threshold keep hits :
  enriched_brain_cortex_plot_and_data count_list d threshold = Ok (keep, hits) →
  keep = (λ it, it.1.1) <$> filter (λ it, threshold < it.1.2) count_list ∧
  hits = (λ it : string * nat * nat, (it.1.1, take 5 (default [] (d !! it.1.1))))
           <$> filter (λ it, threshold < it.1.2) count_list.
Proof.
  unfold enriched_brain_cortex_plot_and_data. intros Hr.
  rewrite enriched_loop_spec in Hr; [by injection Hr as <- <-|].
  intros item Hin Hgt.
  destruct (decide (5 ≤ length (default [] (d !! item.1.1)))) as [|Hshort]; [done|].
  rewrite (enriched_loop_short _ _ _ _ _ item) in Hr; [done..|lia].
Qed.

(** X9. The four lists of brain/cortex queries that the loop of [main]
    collects are nested: every query listed for the nearest neighbour is
    listed for the top 5, those for the top 10, those for the top 100, and
    all follow the order of the queries.  The top-100 list holds exactly the
    queries with a positive brain/cortex count, and every query the
    enrichment selector keeps is in it. *)
Theorem brain_cortex_lists_nested argsort db_labels db_cell_ids queries acc :
  query_loop argsort db_labels db_cell_ids accum_init queries = Ok acc →
  brain_cortex_in_top_1 acc `sublist_of` brain_cortex_in_top_5 acc ∧
  brain_cortex_in_top_5 acc `sublist_of` brain_cortex_in_top_10 acc ∧
  brain_cortex_in_top_10 acc `sublist_of` brain_cortex_in_top_100 acc ∧
  brain_cortex_in_top_100 acc `sublist_of` q_id <$> queries ∧
  brain_cortex_in_top_100 acc =
    (λ it, it.1.1) <$> filter (λ it, 0 < it.1.2) (brain_cortex_counts acc) ∧
  (∀ keep hits,
     enriched_brain_cortex_plot_and_data
       (brain_cortex_counts acc) (top_5_nearest_cells acc) 70 = Ok (keep, hits) →
     keep `sublist_of` brain_cortex_in_top_100 acc).
Proof.
  intros (stats & Hall & ->)%query_loop_inv.
  set (l := zip queries stats).
  destruct (record_fold_flags l accum_init) as (-> & -> & -> & ->).
  rewrite record_fold_counts. simpl.
  assert (∀ qs, qs ∈ l →
            (in_top_1 qs.2 → in_top_5 qs.2) ∧ (in_top_5 qs.2 → in_top_10 qs.2) ∧
            (in_top_10 qs.2 → in_top_100 qs.2) ∧
            (in_top_100 qs.2 ↔ 0 < brain_cortex_count qs.2)) as Hflags.
  { intros [q st] Hin. simpl.
    destruct (zip_stats_elem _ _ _ _ _ _ _ Hall Hin) as [_ Hst].
    destruct (query_statistics_inv_full _ _ _ _ _ Hst)
      as (sd & sl & sc & nearest & _ & _ & _ & Hn & _ & _ & _ & _ & _ & _
          & -> & -> & -> & -> & -> & _).
    apply (window_flags sl nearest Hn). }
  assert ((λ qs : query_row * query_stats, q_id qs.1)
            <$> filter (λ qs, in_top_100 qs.2) l
          = (λ it : string * nat * nat, it.1.1)
              <$> filter (λ it, 0 < it.1.2)
                    ((λ qs, (q_id qs.1, brain_cortex_count qs.2, bm_osteocyte_count qs.2))
                       <$> l)) as Hcounts.
  { rewrite filter_fmap, <- list_fmap_compose. simpl.
    f_equal. apply filter_iff_elem. intros qs Hqs. by apply Hflags. }
  split; [|split; [|split; [|split; [|split]]]].
  - apply fmap_sublist, filter_sublist_impl. intros qs Hqs. by apply Hflags.
  - apply fmap_sublist, filter_sublist_impl. intros qs Hqs. by apply Hflags.
  - apply fmap_sublist, filter_sublist_impl. intros qs Hqs. by apply Hflags.
  - rewrite <- (zip_stats_ids _ _ _ _ _ Hall). apply fmap_sublist, sublist_filter.
  - exact Hcounts.
  - intros keep hits [-> _]%enriched_Ok_inv. rewrite Hcounts.
    apply fmap_sublist, filter_sublist_impl. intros it _. lia.
Qed.

Lemma brain_cortex_lists_nested_witness :
  ∃ acc,
    query_loop argsort_stable [brain; "A"; cortex] ["c1"; "c2"; "c3"] accum_init
      three_queries = Ok acc ∧
    brain_cortex_in_top_1 acc `sublist_of` brain_cortex_in_top_5 acc ∧
    brain_cortex_in_top_5 acc `sublist_of` brain_cortex_in_top_10 acc ∧
    brain_cortex_in_top_10 acc `sublist_of` brain_cortex_in_top_100 acc ∧
    brain_cortex_in_top_100 acc `sublist_of` q_id <$> three_queries ∧
    brain_cortex_in_top_100 acc =
      (λ it, it.1.1) <$> filter (λ it, 0 < it.1.2) (brain_cortex_counts acc) ∧
    (∀ keep hits,
       enriched_brain_cortex_plot_and_data
         (brain_cortex_counts acc) (top_5_nearest_cells acc) 70 = Ok (keep, hits) →
       keep `sublist_of` brain_cortex_in_top_100 acc).
Proof.
  destruct (query_loop argsort_stable [brain; "A"; cortex] ["c1"; "c2"; "c3"]
              accum_init three_queries) as [acc|e] eqn:E; [|by vm_compute in E].
  exists acc. split; [done|].
  apply (brain_cortex_lists_nested argsort_stable [brain; "A"; cortex]
           ["c1"; "c2"; "c3"] three_queries acc E).
Defined.

Example brain_cortex_lists_run :
  (λ acc, (brain_cortex_in_top_1 acc, brain_cortex_in_top_5 acc,
           brain_cortex_in_top_100 acc, brain_cortex_counts acc))
    <$> query_loop argsort_stable [brain; "A"; "B"] ["c1"; "c2"; "c3"] accum_init
          three_queries
  = Ok (["s2"], ["s1"; "s2"; "s3"], ["s1"; "s2"; "s3"],
        [("s1", 1, 0); ("s2", 1, 0); ("s3", 1, 0)]).
Proof. reflexivity. Qed.

(** ** Majority classification, further *)

Lemma classify_most_frequent (w : list string) l :
  classify w = Ok l → ∀ l', occurrences l' w ≤ occurrences l w.
Proof.
  intros Hcl. destruct (classify_keyed w) as (idx & _ & Hcl').
  rewrite Hcl in Hcl'. symmetry in Hcl'.
  apply bind_Ok in Hcl' as (xv & Hmax & [= <-]).
  unfold py_max in Hmax.
  set (g := λ xv : string * list string,
               ((length xv.2, (- Z.of_nat (idx xv.1))%Z), xv)) in *.
  destruct (groupby_sorted_inv _ (sorted_sorted w)) as [_ Hlen].
  assert (∀ k, k ∈ (groupby (sorted w)).*1 ↔ k ∈ w) as Hkeys.
  { intros k. rewrite groupby_keys_elem. by rewrite sorted_perm. }
  destruct (groupby (sorted w)) as [|xv0 gs] eqn:Egs; [done|].
  rewrite fmap_cons in Hmax. injection Hmax as Hmax.
  destruct (max_from_spec (g xv0) (g <$> gs)) as [Hin Hbest].
  change (g xv0 :: (g <$> gs)) with (g <$> xv0 :: gs) in Hin, Hbest.
  apply list_elem_of_fmap in Hin as ([l grp] & Hm & Hin).
  rewrite Hm in Hmax. simpl in Hmax. subst xv. simpl.
  assert (length grp = occurrences l w) as Hgrp.
  { rewrite (Hlen l grp Hin). apply occurrences_perm, sorted_perm. }
  intros l'. destruct (decide (l' ∈ w)) as [Hl'|Hl'].
  - apply Hkeys, list_elem_of_fmap in Hl' as ([k' grp'] & -> & Hin').
    assert (length grp' = occurrences k' w) as Hgrp'.
    { rewrite (Hlen k' grp' Hin'). apply occurrences_perm, sorted_perm. }
    specialize (Hbest (g (k', grp'))). rewrite Hm in Hbest.
    apply not_true_iff_false in Hbest; [|by apply list_elem_of_fmap_2].
    rewrite key_lt_spec in Hbest. simpl in Hbest |- *. lia.
  - destruct (occurrences l' w) eqn:E; [lia|].
    exfalso. apply Hl', occurrences_pos. lia.
Qed.

(** X10. [classify] fails exactly on the empty window, with [ValueError].
    When one label occurs strictly more often than every other, it is the
    result, whatever the order of the window: the rank order only decides
    between labels that tie. *)
Theorem classify_strict_majority (w : list string) :
  (classify w = Raise ValueError ↔ w = []) ∧
  (∀ e, classify w = Raise e → e = ValueError) ∧
  (∀ l w', l ∈ w →
     (∀ l', l' ≠ l → occurrences l' w < occurrences l w) →
     w' ≡ₚ w → classify w' = Ok l).
Proof.
  split; [|split].
  - split; [|by intros ->].
    intros Hraise. destruct w as [|x w]; [done|].
    destruct (classify_Ok (x :: w)) as [l Hl]; [done|]. congruence.
  - intros e He. destruct w as [|x w]; [by injection He as <-|].
    destruct (classify_Ok (x :: w)) as [l Hl]; [done|]. congruence.
  - intros l w' Hin Hstrict Hperm.
    destruct (classify_Ok w') as [l2 Hl2].
    { intros ->. apply Permutation_nil_l in Hperm. subst. by apply elem_of_nil in Hin. }
    pose proof (classify_most_frequent w' l2 Hl2 l) as Hmost.
    rewrite !(occurrences_perm _ w' w Hperm) in Hmost.
    destruct (decide (l2 = l)) as [->|Hne]; [done|].
    specialize (Hstrict l2 Hne). lia.
Qed.

Example classify_strict_majority_any_order :
  classify ["B"; "A"; "A"] = Ok "A" ∧ classify ["A"; "B"; "A"] = Ok "A" ∧
  classify ["A"; "A"; "B"] = Ok "A".
Proof. repeat split. Qed.

(** X11. A database of at most 100 rows in which one label is strictly
    the most frequent: every query is classified as that label, whatever
    its distances and however [argsort] orders equal distances, because
    the top-100 window then holds the whole database. *)
Theorem small_database_single_class argsort db_labels db_cell_ids dists st l :
  argsort_contract argsort →
  length db_labels = length dists →
  length db_labels ≤ 100 →
  l ∈ db_labels →
  (∀ l', l' ≠ l → occurrences l' db_labels < occurrences l db_labels) →
  query_statistics argsort db_labels db_cell_ids dists = Ok st →
  classified_label st = l.
Proof.
  intros Hok Hlen Hsmall Hin Hstrict Hst.
  destruct (query_statistics_inv_full _ _ _ _ _ Hst)
    as (sd & sl & sc & nearest & _ & Hsl & _ & _ & Hcl & _).
  destruct (ranking_aligned argsort Hok db_labels dists sl Hlen Hsl)
    as (Hlsl & Hpsl & _).
  rewrite take_ge in Hcl by lia.
  destruct (classify_Ok sl) as [l2 Hl2].
  { intros ->. apply Permutation_nil_l in Hpsl. subst. by apply elem_of_nil in Hin. }
  pose proof (classify_most_frequent sl l2 Hl2 l) as Hmost.
  rewrite !(occurrences_perm _ sl db_labels Hpsl) in Hmost.
  assert (l2 = l) as <-.
  { destruct (decide (l2 = l)) as [|Hne]; [done|]. specialize (Hstrict l2 Hne). lia. }
  congruence.
Qed.

Lemma small_database_single_class_witness :
  ∃ st,
    length ["A"; "A"; "B"] = length [Fin 1; Fin 2; Fin (1 # 2)] ∧
    length ["A"; "A"; "B"] ≤ 100 ∧
    "A" ∈ ["A"; "A"; "B"] ∧
    (∀ l', l' ≠ "A" → occurrences l' ["A"; "A"; "B"] < occurrences "A" ["A"; "A"; "B"]) ∧
    query_statistics argsort_ties_reversed ["A"; "A"; "B"] ["c1"; "c2"; "c3"]
      [Fin 1; Fin 2; Fin (1 # 2)] = Ok st ∧
    classified_label st = "A".
Proof.
  destruct (query_statistics argsort_ties_reversed ["A"; "A"; "B"] ["c1"; "c2"; "c3"]
              [Fin 1; Fin 2; Fin (1 # 2)]) as [st|e] eqn:E; [|by vm_compute in E].
  assert (∀ l', l' ≠ "A" →
            occurrences l' ["A"; "A"; "B"] < occurrences "A" ["A"; "A"; "B"]) as Hstrict.
  { intros l' Hne. rewrite !occurrences_cons.
    change (occurrences l' []) with 0. change (occurrences "A" []) with 0.
    repeat case_decide; try done; lia. }
  assert ("A" ∈ ["A"; "A"; "B"]) as Hin by left.
  assert (length ["A"; "A"; "B"] ≤ 100) as Hsmall by (simpl; lia).
  exists st. repeat (split; [done|]).
  apply (small_database_single_class argsort_ties_reversed ["A"; "A"; "B"]
           ["c1"; "c2"; "c3"] [Fin 1; Fin 2; Fin (1 # 2)] st "A"
           argsort_ties_reversed_contract eq_refl Hsmall Hin Hstrict E).
Defined.

(** ** Chart data *)

Lemma np_unique_counts_spec (l : list string) :
  np_unique_counts l = (λ x, occurrences x l) <$> np_unique l.
Proof.
  unfold np_unique_counts, np_unique. rewrite <- list_fmap_compose.
  destruct (groupby_sorted_inv _ (sorted_sorted l)) as [_ Hlen].
  apply Forall_fmap_ext_1, Forall_forall. intros [k g] Hin. simpl.
  rewrite (Hlen k g Hin). apply occurrences_perm, sorted_perm.
Qed.

Lemma reverse_argsort_descending argsort (a : list npfloat) i j ki kj x y :
  argsort_contract argsort →
  i ≤ j →
  reverse (argsort a) !! i = Some ki → reverse (argsort a) !! j = Some kj →
  a !! ki = Some x → a !! kj = Some y → np_le y x.
Proof.
  intros Hok Hij Hi Hj Hx Hy. destruct (Hok a) as [_ Hasc].
  pose proof (lookup_lt_Some _ _ _ Hi) as Hli.
  pose proof (lookup_lt_Some _ _ _ Hj) as Hlj.
  rewrite length_reverse in Hli, Hlj.
  rewrite reverse_lookup in Hi, Hj by done.
  apply (Hasc (length (argsort a) - S j) (length (argsort a) - S i) kj ki);
    [lia | done..].
Qed.

Lemma count_values_le (a b : nat) :
  np_le (Fin (inject_Z (Z.of_nat b))) (Fin (inject_Z (Z.of_nat a))) → b ≤ a.
Proof.
  unfold np_le. simpl. rewrite Qle_bool_iff, <- Zle_Qle. lia.
Qed.

Section ChartFacts.
Variable argsort : list npfloat → list nat.
Hypothesis argsort_ok : argsort_contract argsort.

Lemma unique_by_count_spec clfs :
  ∃ types,
    unique_by_count argsort clfs = Ok (types, (λ x, occurrences x clfs) <$> types) ∧
    types ≡ₚ np_unique clfs ∧
    ∀ i j x y, i ≤ j → types !! i = Some x → types !! j = Some y →
      occurrences y clfs ≤ occurrences x clfs.
Proof.
  unfold unique_by_count.
  set (vals := (λ c, Fin (inject_Z (Z.of_nat c))) <$> np_unique_counts clfs).
  set (idx := reverse (argsort vals)).
  assert (idx ≡ₚ seq 0 (length (np_unique clfs))) as Hidx.
  { apply (reverse_argsort_arrangement argsort argsort_ok).
    unfold vals. by rewrite length_fmap, np_unique_counts_length. }
  destruct (np_take_Ok (np_unique clfs) idx) as [types Htypes].
  { intros k Hk. by eapply arrangement_bound. }
  exists types. rewrite Htypes, bind_Ok_l.
  rewrite np_unique_counts_spec.
  rewrite (np_take_fmap (λ x, occurrences x clfs) _ _ _ Htypes), bind_Ok_l.
  split; [done|]. split; [by eapply np_take_arrangement|].
  intros i j x y Hij Hi Hj.
  destruct (np_take_inv _ _ _ Htypes) as [Hlen Hlk].
  assert (is_Some (idx !! i)) as [ki Hki].
  { apply lookup_lt_is_Some. rewrite <- Hlen. by eapply lookup_lt_Some. }
  assert (is_Some (idx !! j)) as [kj Hkj].
  { apply lookup_lt_is_Some. rewrite <- Hlen. by eapply lookup_lt_Some. }
  rewrite (Hlk i ki Hki) in Hi. rewrite (Hlk j kj Hkj) in Hj.
  apply count_values_le.
  apply (reverse_argsort_descending argsort vals i j ki kj); [done..| |];
    unfold vals; rewrite np_unique_counts_spec, !list_lookup_fmap.
  - by rewrite Hi.
  - by rewrite Hj.
Qed.
End ChartFacts.

(** X12. The bars of a frequency chart ([np.unique] with counts, reordered
    by [np.argsort(counts)[::-1]]).  The labels are the distinct values of
    the input, each once; the count at a position is the number of
    occurrences of the label at that position; the counts never increase
    from left to right; and they add up to the number of values. *)
Theorem frequency_bars argsort (clfs : list string) :
  argsort_contract argsort →
  ∃ db_types counts,
    unique_by_count argsort clfs = Ok (db_types, counts) ∧
    NoDup db_types ∧
    (∀ x, x ∈ db_types ↔ x ∈ clfs) ∧
    length counts = length db_types ∧
    (∀ j x, db_types !! j = Some x → counts !! j = Some (occurrences x clfs)) ∧
    (∀ i j a b, i ≤ j → counts !! i = Some a → counts !! j = Some b → b ≤ a) ∧
    sum_list counts = length clfs.
Proof.
  intros Hok.
  destruct (unique_by_count_spec argsort Hok clfs) as (types & Hrun & Hperm & Hdesc).
  assert (NoDup types) as Hnd by (rewrite Hperm; apply np_unique_NoDup).
  assert (∀ x, x ∈ types ↔ x ∈ clfs) as Helem.
  { intros x. by rewrite Hperm, np_unique_elem. }
  exists types, ((λ x, occurrences x clfs) <$> types).
  split; [done|]. split; [done|]. split; [done|].
  split; [by rewrite length_fmap|]. split; [|split].
  - intros j x Hj. by rewrite list_lookup_fmap, Hj.
  - intros i j a b Hij Hi Hj. rewrite list_lookup_fmap in Hi, Hj.
    destruct (types !! i) as [x|] eqn:Ex; [|done].
    destruct (types !! j) as [y|] eqn:Ey; [|done].
    injection Hi as <-. injection Hj as <-. by apply (Hdesc i j).
  - apply (label_counts_sum types clfs Hnd). intros x. apply Helem.
Qed.

Lemma frequency_bars_witness :
  ∃ db_types counts,
    unique_by_count argsort_stable ["B"; "A"; "B"; "C"; "B"; "A"]
      = Ok (db_types, counts) ∧
    NoDup db_types ∧
    (∀ x, x ∈ db_types ↔ x ∈ ["B"; "A"; "B"; "C"; "B"; "A"]) ∧
    length counts = length db_types ∧
    (∀ j x, db_types !! j = Some x →
       counts !! j = Some (occurrences x ["B"; "A"; "B"; "C"; "B"; "A"])) ∧
    (∀ i j a b, i ≤ j → counts !! i = Some a → counts !! j = Some b → b ≤ a) ∧
    sum_list counts = length ["B"; "A"; "B"; "C"; "B"; "A"].
Proof.
  apply (frequency_bars argsort_stable ["B"; "A"; "B"; "C"; "B"; "A"]
           argsort_stable_contract).
Defined.

Example frequency_bars_run :
  unique_by_count argsort_stable ["B"; "A"; "B"; "C"; "B"; "A"]
  = Ok (["B"; "A"; "C"], [3; 2; 1]).
Proof. reflexivity. Qed.

Lemma dd_get_elem {V} (d : list (string * list V)) k v :
  NoDup d.*1 → (k, v) ∈ d → dd_get k d = v.
Proof.
  unfold dd_get. induction d as [|[k' v'] d IH]; intros Hnd Hin.
  { by apply elem_of_nil in Hin. }
  rewrite fmap_cons in Hnd. apply NoDup_cons in Hnd as [Hk' Hnd].
  rewrite filter_cons. simpl.
  apply elem_of_cons in Hin as [[= <- <-]|Hin].
  - by rewrite decide_True.
  - rewrite decide_False; [by apply IH|].
    intros ->. apply Hk', list_elem_of_fmap. by exists (k, v).
Qed.

Lemma elem_of_concat {A} (x : A) (ls : list (list A)) :
  x ∈ concat ls → ∃ l, x ∈ l ∧ l ∈ ls.
Proof.
  induction ls as [|l ls IH]; simpl; [by intros ?%elem_of_nil|].
  intros [Hx|Hx]%elem_of_app.
  - exists l. split; [done | left].
  - destruct (IH Hx) as (l' & ? & ?). exists l'. split; [done | by right].
Qed.

Lemma concat_length_const {A} (ls : list (list A)) n :
  Forall (λ l, length l = n) ls → length (concat ls) = n * length ls.
Proof.
  induction 1 as [|l ls Hl _ IH]; simpl; [lia|]. rewrite length_app, IH, Hl. lia.
Qed.

Lemma make_top_5_labels_plots_Ok argsort (d : list (string * list string)) :
  argsort_contract argsort →
  ∃ bars,
    make_top_5_labels_plots argsort d = Ok bars ∧
    bars.*1 = d.*1 ∧
    ∀ k types counts, (k, (types, counts)) ∈ bars →
      ∃ v, (k, v) ∈ d ∧ unique_by_count argsort v = Ok (types, counts).
Proof.
  intros Hok. unfold make_top_5_labels_plots.
  induction d as [|[k v] d IH].
  { exists []. repeat split. by intros ? ? ? ?%elem_of_nil. }
  destruct IH as (bars & Hbars & Hkeys & Hitems).
  destruct (unique_by_count_spec argsort Hok v) as (types & Hrun & _).
  cbn [mapM_result]. cbn [fst snd]. rewrite Hrun, bind_Ok_l, Hbars, bind_Ok_l.
  eexists. split; [done|]. split; [by rewrite !fmap_cons, Hkeys|].
  intros k' types' counts' [[= -> -> ->]|Hin]%elem_of_cons.
  - exists v. split; [left | done].
  - destruct (Hitems _ _ _ Hin) as (v' & Hv' & Hrun').
    exists v'. split; [by right | done].
Qed.

(** X13. The top-5 frequency chart of every query group, as [main] draws
    it.  With rows as long as the database, the charts are computed without
    error, one per query group in the order the groups were first met; the
    labels of a chart are distinct labels of the database, and its bars add
    up to the number of queries of the group times the number of
    neighbours kept per query (five, or the size of the database when it
    is smaller). *)
Theorem top_5_label_bars_in_main argsort db_labels db_cell_ids queries acc :
  argsort_contract argsort →
  (∀ q, q ∈ queries → length (q_dists q) = length db_labels) →
  query_loop argsort db_labels db_cell_ids accum_init queries = Ok acc →
  ∃ bars,
    make_top_5_labels_plots argsort (top_5_types_dict acc) = Ok bars ∧
    bars.*1 = first_seen (q_label <$> queries) ∧
    ∀ k db_types counts, (k, (db_types, counts)) ∈ bars →
      NoDup db_types ∧
      (∀ x, x ∈ db_types → x ∈ db_labels) ∧
      sum_list counts =
        (5 `min` length db_labels) * length (filter (λ q, q_label q = k) queries).
Proof.
  intros Hok Hq Hloop.
  destruct (query_loop_inv _ _ _ _ _ _ Hloop) as (stats & Hall & ->).
  set (l := zip queries stats).
  pose proof (record_fold_top_5_types l accum_init) as Hdict.
  change (top_5_types_dict accum_init) with (@nil (string * list string)) in Hdict.
  pose proof (dd_fold_keys (λ qs : query_row * query_stats, q_label qs.1)
                (λ qs, top_5_types qs.2) l) as Hkeys.
  cbv beta in Hkeys. rewrite <- Hdict in Hkeys. unfold l in Hkeys at 2.
  rewrite (zip_stats_labels _ _ _ _ _ Hall) in Hkeys.
  destruct (make_top_5_labels_plots_Ok argsort
              (top_5_types_dict (foldl (λ a qs, record_query qs.1 qs.2 a) accum_init l))
              Hok) as (bars & Hbars & Hbkeys & Hitems).
  exists bars. split; [done|]. split; [by rewrite Hbkeys|].
  intros k types counts Hin.
  destruct (Hitems k types counts Hin) as (v & Hv & Hrun).
  assert (v = concat ((λ qs, top_5_types qs.2)
                        <$> filter (λ qs : query_row * query_stats, q_label qs.1 = k) l))
    as Hvalue.
  { rewrite <- (dd_get_elem _ k v (eq_ind_r NoDup (first_seen_NoDup _) Hkeys) Hv).
    rewrite Hdict.
    pose proof (dd_fold_get (λ qs : query_row * query_stats, q_label qs.1)
                  (λ qs, top_5_types qs.2) l [] k) as Hget.
    cbv beta in Hget. by rewrite Hget. }
  assert (∀ qs, qs ∈ l →
            length (top_5_types qs.2) = 5 `min` length db_labels ∧
            ∀ x, x ∈ top_5_types qs.2 → x ∈ db_labels) as Hstat.
  { intros [q st] Hqs.
    destruct (zip_stats_elem _ _ _ _ _ _ _ Hall Hqs) as [Hqin Hst].
    destruct (stats_cells_length _ _ _ _ _ Hok Hst) as (_ & _ & _ & _ & Hfive & _).
    rewrite (Hq q Hqin) in Hfive. split; [done|]. simpl.
    destruct (query_statistics_inv_full _ _ _ _ _ Hst)
      as (sd & sl & sc & nearest & _ & Hsl & _ & _ & _ & _ & _ & _ & _ & -> & _).
    destruct (ranking_aligned argsort Hok db_labels (q_dists q) sl) as (_ & Hp & _);
      [symmetry; by apply Hq | done |].
    intros x Hx%elem_of_take_all. by rewrite <- Hp. }
  destruct (unique_by_count_spec argsort Hok v) as (types' & Hrun' & Hperm & _).
  rewrite Hrun in Hrun'. injection Hrun' as -> ->.
  split; [rewrite Hperm; apply np_unique_NoDup|]. split.
  - intros x Hx. rewrite Hperm, np_unique_elem, Hvalue in Hx.
    apply elem_of_concat in Hx as (top & Hx & Htop).
    apply list_elem_of_fmap in Htop as (qs & -> & [_ Hqs]%list_elem_of_filter).
    by apply (Hstat qs Hqs).
  - transitivity (length v).
    + apply (label_counts_sum types' v).
      * rewrite Hperm. apply np_unique_NoDup.
      * intros x Hx. by rewrite Hperm, np_unique_elem.
    + rewrite Hvalue, (concat_length_const _ (5 `min` length db_labels)).
      * rewrite length_fmap. f_equal.
        exact (filter_zip_fst_length (λ q, q_label q = k) queries stats
                 (Forall2_length _ _ _ Hall)).
      * apply Forall_fmap, Forall_forall. intros qs [_ Hqs]%list_elem_of_filter.
        by apply (Hstat qs Hqs).
Qed.

Lemma top_5_label_bars_in_main_witness :
  ∃ acc bars,
    query_loop argsort_stable ["A"; "A"; "B"] ["c1"; "c2"; "c3"] accum_init
      three_queries = Ok acc ∧
    make_top_5_labels_plots argsort_stable (top_5_types_dict acc) = Ok bars ∧
    bars.*1 = first_seen (q_label <$> three_queries) ∧
    ∀ k db_types counts, (k, (db_types, counts)) ∈ bars →
      NoDup db_types ∧
      (∀ x, x ∈ db_types → x ∈ ["A"; "A"; "B"]) ∧
      sum_list counts =
        (5 `min` length ["A"; "A"; "B"])
        * length (filter (λ q, q_label q = k) three_queries).
Proof.
  destruct (query_loop argsort_stable ["A"; "A"; "B"] ["c1"; "c2"; "c3"] accum_init
              three_queries) as [acc|e] eqn:E; [|by vm_compute in E].
  destruct (top_5_label_bars_in_main argsort_stable ["A"; "A"; "B"]
              ["c1"; "c2"; "c3"] three_queries acc argsort_stable_contract
              three_queries_rows E) as (bars & H).
  by exists acc, bars.
Defined.

Example top_5_label_bars_run :
  (λ acc, make_top_5_labels_plots argsort_stable (top_5_types_dict acc))
    <$> query_loop argsort_stable ["A"; "A"; "B"] ["c1"; "c2"; "c3"] accum_init
          three_queries
  = Ok (Ok [("control_3m", (["A"; "B"], [4; 2])); ("disease_3m", (["A"; "B"], [2; 1]))]).
Proof. reflexivity. Qed.

(** X14. The bars of the chart of average nearest distances.  For every
    dictionary of a query group the computation succeeds; the averages are
    in ascending order (NaN last), and each bar still carries the label
    whose distances it averages: labels and averages are rearranged
    together. *)
Theorem nearest_dist_bars_sorted argsort
    (nearest_to_db_types_d : list (string * list npfloat)) :
  argsort_contract argsort →
  ∃ avgs_labels avgs_values,
    nearest_dist_bars argsort nearest_to_db_types_d = Ok (avgs_labels, avgs_values) ∧
    length avgs_labels = length avgs_values ∧
    StronglySorted np_le avgs_values ∧
    zip avgs_labels avgs_values ≡ₚ
      (λ item : string * list npfloat, (item.1, np_mean item.2))
        <$> nearest_to_db_types_d.
Proof.
  intros argsort_ok. unfold nearest_dist_bars.
  set (d := nearest_to_db_types_d).
  set (vals := (λ item : string * list npfloat, np_mean item.2) <$> d).
  assert (length vals = length d) as Hlv by apply length_fmap.
  destruct (np_take_Ok d (argsort vals)) as [r Hr].
  { intros k Hk. rewrite <- Hlv. by apply (ranking_bound argsort argsort_ok). }
  pose proof (np_take_fmap fst _ _ _ Hr) as Hlabels.
  pose proof (np_take_fmap (λ item : string * list npfloat, np_mean item.2) _ _ _ Hr)
    as Hvalues.
  fold vals in Hvalues.
  exists (r.*1), ((λ item : string * list npfloat, np_mean item.2) <$> r).
  rewrite Hlabels, bind_Ok_l, Hvalues, bind_Ok_l.
  split; [done|]. split; [by rewrite !length_fmap|]. split.
  - by apply (ranking_sorted argsort argsort_ok vals).
  - assert (r ≡ₚ d) as Hperm.
    { apply (np_take_arrangement d (argsort vals)); [|done].
      rewrite <- Hlv. apply argsort_ok. }
    rewrite <- Hperm. clear. induction r as [|[k v] r IH]; [done|].
    rewrite !fmap_cons. simpl. by rewrite IH.
Qed.

Lemma nearest_dist_bars_sorted_witness :
  ∃ avgs_labels avgs_values,
    nearest_dist_bars argsort_stable [("A", [Fin 3; Fin 1]); ("B", [Fin 1]); ("C", [])]
      = Ok (avgs_labels, avgs_values) ∧
    length avgs_labels = length avgs_values ∧
    StronglySorted np_le avgs_values ∧
    zip avgs_labels avgs_values ≡ₚ
      (λ item : string * list npfloat, (item.1, np_mean item.2))
        <$> [("A", [Fin 3; Fin 1]); ("B", [Fin 1]); ("C", [])].
Proof.
  apply (nearest_dist_bars_sorted argsort_stable
           [("A", [Fin 3; Fin 1]); ("B", [Fin 1]); ("C", [])] argsort_stable_contract).
Defined.

Example nearest_dist_bars_run :
  nearest_dist_bars argsort_stable
    [("A", [Fin 3; Fin 1]); ("B", [Fin 1]); ("C", [])]
  = Ok (["B"; "A"; "C"], [Fin (1 / 1); Fin (4 / 2); NaN]).
Proof. reflexivity. Qed.

(** ** The contingency tables, further *)

Section ColumnOrder.
Variable argsort : list npfloat → list nat.
Hypothesis argsort_ok : argsort_contract argsort.
Context {pvalue : Type}.
Variable binom_test : Z → Z → Q → pvalue.

Lemma histograms_columns_descending overall classifications h :
  make_classification_histograms argsort binom_test overall classifications = Ok h →
  StronglySorted (λ x y, occurrences y (control_clfs h) ≤ occurrences x (control_clfs h))
    (merged_db_types h).
Proof.
  destruct (histograms_ordered_form argsort argsort_ok binom_test overall
              classifications) as (m0 & m & Hm & _ & _ & ->).
  cbv zeta. intros (ts & Hts & (ts2 & Hts2 & [= <-])%bind_Ok)%bind_Ok.
  cbn [merged_db_types control_clfs].
  set (C := (coarse_split classifications [] []).1) in *.
  apply StronglySorted_pairwise. intros i j x y Hij Hi Hj.
  destruct C as [|c0 C'] eqn:EC.
  { change (occurrences y []) with 0. lia. }
  rewrite <- EC in *.
  assert (0 < length C) as Hpos by (rewrite EC; simpl; lia).
  set (vals := (λ c, np_frac c (length C)) <$> label_counts m0 C) in *.
  destruct (np_take_inv _ _ _ Hm) as [Hlen Hlk].
  assert (is_Some (reverse (argsort vals) !! i)) as [ki Hki].
  { apply lookup_lt_is_Some. rewrite <- Hlen. by eapply lookup_lt_Some. }
  assert (is_Some (reverse (argsort vals) !! j)) as [kj Hkj].
  { apply lookup_lt_is_Some. rewrite <- Hlen. by eapply lookup_lt_Some. }
  rewrite (Hlk i ki Hki) in Hi. rewrite (Hlk j kj Hkj) in Hj.
  assert (np_le (np_frac (occurrences y C) (length C))
                (np_frac (occurrences x C) (length C))) as Hle.
  { apply (reverse_argsort_descending argsort vals i j ki kj); [done | lia | done..| |];
      unfold vals, label_counts; rewrite !list_lookup_fmap.
    - by rewrite Hi.
    - by rewrite Hj. }
  destruct (length C) as [|n]; [lia|]. unfold np_le in Hle. simpl in Hle.
  apply Qle_bool_iff in Hle. unfold Qle in Hle. simpl in Hle.
  apply Z.mul_le_mono_pos_r in Hle; lia.
Qed.
End ColumnOrder.

Lemma StronglySorted_filter {A} (R : relation A) (P : A → Prop)
    `{!∀ x, Decision (P x)} (l : list A) :
  StronglySorted R l → StronglySorted R (filter P l).
Proof.
  induction 1 as [|x l Hl IH Hx]; [constructor|].
  rewrite filter_cons. destruct (decide (P x)); [|done].
  constructor; [done|]. apply Forall_forall. intros y [_ Hy]%list_elem_of_filter.
  by eapply Forall_forall in Hx.
Qed.

Lemma frac_le_count (a b n : nat) :
  0 < n → b ≤ a → np_le (np_frac b n) (np_frac a n).
Proof.
  intros Hn Hle. destruct n as [|n]; [lia|]. unfold np_le. simpl.
  apply Qle_bool_iff. unfold Qle. simpl. apply Z.mul_le_mono_nonneg_r; lia.
Qed.

Lemma histograms_ticks argsort {pvalue} (binom_test : Z → Z → Q → pvalue)
    overall classifications h :
  argsort_contract argsort →
  make_classification_histograms argsort binom_test overall classifications = Ok h →
  tick_labels h = tick_label <$> merged_db_types h ∧
  tick_labels_nz h = tick_label <$> merged_db_types_nz h.
Proof.
  intros Hok.
  destruct (histograms_normal_form argsort Hok binom_test overall classifications)
    as (m & _ & _ & ->).
  cbv zeta. by intros (ts & Hts & (ts2 & Hts2 & [= <-])%bind_Ok)%bind_Ok.
Qed.

Lemma zip_fmap_same {A B C} (f : A → B) (g : A → C) (l : list A) :
  zip (f <$> l) (g <$> l) = (λ x, (f x, g x)) <$> l.
Proof. induction l as [|x l IH]; [done|]. rewrite !fmap_cons. simpl. by rewrite IH. Qed.

(** X15. The order of the columns of the two contingency tables.  The
    columns of the first table are arranged by [np.argsort(control_fracs)[::-1]]:
    from left to right the control fractions, and with them the control
    counts, never increase.  From line 302 on a column carries its tick
    label, the label without its first word.  The second table keeps, in
    the same order, exactly the columns of the first in which both counts
    are positive, with their tick labels and counts unchanged. *)
Theorem contingency_column_order argsort {pvalue} (binom_test : Z → Z → Q → pvalue)
    overall classifications h :
  argsort_contract argsort →
  make_classification_histograms argsort binom_test overall classifications = Ok h →
  StronglySorted (λ a b, b ≤ a) (control_counts h) ∧
  StronglySorted (λ x y, np_le y x) (control_fracs h) ∧
  StronglySorted (λ a b, b ≤ a) (control_counts_nz h) ∧
  tick_labels h = tick_label <$> merged_db_types h ∧
  length (control_counts h) = length (tick_labels h) ∧
  length (disease_counts h) = length (tick_labels h) ∧
  length (control_counts_nz h) = length (tick_labels_nz h) ∧
  length (disease_counts_nz h) = length (tick_labels_nz h) ∧
  Forall (λ c, 0 < c) (control_counts_nz h) ∧
  Forall (λ c, 0 < c) (disease_counts_nz h) ∧
  zip (tick_labels_nz h) (zip (control_counts_nz h) (disease_counts_nz h)) =
    filter (λ col, 0 < col.2.1 ∧ 0 < col.2.2)
      (zip (tick_labels h) (zip (control_counts h) (disease_counts h))).
Proof.
  intros Hok Hrun.
  pose proof (histograms_columns_descending argsort Hok binom_test _ _ h Hrun) as Hdesc.
  destruct (histograms_Ok_inv argsort Hok binom_test overall classifications h Hrun)
    as (m & ts & ts2 & Hnd & Hm & HC & HD & Hmerged & Hcc & Hdc & Hcf & Hdf & Hts & _
        & _ & Hm2 & Hcc2 & Hdc2 & _ & _ & Hts2 & _).
  rewrite Hmerged in *.
  set (C := control_clfs h) in *. set (D := disease_clfs h) in *.
  assert (StronglySorted (λ a b, b ≤ a) (control_counts h)) as Hcounts.
  { rewrite Hcc. unfold label_counts.
    by apply (StronglySorted_fmap _ (λ x y, occurrences y C ≤ occurrences x C)). }
  destruct (histograms_ticks argsort binom_test overall classifications h Hok Hrun)
    as [Hticks Hticks2].
  rewrite Hmerged in Hticks.
  split; [done|]. split; [|split; [|split; [done|]]].
  - rewrite Hcf. destruct (decide (C = [])) as [HCnil|HCne].
    + assert (m = []) as ->; [|rewrite Hcc; simpl; constructor].
      destruct m as [|x m']; [done|]. exfalso.
      apply column_tests_Fin_inv in Hts as [Hfin _];
        [|by rewrite Hcf, Hdf, Hcc, Hdc, !length_fmap, !label_counts_length].
      rewrite Hcf, Hcc, HCnil in Hfin. unfold label_counts in Hfin.
      rewrite !fmap_cons in Hfin. apply Forall_cons in Hfin as [[q Hq] _]. done.
    + apply (StronglySorted_fmap _ (λ a b, b ≤ a)); [|done].
      intros a b Hle. apply frac_le_count; [|done]. destruct C; [done | simpl; lia].
  - rewrite Hcc2, Hm2. unfold label_counts.
    apply (StronglySorted_fmap _ (λ x y, occurrences y C ≤ occurrences x C)); [done|].
    by apply StronglySorted_filter.
  - rewrite Hticks, Hticks2, Hcc, Hdc, Hcc2, Hdc2, Hm2.
    unfold label_counts. rewrite !length_fmap.
    do 4 (split; [done|]). split; [|split].
    + apply Forall_fmap, Forall_forall.
      intros x [[? ?] _]%list_elem_of_filter. simpl. lia.
    + apply Forall_fmap, Forall_forall.
      intros x [[? ?] _]%list_elem_of_filter. simpl. lia.
    + rewrite !zip_fmap_same, filter_fmap. f_equal.
      apply list_filter_iff. intros x. simpl. lia.
Qed.

Lemma contingency_column_order_witness :
  ∃ h,
    make_classification_histograms argsort_stable binom_test_args []
      [("control_3m", [brain; cortex; cortex; osteocyte]);
       ("disease_3m", [brain; cortex; bone_marrow_cell])] = Ok h ∧
    StronglySorted (λ a b, b ≤ a) (control_counts h) ∧
    StronglySorted (λ x y, np_le y x) (control_fracs h) ∧
    StronglySorted (λ a b, b ≤ a) (control_counts_nz h) ∧
    tick_labels h = tick_label <$> merged_db_types h ∧
    length (control_counts h) = length (tick_labels h) ∧
    length (disease_counts h) = length (tick_labels h) ∧
    length (control_counts_nz h) = length (tick_labels_nz h) ∧
    length (disease_counts_nz h) = length (tick_labels_nz h) ∧
    Forall (λ c, 0 < c) (control_counts_nz h) ∧
    Forall (λ c, 0 < c) (disease_counts_nz h) ∧
    zip (tick_labels_nz h) (zip (control_counts_nz h) (disease_counts_nz h)) =
      filter (λ col, 0 < col.2.1 ∧ 0 < col.2.2)
        (zip (tick_labels h) (zip (control_counts h) (disease_counts h))).
Proof.
  destruct (make_classification_histograms argsort_stable binom_test_args []
              [("control_3m", [brain; cortex; cortex; osteocyte]);
               ("disease_3m", [brain; cortex; bone_marrow_cell])])
    as [h|e] eqn:E; [|by vm_compute in E].
  exists h. split; [done|].
  apply (contingency_column_order argsort_stable binom_test_args [] _ h
           argsort_stable_contract E).
Defined.

Example contingency_column_order_run :
  (λ h, (tick_labels h, control_counts h, disease_counts h,
         tick_labels_nz h, control_counts_nz h, disease_counts_nz h))
    <$> make_classification_histograms argsort_stable binom_test_args []
          [("control_3m", [brain; cortex; cortex; osteocyte]);
           ("disease_3m", [brain; cortex; bone_marrow_cell])]
  = Ok (["cortex"; "brain"; "osteocyte"; "bone marrow cell"],
        [2; 1; 1; 0], [1; 1; 0; 1],
        ["cortex"; "brain"], [2; 1], [1; 1]).
Proof. by vm_compute. Qed.

(** Tick labels: the first word goes, runs of whitespace become one space,
    and a label of one word leaves the empty string, so that distinct
    columns can carry the same tick label. *)
Example tick_label_examples :
  tick_label "UBERON:0000955 brain" = "brain" ∧
  tick_label "CL:0002092 bone marrow cell" = "bone marrow cell" ∧
  tick_label "CL:1  x" = "x" ∧ tick_label "CL:2 x " = "x" ∧
  tick_label "X" = "" ∧ tick_label "" = "".
Proof. by vm_compute. Qed.

Example tick_labels_can_collide :
  (λ h, (merged_db_types h, tick_labels h, tick_labels_nz h))
    <$> make_classification_histograms argsort_stable binom_test_args []
          [("control_3m", ["X"; "Y"]); ("disease_3m", ["X"; "Y"])]
  = Ok (["Y"; "X"], [""; ""], [""; ""]).
Proof. by vm_compute. Qed.

(** ** Arguments of the significance test *)

Lemma floor_1000_frac (c n : nat) z :
  c ≤ n → floor_1000 (np_frac c n) = Ok z → (0 ≤ z ≤ 1000)%Z.
Proof.
  intros Hle. destruct n as [|n]; [by destruct c|].
  cbn [np_frac floor_1000]. intros [= <-].
  set (q := (Z.of_nat c # Pos.of_nat (S n))).
  assert (Z.pos (Pos.of_nat (S n)) = Z.of_nat (S n)) as Hp.
  { rewrite <- positive_nat_Z, Nat2Pos.id; lia. }
  assert (0 <= 1000 * q)%Q as H0.
  { unfold Qle, Qmult, q. cbn [Qnum Qden]. lia. }
  assert (1000 * q <= 1000)%Q as H1.
  { unfold Qle, Qmult, q. cbn [Qnum Qden]. rewrite Pos.mul_1_l, Hp. lia. }
  apply Qfloor_resp_le in H0, H1.
  change (Qfloor 0) with 0%Z in H0. change (Qfloor 1000) with 1000%Z in H1.
  split; [exact H0 | exact H1].
Qed.

Lemma elem_le_sum_list (l : list nat) x : x ∈ l → x ≤ sum_list l.
Proof.
  induction l as [|y l IH]; [by intros ?%elem_of_nil|].
  rewrite sum_list_cons. intros [->|Hx%IH]%elem_of_cons; lia.
Qed.

Lemma occurrences_le_len (x : string) l : occurrences x l ≤ length l.
Proof. unfold occurrences. apply length_filter. Qed.

Lemma column_tests_range (n1 n2 : nat) (c1 c2 : list nat) ts :
  length c1 = length c2 →
  Forall (λ c, c ≤ n1) c1 → Forall (λ c, c ≤ n2) c2 →
  column_tests ((λ c, np_frac c n1) <$> c1) ((λ c, np_frac c n2) <$> c2) = Ok ts →
  Forall (λ t : Z * Z, (0 ≤ t.1 ≤ 1000 ∧ t.1 ≤ t.2 ≤ t.1 + 1000)%Z) ts.
Proof.
  intros Hlen H1 H2 Hts.
  destruct (column_tests_inv _ _ _ (eq_trans (length_fmap _ _)
              (eq_trans Hlen (eq_sym (length_fmap _ _)))) Hts) as [Hl Hcols].
  apply Forall_lookup. intros j t Hj.
  assert (is_Some (c1 !! j)) as [a Ha].
  { apply lookup_lt_is_Some. rewrite length_fmap in Hl. rewrite <- Hl.
    by eapply lookup_lt_Some. }
  assert (is_Some (c2 !! j)) as [b Hb].
  { apply lookup_lt_is_Some. rewrite <- Hlen. by eapply lookup_lt_Some. }
  destruct (Hcols j (np_frac a n1) (np_frac b n2)) as (z1 & z2 & Hz1 & Hz2 & Ht).
  { by rewrite list_lookup_fmap, Ha. }
  { by rewrite list_lookup_fmap, Hb. }
  rewrite Hj in Ht. injection Ht as ->. simpl.
  apply floor_1000_frac in Hz1; [|exact (Forall_lookup_1 _ _ _ _ H1 Ha)].
  apply floor_1000_frac in Hz2; [|exact (Forall_lookup_1 _ _ _ _ H2 Hb)].
  lia.
Qed.

(** X16. The arguments of every binomial test.  In both charts each call
    [binom_test(count1, count1 + count2, p=0.5)] gets a number of successes
    between 0 and 1000 and a number of trials that is at least the number
    of successes and at most 2000, so the test is never asked about more
    successes than trials or about a negative count; and there is one test
    per column. *)
Theorem binom_test_arguments_in_range argsort {pvalue}
    (binom_test : Z → Z → Q → pvalue) overall classifications h :
  argsort_contract argsort →
  make_classification_histograms argsort binom_test overall classifications = Ok h →
  Forall (λ t : Z * Z, (0 ≤ t.1 ≤ 1000 ∧ t.1 ≤ t.2 ≤ 2000)%Z) (tests h) ∧
  Forall (λ t : Z * Z, (0 ≤ t.1 ≤ 1000 ∧ t.1 ≤ t.2 ≤ 2000)%Z) (tests_nz h) ∧
  length (tests h) = length (merged_db_types h) ∧
  length (tests_nz h) = length (merged_db_types_nz h).
Proof.
  intros Hok Hrun.
  destruct (histograms_Ok_inv argsort Hok binom_test overall classifications h Hrun)
    as (m & ts & ts2 & Hnd & Hm & HC & HD & Hmerged & Hcc & Hdc & Hcf & Hdf & Hts & Htests
        & _ & Hm2 & Hcc2 & Hdc2 & Hcf2 & Hdf2 & Hts2 & Htests2 & _).
  assert (∀ ts,
            Forall (λ t : Z * Z, (0 ≤ t.1 ≤ 1000 ∧ t.1 ≤ t.2 ≤ t.1 + 1000)%Z) ts →
            Forall (λ t : Z * Z, (0 ≤ t.1 ≤ 1000 ∧ t.1 ≤ t.2 ≤ 2000)%Z) ts) as Hweaken.
  { intros l Hl. eapply Forall_impl; [exact Hl|]. intros t. simpl. lia. }
  rewrite Htests, Htests2, Hmerged.
  split; [|split; [|split]].
  - apply Hweaken. rewrite Hcf, Hdf in Hts.
    apply (column_tests_range _ _ _ _ _ (eq_trans (f_equal length Hcc)
             (eq_trans (label_counts_length _ _)
                (eq_sym (eq_trans (f_equal length Hdc) (label_counts_length _ _)))))
             ) in Hts; [done|..].
    + rewrite Hcc. apply Forall_fmap, Forall_forall. intros x _.
      apply occurrences_le_len.
    + rewrite Hdc. apply Forall_fmap, Forall_forall. intros x _.
      apply occurrences_le_len.
  - apply Hweaken. rewrite Hcf2, Hdf2 in Hts2.
    apply (column_tests_range _ _ _ _ _ (eq_trans (f_equal length Hcc2)
             (eq_trans (label_counts_length _ _)
                (eq_sym (eq_trans (f_equal length Hdc2) (label_counts_length _ _)))))
             ) in Hts2; [done|..].
    + apply Forall_forall. intros x. apply elem_le_sum_list.
    + apply Forall_forall. intros x. apply elem_le_sum_list.
  - apply column_tests_inv in Hts as [-> _];
      rewrite Hcf, ?Hdf, ?Hcc, ?Hdc, !length_fmap, !label_counts_length; done.
  - apply column_tests_inv in Hts2 as [-> _];
      rewrite Hcf2, ?Hdf2, ?Hcc2, ?Hdc2, !length_fmap, !label_counts_length; done.
Qed.

Lemma binom_test_arguments_in_range_witness :
  ∃ h,
    make_classification_histograms argsort_stable binom_test_args []
      [("control_3m", ["X"; "Y"; "Y"; "Z"]); ("disease_3m", ["X"; "Y"; "W"])] = Ok h ∧
    Forall (λ t : Z * Z, (0 ≤ t.1 ≤ 1000 ∧ t.1 ≤ t.2 ≤ 2000)%Z) (tests h) ∧
    Forall (λ t : Z * Z, (0 ≤ t.1 ≤ 1000 ∧ t.1 ≤ t.2 ≤ 2000)%Z) (tests_nz h) ∧
    length (tests h) = length (merged_db_types h) ∧
    length (tests_nz h) = length (merged_db_types_nz h).
Proof.
  destruct (make_classification_histograms argsort_stable binom_test_args []
              [("control_3m", ["X"; "Y"; "Y"; "Z"]); ("disease_3m", ["X"; "Y"; "W"])])
    as [h|e] eqn:E; [|by vm_compute in E].
  exists h. split; [done|].
  apply (binom_test_arguments_in_range argsort_stable binom_test_args [] _ h
           argsort_stable_contract E).
Defined.

Example binom_test_arguments_run :
  tests <$> make_classification_histograms argsort_stable binom_test_args []
              [("control_3m", ["X"; "Y"; "Y"; "Z"]); ("disease_3m", ["X"; "Y"; "W"])]
  = Ok [(500, 833); (250, 250); (250, 583); (0, 333)]%Z.
Proof. reflexivity. Qed.

(** ** Colours of the scatter plots *)

Lemma classes_ordered_NoDup : NoDup classes_ordered.
Proof. apply (bool_decide_unpack _). by vm_compute. Qed.

Lemma color_map_dom label : is_Some (color_map !! label) ↔ label ∈ classes_ordered.
Proof.
  unfold color_map.
  set (pairs := [("control_3m", "#66ffff"); ("control_3m_1w", "#6699ff");
     ("control_3m_2w", "#6600ff"); ("control_4m_2w", "#ff00cc");
     ("disease_3m", "#33ff00"); ("disease_3m_1w", "#ffff00");
     ("disease_3m_2w", "#ff9900"); ("disease_4m_2w", "#ff0000")]).
  assert (pairs.*1 = classes_ordered) as Hkeys by done.
  split.
  - intros [c Hc]. apply elem_of_list_to_map_2 in Hc.
    rewrite <- Hkeys. apply list_elem_of_fmap. by exists (label, c).
  - rewrite <- Hkeys. intros ([l c] & -> & Hin)%list_elem_of_fmap.
    exists c. apply elem_of_list_to_map_1; [|done].
    rewrite Hkeys. apply classes_ordered_NoDup.
Qed.

Lemma classes_ordered_marked label :
  label ∈ classes_ordered →
  str_contains "control" label = true ∨
  (str_contains "control" label = false ∧ str_contains "disease" label = true).
Proof.
  unfold classes_ordered. intros Hin.
  repeat (apply elem_of_cons in Hin as [->|Hin]; [vm_compute; tauto|]).
  by apply elem_of_nil in Hin.
Qed.

Lemma consolidated_colors_counts (labels : list string) :
  occurrences "b" (consolidated_colors labels) =
    length (filter (λ l, substring_of "control" l) labels) ∧
  occurrences "r" (consolidated_colors labels) =
    length (filter (λ l, substring_of "disease" l ∧ ¬ substring_of "control" l) labels) ∧
  length (consolidated_colors labels) =
    occurrences "b" (consolidated_colors labels)
    + occurrences "r" (consolidated_colors labels).
Proof.
  induction labels as [|l labels (IHb & IHr & IHlen)]; [done|].
  rewrite !filter_cons. cbn [consolidated_colors].
  destruct (str_contains "control" l) eqn:Ec.
  - apply str_contains_spec in Ec.
    rewrite decide_True by done. rewrite decide_False by tauto.
    rewrite !occurrences_cons. cbn [length]. rewrite IHb, IHr, IHlen.
    rewrite decide_True by done. rewrite decide_False by done. rewrite IHb, IHr. lia.
  - assert (¬ substring_of "control" l) as Hnc.
    { intros H%str_contains_spec. congruence. }
    rewrite (decide_False (P := substring_of "control" l)) by done.
    destruct (str_contains "disease" l) eqn:Ed.
    + apply str_contains_spec in Ed. rewrite decide_True by done.
      rewrite !occurrences_cons. cbn [length]. rewrite IHb, IHr, IHlen.
      rewrite decide_False by done. rewrite decide_True by done. rewrite IHb, IHr. lia.
    + rewrite decide_False; [done|]. intros [H%str_contains_spec _]. congruence.
Qed.

Lemma consolidated_colors_length (labels : list string) :
  length (consolidated_colors labels) ≤ length labels ∧
  (length (consolidated_colors labels) = length labels ↔
   Forall (λ l, substring_of "control" l ∨ substring_of "disease" l) labels).
Proof.
  induction labels as [|l labels [IHle IHall]].
  { split; [done|]. split; [constructor | done]. }
  cbn [consolidated_colors].
  rewrite Forall_cons, <- IHall.
  destruct (str_contains "control" l) eqn:Ec; [|destruct (str_contains "disease" l) eqn:Ed].
  - apply str_contains_spec in Ec. cbn [length]. split; [lia|].
    split; [intros ?; split; [tauto | lia] | intros [_ ?]; lia].
  - apply str_contains_spec in Ed. cbn [length]. split; [lia|].
    split; [intros ?; split; [tauto | lia] | intros [_ ?]; lia].
  - cbn [length]. split; [lia|]. split; [lia|].
    intros [[H%str_contains_spec|H%str_contains_spec] _]; congruence.
Qed.

(** X17. Colours of the scatter plots.  [plot] finds a colour for every
    point exactly when every query label is one of the eight known groups
    (any other label raises [KeyError]), and then gives one colour per
    point.  [plot_consolidated_labels] gives one colour per point exactly
    when every label holds "control" or "disease", which the eight known
    groups all do; a label with neither is skipped, leaving fewer colours
    than points.  The legend, built from the known groups, always finds
    its colours. *)
Theorem scatter_colours (labels : list string) :
  (is_Some (plot_colors labels) ↔ Forall (λ l, l ∈ classes_ordered) labels) ∧
  (∀ colors, plot_colors labels = Some colors →
     length colors = length labels ∧
     length (consolidated_colors labels) = length labels) ∧
  (length (consolidated_colors labels) = length labels ↔
     Forall (λ l, substring_of "control" l ∨ substring_of "disease" l) labels) ∧
  length (consolidated_colors labels) ≤ length labels ∧
  is_Some (plot_colors classes_ordered).
Proof.
  assert (is_Some (plot_colors labels) ↔ Forall (λ l, l ∈ classes_ordered) labels)
    as Hknown.
  { unfold plot_colors. rewrite mapM_is_Some. apply Forall_proper; [|done].
    intros l. apply color_map_dom. }
  destruct (consolidated_colors_length labels) as [Hle Hall].
  split; [done|]. split; [|split; [done|split; [done|]]].
  - intros colors Hcolors. split.
    + symmetry. by eapply length_mapM.
    + apply Hall. assert (is_Some (plot_colors labels)) as Hsome by (by eexists).
      apply Hknown in Hsome. eapply Forall_impl; [exact Hsome|].
      intros l Hl. rewrite <- !str_contains_spec.
      destruct (classes_ordered_marked l Hl) as [?|[_ ?]]; tauto.
  - by eexists.
Qed.

Example scatter_colours_run :
  plot_colors ["disease_3m"; "control_3m"] = Some ["#33ff00"; "#66ffff"] ∧
  plot_colors ["disease_3m"; "healthy"] = None ∧
  consolidated_colors ["disease_3m"; "healthy"; "control_3m"; "control_vs_disease"]
    = ["r"; "b"; "b"].
Proof. repeat split. Qed.

(** X18. The coarse groups of the histograms and the colours of the
    consolidated scatter plot follow the same rule.  After a run of the loop
    of [main], the coarse control list has as many classified labels as
    there are blue points, the coarse disease list as many as there are red
    points, and together they account for every query exactly when every
    query label holds one of the two markers. *)
Theorem coarse_groups_match_colours argsort db_labels db_cell_ids queries acc :
  query_loop argsort db_labels db_cell_ids accum_init queries = Ok acc →
  length (coarse_split (classifications acc) [] []).1 =
    occurrences "b" (consolidated_colors (q_label <$> queries)) ∧
  length (coarse_split (classifications acc) [] []).2 =
    occurrences "r" (consolidated_colors (q_label <$> queries)) ∧
  length (overall_classifications acc) = length queries ∧
  length (coarse_split (classifications acc) [] []).1
  + length (coarse_split (classifications acc) [] []).2
    = length (consolidated_colors (q_label <$> queries)).
Proof.
  intros (stats & Hall & ->)%query_loop_inv.
  set (l := zip queries stats).
  pose proof (Forall2_length _ _ _ Hall) as Hlen.
  destruct (coarse_lists_of_queries l []) as [HC HD].
  pose proof (record_fold_classifications l accum_init) as Hcls.
  change (classifications accum_init) with (@nil (string * list string)) in Hcls.
  rewrite <- Hcls in HC, HD. simpl in HC, HD.
  apply Permutation_length in HC, HD. rewrite length_fmap in HC, HD.
  destruct (consolidated_colors_counts (q_label <$> queries)) as (Hb & Hr & Htotal).
  rewrite !filter_fmap, !length_fmap in Hb, Hr.
  rewrite <- (filter_zip_fst_length (λ q, substring_of "control" (q_label q))
                queries stats Hlen) in Hb.
  rewrite <- (filter_zip_fst_length
                (λ q, substring_of "disease" (q_label q) ∧
                      ¬ substring_of "control" (q_label q)) queries stats Hlen) in Hr.
  fold l in Hb, Hr.
  split; [by rewrite HC, Hb|]. split; [by rewrite HD, Hr|]. split.
  - rewrite record_fold_overall. simpl. rewrite length_fmap. unfold l.
    rewrite length_zip_with. lia.
  - rewrite Htotal, HC, HD, Hb, Hr. done.
Qed.

Lemma coarse_groups_match_colours_witness :
  ∃ acc,
    query_loop argsort_stable ["A"; "A"; "B"] ["c1"; "c2"; "c3"] accum_init
      three_queries = Ok acc ∧
    length (coarse_split (classifications acc) [] []).1 =
      occurrences "b" (consolidated_colors (q_label <$> three_queries)) ∧
    length (coarse_split (classifications acc) [] []).2 =
      occurrences "r" (consolidated_colors (q_label <$> three_queries)) ∧
    length (overall_classifications acc) = length three_queries ∧
    length (coarse_split (classifications acc) [] []).1
    + length (coarse_split (classifications acc) [] []).2
      = length (consolidated_colors (q_label <$> three_queries)).
Proof.
  destruct (query_loop argsort_stable ["A"; "A"; "B"] ["c1"; "c2"; "c3"] accum_init
              three_queries) as [acc|e] eqn:E; [|by vm_compute in E].
  exists acc. split; [done|].
  apply (coarse_groups_match_colours argsort_stable ["A"; "A"; "B"]
           ["c1"; "c2"; "c3"] three_queries acc E).
Defined.

(** ** [nearest_dist_to_each_type] on its own *)

Lemma nearest_loop_app m pairs1 pairs2 :
  nearest_loop m (pairs1 ++ pairs2) = nearest_loop (nearest_loop m pairs1) pairs2.
Proof.
  revert m. induction pairs1 as [|[d l] pairs1 IH]; intros m; [done|]. simpl. apply IH.
Qed.

(** X19. [nearest_dist_to_each_type] as a function of two sequences.  The
    first pair met for a label decides its entry: what follows in the
    sequences never changes an entry that exists.  The loop runs over
    [zip(distances, labels)], so when one sequence is longer its tail is
    ignored, and every entry is one of the distances. *)
Theorem nearest_dist_first_pair_wins (distances more_distances : list npfloat)
    (labels more_labels : list string) :
  (length distances = length labels →
   ∀ label d,
     nearest_dist_to_each_type distances labels !! label = Some d →
     nearest_dist_to_each_type (distances ++ more_distances) (labels ++ more_labels)
       !! label = Some d) ∧
  nearest_dist_to_each_type distances labels =
    nearest_dist_to_each_type (take (length labels) distances)
      (take (length distances) labels) ∧
  (∀ label d, nearest_dist_to_each_type distances labels !! label = Some d →
     d ∈ distances ∧ label ∈ labels).
Proof.
  unfold nearest_dist_to_each_type. split; [|split].
  - intros Hlen label d Hd. rewrite zip_with_app by done.
    rewrite nearest_loop_app, nearest_loop_lookup. by rewrite Hd.
  - by rewrite zip_with_take_both.
  - intros label d. rewrite nearest_loop_lookup, lookup_empty.
    intros ([i [d' l']] & Hfind & [= <-])%fmap_Some.
    apply list_find_Some in Hfind as (Hi & Hl & _). simpl in *. subst l'.
    apply lookup_zip_with_Some in Hi as (x & y & [= <- <-] & Hx & Hy).
    split; by eapply list_elem_of_lookup_2.
Qed.

Example nearest_dist_unequal_lengths :
  nearest_dist_to_each_type [Fin 1; Fin 2; Fin 3] ["A"; "B"] !! "B" = Some (Fin 2) ∧
  nearest_dist_to_each_type [Fin 1] ["A"; "B"] !! "B" = None ∧
  nearest_dist_to_each_type [Fin 3; Fin 1] ["A"; "A"] !! "A" = Some (Fin 3).
Proof. repeat split. Qed.

(** ** The outcome of [main] *)

Lemma np_sum_finite l : Forall finite l → finite (np_sum l).
Proof.
  induction 1 as [|x l [q ->] _ [s IH]]; [by exists 0%Q|].
  rewrite np_sum_cons, IH. by eexists.
Qed.

Lemma np_mean_finite l : l ≠ [] → Forall finite l → finite (np_mean l).
Proof.
  destruct l as [|x l]; [done|]. intros _ Hfin.
  destruct (np_sum_finite _ Hfin) as [s Hs]. unfold np_mean. rewrite Hs. by eexists.
Qed.

Lemma avg_top_5_finite argsort db_labels db_cell_ids dists st :
  argsort_contract argsort →
  Forall finite dists →
  query_statistics argsort db_labels db_cell_ids dists = Ok st →
  finite (avg_top_5_distances st).
Proof.
  intros Hok Hfin Hst.
  destruct (query_statistics_inv_full _ _ _ _ _ Hst)
    as (sd & sl & sc & nearest & Hsd & Hsl & _ & Hn & _ & _ & _ & _ & _ & _
        & _ & _ & _ & _ & _ & _ & _ & ->).
  destruct (ranking_aligned argsort Hok dists dists sd eq_refl Hsd) as (Hlsd & Hp & _).
  apply np_take_inv in Hsl as [Hlsl _]. rewrite (ranking_length argsort Hok) in Hlsl.
  apply np_mean_finite.
  - destruct sd as [|d sd]; [|done]. apply lookup_lt_Some in Hn. simpl in Hlsd. lia.
  - apply Forall_take. by rewrite Hp.
Qed.

Lemma nearest_dist_bars_Ok argsort (d : list (string * list npfloat)) :
  argsort_contract argsort → is_Ok (nearest_dist_bars argsort d).
Proof.
  intros Hok. unfold nearest_dist_bars.
  set (vals := (λ item : string * list npfloat, np_mean item.2) <$> d).
  assert (length vals = length d) as Hlv by apply length_fmap.
  destruct (np_take_Ok d (argsort vals)) as [r Hr].
  { intros k Hk. rewrite <- Hlv. by apply (ranking_bound argsort Hok). }
  pose proof (np_take_fmap fst _ _ _ Hr) as Hlabels.
  pose proof (np_take_fmap (λ item : string * list npfloat, np_mean item.2) _ _ _ Hr)
    as Hvalues.
  fold vals in Hvalues.
  rewrite Hlabels, bind_Ok_l, Hvalues, bind_Ok_l. by eexists.
Qed.

Lemma make_nearest_dist_per_db_type_plots_Ok argsort
    (d : gmap string (gmap string (list npfloat))) :
  argsort_contract argsort → is_Ok (make_nearest_dist_per_db_type_plots argsort d).
Proof.
  intros Hok. unfold make_nearest_dist_per_db_type_plots.
  induction (map_to_list d) as [|[k m] l [bars IH]]; [by eexists|].
  destruct (nearest_dist_bars_Ok argsort (map_to_list m) Hok) as [b Hb].
  cbn [mapM_result]. cbn [fst snd]. rewrite Hb, bind_Ok_l, IH, bind_Ok_l. by eexists.
Qed.

(** On finite distances every histogram of line 209 is drawn: the list of
    each query group is not empty and holds finite averages only. *)
Lemma main_histograms_drawn argsort plt_hist db_labels db_cell_ids queries stats :
  argsort_contract argsort →
  plt_hist_contract plt_hist →
  (∀ q, q ∈ queries → Forall finite (q_dists q)) →
  Forall2 (λ q st, query_statistics argsort db_labels db_cell_ids (q_dists q) = Ok st)
    queries stats →
  is_Ok (make_5_nearest_distances_plots plt_hist
           (avg_nearest_5_distances_dict
              (foldl (λ a qs, record_query qs.1 qs.2 a) accum_init (zip queries stats)))).
Proof.
  intros Hok Hhist Hfin Hall. set (l := zip queries stats).
  pose proof (record_fold_avg l accum_init) as Hdict.
  change (avg_nearest_5_distances_dict accum_init)
    with (@nil (string * list npfloat)) in Hdict.
  pose proof (dd_fold_keys (λ qs : query_row * query_stats, q_label qs.1)
                (λ qs, [avg_top_5_distances qs.2]) l) as Hkeys.
  cbv beta in Hkeys. rewrite <- Hdict in Hkeys.
  unfold make_5_nearest_distances_plots.
  rewrite (mapM_result_Ok _ (λ _, ())); [by eexists|].
  intros [k v] Hin. cbn [snd].
  assert (k ∈ (λ qs : query_row * query_stats, q_label qs.1) <$> l) as Hk.
  { apply first_seen_elem. rewrite <- Hkeys. apply list_elem_of_fmap.
    by exists (k, v). }
  assert (v = (λ qs, avg_top_5_distances qs.2)
                <$> filter (λ qs : query_row * query_stats, q_label qs.1 = k) l)
    as ->.
  { rewrite <- (dd_get_elem _ k v (eq_ind_r NoDup (first_seen_NoDup _) Hkeys) Hin).
    rewrite Hdict.
    pose proof (dd_fold_get (λ qs : query_row * query_stats, q_label qs.1)
                  (λ qs, [avg_top_5_distances qs.2]) l [] k) as Hget.
    cbv beta in Hget. rewrite Hget. apply concat_singletons. }
  apply Hhist.
  - apply list_elem_of_fmap in Hk as (qs & -> & Hqs).
    intros Hnil%fmap_nil_inv. eapply (filter_nil_not_elem_of _ l qs Hnil); done.
  - apply Forall_fmap, Forall_forall. intros [q st] [_ Hqs]%list_elem_of_filter.
    destruct (zip_stats_elem _ _ _ _ _ _ _ Hall Hqs) as [Hq Hst].
    exact (avg_top_5_finite _ _ _ _ _ Hok (Hfin q Hq) Hst).
Qed.

(** X20. The outcome of a run of [main] over a database with at least one
    row and query rows as long as the database.  The loop and the two bar
    chart steps complete.  If [plt.hist] raises on the averages of a query
    group, the run stops there with that exception; it does not when it
    draws every non-empty list of finite numbers and the distances are
    finite and of moderate size.  Past the histograms the run completes
    exactly when the query groups marked "control" and those marked
    "disease" (and not "control") are both present or both absent; with one
    kind only it stops with [ValueError] at the p-value step.  Repeated
    query identifiers do not change this. *)
Theorem main_outcome argsort plt_hist {pvalue} (binom_test : Z → Z → Q → pvalue)
    db_labels db_cell_ids queries :
  argsort_contract argsort →
  length db_cell_ids = length db_labels →
  0 < length db_labels →
  (∀ q, q ∈ queries → length (q_dists q) = length db_labels) →
  ∃ acc,
    query_loop argsort db_labels db_cell_ids accum_init queries = Ok acc ∧
    is_Ok (make_nearest_dist_per_db_type_plots argsort (nearest_dist_per_type_dict acc)) ∧
    is_Ok (make_top_5_labels_plots argsort (top_5_types_dict acc)) ∧
    (∀ e, make_5_nearest_distances_plots plt_hist (avg_nearest_5_distances_dict acc)
            = Raise e →
          main argsort plt_hist binom_test db_labels db_cell_ids queries = Raise e) ∧
    (plt_hist_contract plt_hist →
     (∀ q, q ∈ queries → Forall moderate (q_dists q)) →
     is_Ok (make_5_nearest_distances_plots plt_hist (avg_nearest_5_distances_dict acc))) ∧
    (is_Ok (make_5_nearest_distances_plots plt_hist (avg_nearest_5_distances_dict acc)) →
     (((∃ q, q ∈ queries ∧ substring_of "control" (q_label q)) ↔
       (∃ q, q ∈ queries ∧ substring_of "disease" (q_label q) ∧
             ¬ substring_of "control" (q_label q))) →
      is_Ok (main argsort plt_hist binom_test db_labels db_cell_ids queries)) ∧
     (¬ ((∃ q, q ∈ queries ∧ substring_of "control" (q_label q)) ↔
         (∃ q, q ∈ queries ∧ substring_of "disease" (q_label q) ∧
               ¬ substring_of "control" (q_label q))) →
      main argsort plt_hist binom_test db_labels db_cell_ids queries = Raise ValueError)).
Proof.
  intros Hok Hc Hpos Hq.
  destruct (query_loop_fold argsort db_labels db_cell_ids queries accum_init
              Hok Hc Hpos Hq) as (stats & Hall & Hloop).
  destruct (main_enrichment_completes _ _ _ _ _ Hok Hq Hall) as [e Henr].
  pose proof (λ Hhist Hfin, main_histograms_drawn argsort plt_hist _ _ _ _ Hok Hhist Hfin Hall)
    as Hdrawn.
  destruct (make_nearest_dist_per_db_type_plots_Ok argsort
              (nearest_dist_per_type_dict
                 (foldl (λ a qs, record_query qs.1 qs.2 a) accum_init (zip queries stats)))
              Hok) as [nearest_bars Hnearest].
  destruct (make_top_5_labels_plots_Ok argsort
              (top_5_types_dict
                 (foldl (λ a qs, record_query qs.1 qs.2 a) accum_init (zip queries stats)))
              Hok) as (top_5_bars & Htop_5 & _).
  set (acc := foldl (λ a qs, record_query qs.1 qs.2 a) accum_init (zip queries stats))
    in *.
  assert (acc = foldl (λ a qs, record_query qs.1 qs.2 a) accum_init (zip queries stats))
    as Hacc by done.
  clearbody acc.
  set (l := zip queries stats) in *.
  destruct (coarse_lists_of_queries l []) as [HC HD].
  pose proof (record_fold_classifications l accum_init) as Hcls.
  change (classifications accum_init) with (@nil (string * list string)) in Hcls.
  rewrite <- Hcls, <- Hacc in HC, HD. simpl in HC, HD.
  assert (length queries = length stats) as Hlen by (by eapply Forall2_length).
  assert (∀ P : query_row → Prop,
            (∀ q, Decision (P q)) →
            (∃ q, q ∈ queries ∧ P q) ↔
            ∃ qs, qs ∈ l ∧ P qs.1) as Hex.
  { intros P _. split.
    - intros (q & (i & Hi)%list_elem_of_lookup_1 & HP).
      destruct (lookup_lt_is_Some_2 stats i) as [st Hst].
      { rewrite <- Hlen. by eapply lookup_lt_Some. }
      exists (q, st). split; [|done].
      eapply list_elem_of_lookup_2. by apply lookup_zip_Some.
    - intros ([q st] & (i & Hi)%list_elem_of_lookup_1 & HP).
      apply lookup_zip_Some in Hi as [Hi _].
      exists q. split; [by eapply list_elem_of_lookup_2 | done]. }
  assert ((coarse_split (classifications acc) [] []).1 ≠ [] ↔
          ∃ q, q ∈ queries ∧ substring_of "control" (q_label q)) as HCne.
  { rewrite (Hex (λ q, substring_of "control" (q_label q)) _). split.
    - intros Hne.
      destruct (filter (λ qs, substring_of "control" (q_label qs.1)) l)
        as [|qs rest] eqn:E.
      + apply Permutation_nil_r in HC. done.
      + exists qs.
        assert (qs ∈ filter (λ qs, substring_of "control" (q_label qs.1)) l) as Hin
          by (rewrite E; left).
        apply list_elem_of_filter in Hin as [? ?]. done.
    - intros (qs & Hin & HP) Hnil. rewrite Hnil in HC.
      apply Permutation_nil_l in HC. symmetry in HC. apply fmap_nil_inv in HC.
      eapply (filter_nil_not_elem_of _ l qs HC); done. }
  assert ((coarse_split (classifications acc) [] []).2 ≠ [] ↔
          ∃ q, q ∈ queries ∧ substring_of "disease" (q_label q) ∧
               ¬ substring_of "control" (q_label q)) as HDne.
  { rewrite (Hex (λ q, substring_of "disease" (q_label q) ∧
                       ¬ substring_of "control" (q_label q)) _). split.
    - intros Hne.
      destruct (filter (λ qs, substring_of "disease" (q_label qs.1) ∧
                              ¬ substring_of "control" (q_label qs.1)) l)
        as [|qs rest] eqn:E.
      + apply Permutation_nil_r in HD. done.
      + exists qs.
        assert (qs ∈ filter (λ qs, substring_of "disease" (q_label qs.1) ∧
                                   ¬ substring_of "control" (q_label qs.1)) l) as Hin
          by (rewrite E; left).
        apply list_elem_of_filter in Hin as [? ?]. done.
    - intros (qs & Hin & HP) Hnil. rewrite Hnil in HD.
      apply Permutation_nil_l in HD. symmetry in HD. apply fmap_nil_inv in HD.
      eapply (filter_nil_not_elem_of _ l qs HD); done. }
  pose proof (histograms_run_completes argsort binom_test
                (overall_classifications acc) (classifications acc) Hok) as Hgood.
  pose proof (histograms_run_raises argsort binom_test
                (overall_classifications acc) (classifications acc) Hok) as Hbad.
  exists acc. split; [done|]. split; [by eexists|]. split; [by eexists|].
  unfold main. rewrite Hloop, bind_Ok_l, Hnearest, bind_Ok_l, Htop_5, bind_Ok_l.
  split; [|split].
  - intros e' He'. by rewrite He'.
  - intros Hhist Hmod. apply Hdrawn; [done|].
    intros q Hin. eapply Forall_impl; [exact (Hmod q Hin)|].
    intros x (y & -> & _). by eexists.
  - intros [drawn ->]. rewrite bind_Ok_l. split.
    + intros Hiff.
      destruct Hgood as [h ->].
      { destruct (decide ((coarse_split (classifications acc) [] []).1 = [])) as [E1|E1],
          (decide ((coarse_split (classifications acc) [] []).2 = [])) as [E2|E2];
          try tauto. }
      rewrite bind_Ok_l, Henr. by eexists.
    + intros Hniff. rewrite Hbad; [done|].
      destruct (decide ((coarse_split (classifications acc) [] []).1 = [])) as [E1|E1],
        (decide ((coarse_split (classifications acc) [] []).2 = [])) as [E2|E2];
        tauto.
Qed.

Lemma plt_hist_finite_contract : plt_hist_contract plt_hist_finite.
Proof.
  intros l _ Hfin. unfold plt_hist_finite.
  replace (forallb _ l) with true; [done|].
  induction Hfin as [|x l [q ->] _ IH]; [done|]. simpl. by rewrite <- IH.
Qed.

Lemma three_queries_moderate q : q ∈ three_queries → Forall moderate (q_dists q).
Proof.
  unfold three_queries. intros Hq.
  repeat (apply elem_of_cons in Hq as [->|Hq];
          [repeat constructor; (eexists; split; [done|]; by apply Qle_bool_iff)|]).
  by apply elem_of_nil in Hq.
Qed.

Lemma main_outcome_witness :
  ∃ acc,
    query_loop argsort_stable ["A"; "A"; "B"] ["c1"; "c2"; "c3"] accum_init
      three_queries = Ok acc ∧
    is_Ok (make_nearest_dist_per_db_type_plots argsort_stable
             (nearest_dist_per_type_dict acc)) ∧
    is_Ok (make_top_5_labels_plots argsort_stable (top_5_types_dict acc)) ∧
    (∀ e, make_5_nearest_distances_plots plt_hist_finite
            (avg_nearest_5_distances_dict acc) = Raise e →
          main argsort_stable plt_hist_finite binom_test_args ["A"; "A"; "B"]
            ["c1"; "c2"; "c3"] three_queries = Raise e) ∧
    (plt_hist_contract plt_hist_finite →
     (∀ q, q ∈ three_queries → Forall moderate (q_dists q)) →
     is_Ok (make_5_nearest_distances_plots plt_hist_finite
              (avg_nearest_5_distances_dict acc))) ∧
    (is_Ok (make_5_nearest_distances_plots plt_hist_finite
              (avg_nearest_5_distances_dict acc)) →
     (((∃ q, q ∈ three_queries ∧ substring_of "control" (q_label q)) ↔
       (∃ q, q ∈ three_queries ∧ substring_of "disease" (q_label q) ∧
             ¬ substring_of "control" (q_label q))) →
      is_Ok (main argsort_stable plt_hist_finite binom_test_args ["A"; "A"; "B"]
               ["c1"; "c2"; "c3"] three_queries)) ∧
     (¬ ((∃ q, q ∈ three_queries ∧ substring_of "control" (q_label q)) ↔
         (∃ q, q ∈ three_queries ∧ substring_of "disease" (q_label q) ∧
               ¬ substring_of "control" (q_label q))) →
      main argsort_stable plt_hist_finite binom_test_args ["A"; "A"; "B"]
        ["c1"; "c2"; "c3"] three_queries = Raise ValueError)) ∧
    plt_hist_contract plt_hist_finite ∧
    (∀ q, q ∈ three_queries → Forall moderate (q_dists q)).
Proof.
  destruct (main_outcome argsort_stable plt_hist_finite binom_test_args ["A"; "A"; "B"]
              ["c1"; "c2"; "c3"] three_queries argsort_stable_contract eq_refl)
    as (acc & H).
  - simpl. lia.
  - apply three_queries_rows.
  - exists acc. repeat (split; [apply H|]). split.
    + apply plt_hist_finite_contract.
    + apply three_queries_moderate.
Defined.

Example main_small_run :
  (λ out, (control_clfs (out_histograms out), disease_clfs (out_histograms out),
           tests (out_histograms out), out_enriched out))
    <$> main argsort_stable plt_hist_finite binom_test_args
          ["A"; "A"; "B"] ["c1"; "c2"; "c3"]
          [ {| q_id := "s1"; q_label := "control_3m";
               q_dists := [Fin 1; Fin 2; Fin (1 # 2)] |};
            {| q_id := "s2"; q_label := "disease_3m";
               q_dists := [Fin (1 # 2); Fin 1; Fin 2] |} ]
  = Ok (["A"], ["A"], [(1000, 2000)%Z], []).
Proof. reflexivity. Qed.

Example main_control_only_run :
  main argsort_stable plt_hist_finite binom_test_args
    ["A"; "A"; "B"] ["c1"; "c2"; "c3"]
    [ {| q_id := "s1"; q_label := "control_3m";
         q_dists := [Fin 1; Fin 2; Fin (1 # 2)] |} ]
  = Raise ValueError.
Proof. reflexivity. Qed.

(** The histogram of a group with a NaN average is refused, and the run
    stops there although both kinds of group are present. *)
Example main_nan_distance_run :
  main argsort_stable plt_hist_finite binom_test_args
    ["A"; "A"; "B"] ["c1"; "c2"; "c3"]
    [ {| q_id := "s1"; q_label := "control_3m"; q_dists := [Fin 1; NaN; Fin (1 # 2)] |};
      {| q_id := "s2"; q_label := "disease_3m"; q_dists := [Fin (1 # 2); Fin 1; Fin 2] |} ]
  = Raise ValueError ∧
  main argsort_stable (λ _, Ok ()) binom_test_args
    ["A"; "A"; "B"] ["c1"; "c2"; "c3"]
    [ {| q_id := "s1"; q_label := "control_3m"; q_dists := [Fin 1; NaN; Fin (1 # 2)] |};
      {| q_id := "s2"; q_label := "disease_3m"; q_dists := [Fin (1 # 2); Fin 1; Fin 2] |} ]
  ≠ Raise ValueError.
Proof. split; [by vm_compute | intros Hrun; vm_compute in Hrun; discriminate Hrun]. Qed.

(** The run on the brain database selects the first query. *)
Example main_brain_run :
  (λ out, (control_clfs (out_histograms out), disease_clfs (out_histograms out),
           out_enriched out, out_nearest_hits out))
    <$> main argsort_stable plt_hist_finite binom_test_args
          brain_db_labels brain_db_cell_ids brain_queries
  = Ok ([brain], [osteocyte], ["s1"],
        [("s1", ["cell0"; "cell1"; "cell2"; "cell3"; "cell4"])]).
Proof. by vm_compute. Qed.

Lemma query_loop_bad_row argsort db_labels db_cell_ids queries acc :
  argsort_contract argsort →
  (∃ q, q ∈ queries ∧
        (q_dists q = [] ∨ length db_labels < length (q_dists q) ∨
         length db_cell_ids < length (q_dists q))) →
  query_loop argsort db_labels db_cell_ids acc queries = Raise IndexError.
Proof.
  intros Hok. revert acc. induction queries as [|q0 queries IH]; intros acc (q & Hin & Hbad).
  { by apply elem_of_nil in Hin. }
  cbn [query_loop].
  destruct (decide (q_dists q0 = [] ∨ length db_labels < length (q_dists q0) ∨
                    length db_cell_ids < length (q_dists q0))) as [Hbad0|Hgood0].
  - by rewrite (query_statistics_IndexError argsort Hok db_labels db_cell_ids
                  (q_dists q0) Hbad0).
  - destruct (query_statistics_long_enough argsort Hok db_labels db_cell_ids (q_dists q0))
      as [st ->].
    + intros Hnil. apply Hgood0. by left.
    + apply Nat.le_ngt. intros Hlt. apply Hgood0. right. by left.
    + apply Nat.le_ngt. intros Hlt. apply Hgood0. right. by right.
    + rewrite bind_Ok_l. apply IH. exists q. split; [|done].
      apply elem_of_cons in Hin as [->|Hin]; [done | done].
Qed.

(** X21. A run of [main] stops with [IndexError], before any chart of the
    aggregated data is drawn, as soon as one query row is empty (the
    database has no row) or longer than the arrays of database labels or
    cell identifiers. *)
Theorem main_stops_at_bad_row argsort plt_hist {pvalue}
    (binom_test : Z → Z → Q → pvalue) db_labels db_cell_ids queries :
  argsort_contract argsort →
  (∃ q, q ∈ queries ∧
        (q_dists q = [] ∨ length db_labels < length (q_dists q) ∨
         length db_cell_ids < length (q_dists q))) →
  query_loop argsort db_labels db_cell_ids accum_init queries = Raise IndexError ∧
  main argsort plt_hist binom_test db_labels db_cell_ids queries = Raise IndexError.
Proof.
  intros Hok Hbad.
  pose proof (query_loop_bad_row argsort db_labels db_cell_ids queries accum_init
                Hok Hbad) as Hloop.
  split; [done|]. unfold main. by rewrite Hloop.
Qed.

Lemma main_stops_at_bad_row_witness :
  (∃ q, q ∈ [ {| q_id := "s1"; q_label := "control_3m"; q_dists := [] |} ] ∧
        (q_dists q = [] ∨ length ([] : list string) < length (q_dists q) ∨
         length ([] : list string) < length (q_dists q))) ∧
  query_loop argsort_stable [] [] accum_init
    [ {| q_id := "s1"; q_label := "control_3m"; q_dists := [] |} ] = Raise IndexError ∧
  main argsort_stable plt_hist_finite binom_test_args [] []
    [ {| q_id := "s1"; q_label := "control_3m"; q_dists := [] |} ] = Raise IndexError.
Proof.
  assert (∃ q, q ∈ [ {| q_id := "s1"; q_label := "control_3m"; q_dists := [] |} ] ∧
               (q_dists q = [] ∨ length ([] : list string) < length (q_dists q) ∨
                length ([] : list string) < length (q_dists q))) as Hbad.
  { eexists. split; [left|]. by left. }
  split; [exact Hbad|].
  apply (main_stops_at_bad_row argsort_stable plt_hist_finite binom_test_args [] [] _
           argsort_stable_contract Hbad).
Defined.
